(** * TCP-IP-server: the per-connection protocol core of [server.py]

    A shallow embedding of [ClientConnection] (framing reader, handshake,
    message codec, navigator, sweeper, session driver) and the properties
    of the specification that are settled against it.

    Python values are modelled as follows.
    - [str] (always ASCII here, the reader decodes with ["ASCII"]) is a
      list of characters, so that [len], [+], [in] and [partition] are list
      functions;
    - [int] is [Z];
    - a raised exception is a constructor of [exn]; a method of
      [ClientConnection] is a function from the session state to an outcome
      and the state the method leaves behind (the state survives a raise:
      [run] keeps sending on the same connection in its handlers);
    - [while] loops and the recursion of [get_message] take fuel. *)

From Stdlib Require Import Bool Ascii String List ZArith Lia Permutation.
Import ListNotations.
Local Open Scope Z_scope.

Set Implicit Arguments.

(** ** Python strings *)

Definition str := list ascii.

(** A literal of the source. *)
Definition lit (s : string) : str := list_ascii_of_string s.

(** [len(s)] *)
Definition len (s : str) : Z := Z.of_nat (length s).

(** [a == b] on strings *)
Fixpoint str_eqb (a b : str) : bool :=
  match a, b with
  | [], [] => true
  | x :: a', y :: b' => Ascii.eqb x y && str_eqb a' b'
  | _, _ => false
  end.

(** [s.startswith(p)] *)
Fixpoint startswith (p s : str) : bool :=
  match p, s with
  | [], _ => true
  | x :: p', y :: s' => Ascii.eqb x y && startswith p' s'
  | _ :: _, [] => false
  end.

(** [sub in s] *)
Fixpoint contains (sub s : str) : bool :=
  startswith sub s ||
  match s with
  | [] => false
  | _ :: t => contains sub t
  end.

(** [s.partition(sep)] for a non-empty [sep]: the part before the first
    occurrence, the separator (empty when absent) and the part after. *)
Fixpoint partition (sep s : str) : str * str * str :=
  match s with
  | [] => ([], [], [])
  | c :: t =>
      if startswith sep s then ([], sep, skipn (length sep) s)
      else let '(a, m, b) := partition sep t in (c :: a, m, b)
  end.

(** Characters that [str.split()] treats as separators
    ([str.isspace] on ASCII: 9..13, 28..31 and 32). *)
Definition isspace (c : ascii) : bool :=
  let n := nat_of_ascii c in
  ((9 <=? n) && (n <=? 13) || (28 <=? n) && (n <=? 32))%nat.

(** Characters that [int()] strips at both ends of an ASCII string
    (the C-locale white space: 9..13 and 32). *)
Definition c_isspace (c : ascii) : bool :=
  let n := nat_of_ascii c in
  ((9 <=? n) && (n <=? 13) || (n =? 32))%nat.

Fixpoint dropwhile (p : ascii -> bool) (s : str) : str :=
  match s with
  | [] => []
  | c :: t => if p c then dropwhile p t else s
  end.

Fixpoint takewhile (p : ascii -> bool) (s : str) : str :=
  match s with
  | [] => []
  | c :: t => if p c then c :: takewhile p t else []
  end.

(** [s.split(maxsplit = n)]: runs of white space separate the pieces; once
    [n] pieces are cut the remainder is kept whole, leading white space
    removed and trailing white space kept. *)
Fixpoint split (maxsplit : nat) (s : str) : list str :=
  match dropwhile isspace s with
  | [] => []
  | c :: t =>
      match maxsplit with
      | O => [c :: t]
      | S n =>
          takewhile (fun x => negb (isspace x)) (c :: t)
            :: split n (dropwhile (fun x => negb (isspace x)) (c :: t))
      end
  end.

(** *** [int(s)] *)

Definition digit_value (c : ascii) : option Z :=
  let n := nat_of_ascii c in
  if ((48 <=? n) && (n <=? 57))%nat then Some (Z.of_nat n - 48) else None.

Definition underscore : ascii := "_"%char.

(** The digits of a decimal literal after its first digit: a single
    underscore may stand between two digits. *)
Fixpoint int_digits (s : str) (acc : Z) : option Z :=
  match s with
  | [] => Some acc
  | c :: t =>
      match digit_value c with
      | Some d => int_digits t (10 * acc + d)
      | None =>
          if Ascii.eqb c underscore then
            match t with
            | c' :: t' =>
                match digit_value c' with
                | Some d => int_digits t' (10 * acc + d)
                | None => None
                end
            | [] => None
            end
          else None
      end
  end.

Definition int_unsigned (s : str) : option Z :=
  match s with
  | [] => None
  | c :: t =>
      match digit_value c with
      | Some d => int_digits t d
      | None => None
      end
  end.

(** [s.strip()] with the white space of [int()]. *)
Definition c_strip (s : str) : str :=
  rev (dropwhile c_isspace (rev (dropwhile c_isspace s))).

(** [int(s)] in base ten: [None] stands for [ValueError]. The limit that
    the interpreter puts on the number of digits of a numeral (4300 by
    default) is not part of it: the statements about numerals say how long
    they are. *)
Definition py_int (s : str) : option Z :=
  match c_strip s with
  | [] => None
  | c :: t =>
      if Ascii.eqb c "-"%char then option_map Z.opp (int_unsigned t)
      else if Ascii.eqb c "+"%char then int_unsigned t
      else int_unsigned (c :: t)
  end.

(** *** [str(n)] *)

Definition digit_char (d : Z) : ascii := ascii_of_nat (Z.to_nat (48 + d)).

(** The decimal digits of [n >= 0], most significant first, in front of
    [acc]; [fuel] bounds the number of digits ([str_nonneg] passes the
    number of binary digits, which is enough). *)
Fixpoint str_digits (fuel : nat) (n : Z) (acc : str) : str :=
  match fuel with
  | O => acc
  | S f =>
      if n <? 10 then digit_char n :: acc
      else str_digits f (n / 10) (digit_char (n mod 10) :: acc)
  end.

Definition str_nonneg (n : Z) : str :=
  str_digits (S (Z.to_nat (Z.log2 n))) n [].

Definition py_str (n : Z) : str :=
  if n <? 0 then "-"%char :: str_nonneg (- n) else str_nonneg n.

(** ** Constants of [server.py] *)

Definition SERVER_KEY : Z := 54621.
Definition CLIENT_KEY : Z := 45328.

Definition SERVER_MOVE : str := lit "102 MOVE".
Definition SERVER_TURN_LEFT : str := lit "103 TURN LEFT".
Definition SERVER_TURN_RIGHT : str := lit "104 TURN RIGHT".
Definition SERVER_PICK_UP : str := lit "105 GET MESSAGE".
Definition SERVER_LOGOUT : str := lit "106 LOGOUT".
Definition SERVER_OK : str := lit "200 OK".
Definition SERVER_LOGIN_FAILED : str := lit "300 LOGIN FAILED".
Definition SERVER_SYNTAX_ERROR : str := lit "301 SYNTAX ERROR".
Definition SERVER_LOGIC_ERROR : str := lit "302 LOGIC ERROR".

Definition CLIENT_OK : str := lit "OK".
Definition CLIENT_RECHARGING : str := lit "RECHARGING".
Definition CLIENT_FULL_POWER : str := lit "FULL POWER".

Definition CLIENT_USERNAME_MAX_LENGTH : Z := 12.
Definition CLIENT_CONFIRMATION_MAX_LENGTH : Z := 7.
Definition CLIENT_OK_MAX_LENGTH : Z := 12.
Definition CLIENT_RECHARGING_MAX_LENGTH : Z := 12.
Definition CLIENT_FULL_POWER_MAX_LENGTH : Z := 12.
Definition CLIENT_MESSAGE_MAX_LENGTH : Z := 100.

Definition TIMEOUT : Z := 1.
Definition TIMEOUT_RECHARGING : Z := 5.

Definition MAX_VALUE : Z := 65536.

Definition UP : Z := -1.
Definition DOWN : Z := -2.
Definition LEFT : Z := 3.
Definition RIGHT : Z := 4.

Definition coords : Type := Z * Z.

Definition DESTINATION_SQUARE : coords := (-2, 2).

(** The terminator ["\a\b"] and its first byte ["\a"]. *)
Definition BEL : ascii := "007"%char.
Definition BS : ascii := "008"%char.
Definition TERM : str := [BEL; BS].

Definition coords_eqb (a b : coords) : bool :=
  (fst a =? fst b) && (snd a =? snd b).

(** [ord(c)] *)
Definition ord (c : ascii) : Z := Z.of_nat (nat_of_ascii c).

(** [sum(xs, 0)] *)
Definition sum (xs : list Z) : Z := fold_left Z.add xs 0.

(** [calculate_hash(string)] *)
Definition calculate_hash (string : str) : Z :=
  (sum (map (fun c => ord c) string) * 1000) mod MAX_VALUE.

(** ** Exceptions and outcomes *)

(** The three faults of the server, the time-out of the socket, and the
    built-in exceptions that the code can raise: [ValueError] ([int()] and
    tuple unpacking), [RuntimeError] (a bare [raise] with no active
    exception), [UnicodeDecodeError] ([decode("ASCII")]). What the
    interpreter and the operating system raise on their own account
    ([RecursionError] past a thousand nested calls, the [OSError] of a
    broken connection) is not part of it. *)
Inductive exn : Type :=
| ServerLoginFailed
| ServerSyntaxError
| ServerLogicError
| SocketTimeout
| ValueError
| RuntimeError
| UnicodeDecodeError.

Inductive result (A : Type) : Type :=
| Ok (a : A)
| Raise (e : exn)
| OutOfFuel.

Arguments Ok {A} a.
Arguments Raise {A} e.
Arguments OutOfFuel {A}.

(** ** Message codec (the static methods) *)

(** [parse_number(string_number)] *)
Definition parse_number (string_number : str) : result Z :=
  if contains (lit " ") string_number then Raise ServerSyntaxError
  else match py_int string_number with
       | Some n => Ok n
       | None => Raise ValueError
       end.

(** The body of the [try] of [parse_client_ok]: unpacking anything but
    three pieces is a [ValueError], the bare [raise] a [RuntimeError]. *)
Definition parse_client_ok_try (client_ok : str) : result coords :=
  match split 2 client_ok with
  | [ok; num_1; num_2] =>
      if negb (str_eqb ok CLIENT_OK) then Raise RuntimeError
      else match parse_number num_1 with
           | Ok x =>
               match parse_number num_2 with
               | Ok y => Ok (x, y)
               | Raise e => Raise e
               | OutOfFuel => OutOfFuel
               end
           | Raise e => Raise e
           | OutOfFuel => OutOfFuel
           end
  | _ => Raise ValueError
  end.

(** [parse_client_ok(client_ok)]: [except Exception] turns every exception
    of the body into [ServerSyntaxError]. *)
Definition parse_client_ok (client_ok : str) : result coords :=
  match parse_client_ok_try client_ok with
  | Ok c => Ok c
  | Raise _ => Raise ServerSyntaxError
  | OutOfFuel => OutOfFuel
  end.

(** [get_direction_to_dest(current, destination)] *)
Definition get_direction_to_dest (current destination : coords) : Z :=
  if fst destination >? fst current then RIGHT
  else if fst destination <? fst current then LEFT
  else if snd destination >? snd current then UP
  else DOWN.

(** [get_current_direction(coords_1, coords_2)] (not used by the server) *)
Definition get_current_direction (coords_1 coords_2 : coords) : Z :=
  let x_diff := fst coords_2 - fst coords_1 in
  let y_diff := snd coords_2 - snd coords_1 in
  if x_diff >? 0 then RIGHT
  else if x_diff <? 0 then LEFT
  else if y_diff >? 0 then UP
  else DOWN.

(** [range(lo, hi)] *)
Definition range (lo hi : Z) : list Z :=
  map (fun k => lo + Z.of_nat k) (seq 0 (Z.to_nat (hi - lo))).

(** ** Methods as state transformers *)

Definition M (S A : Type) : Type := S -> result A * S.

Definition ret {S A : Type} (a : A) : M S A := fun s => (Ok a, s).

Definition raise {S A : Type} (e : exn) : M S A := fun s => (Raise e, s).

Definition out_of_fuel {S A : Type} : M S A := fun s => (OutOfFuel, s).

Definition lift {S A : Type} (r : result A) : M S A := fun s => (r, s).

Definition bind {S A B : Type} (m : M S A) (k : A -> M S B) : M S B :=
  fun s =>
    match m s with
    | (Ok a, s') => k a s'
    | (Raise e, s') => (Raise e, s')
    | (OutOfFuel, s') => (OutOfFuel, s')
    end.

Notation "x <- m ;; k" := (bind m (fun x => k))
  (at level 61, m at next level, right associativity).
Notation "m ;; k" := (bind m (fun _ => k))
  (at level 61, right associativity).

(** Control of a [for] loop whose body may [return]. *)
Inductive loop_ctl (A : Type) : Type :=
| Continue (a : A)
| Return.

Arguments Continue {A} a.
Arguments Return {A}.

(** [raw_data.decode("ASCII")]: a byte above 127 is a
    [UnicodeDecodeError]. *)
Definition is_ascii (c : ascii) : bool :=
  match c with
  | Ascii _ _ _ _ _ _ _ b7 => negb b7
  end.

Definition decode (raw_data : str) : result str :=
  if forallb is_ascii raw_data then Ok raw_data else Raise UnicodeDecodeError.

(** ** The session: [ClientConnection] and its socket *)

Section Session.

(** The peer at the other end of the connection: a state and its reaction
    to the bytes of one [send], the segments it sends back. *)
Variable Client : Type.
Variable react : Client -> str -> Client * list str.

(** [buffer] is [self.buffer]; the other fields are [self.connection]:
    the segments that have arrived and that [recv] has not returned yet
    (when none is left the read times out), the payloads of [send] in
    order, the value of the last [settimeout], whether [close] was
    called, and the peer. [move_log] keeps the pairs that [move_forward]
    reports with [logging.info]. *)
Record session : Type := mkSession {
  buffer : str;
  pending : list str;
  sent : list str;
  sock_timeout : Z;
  closed : bool;
  client : Client;
  move_log : list (coords * coords)
}.

Definition set_buffer (b : str) (st : session) : session :=
  mkSession b (pending st) (sent st) (sock_timeout st) (closed st)
            (client st) (move_log st).

Definition set_pending (p : list str) (st : session) : session :=
  mkSession (buffer st) p (sent st) (sock_timeout st) (closed st)
            (client st) (move_log st).

(** [self.connection.recv(bufsize)], the peer keeping the connection open:
    when nothing is on its way the read ends in the time-out. [recv_from]
    below is the read with a peer that may have hung up. *)
Definition recv (bufsize : nat) : M session str := fun st =>
  match pending st with
  | [] => (Raise SocketTimeout, st)
  | seg :: rest =>
      (Ok (firstn bufsize seg),
       set_pending (match skipn bufsize seg with
                    | [] => rest
                    | more => more :: rest
                    end) st)
  end.

(** [self.connection.send(data)] *)
Definition send (data : str) : M session unit := fun st =>
  let '(c, replies) := react (client st) data in
  (Ok tt,
   mkSession (buffer st) (pending st ++ replies) (sent st ++ [data])
             (sock_timeout st) (closed st) c (move_log st)).

(** [self.connection.settimeout(t)] *)
Definition settimeout (t : Z) : M session unit := fun st =>
  (Ok tt,
   mkSession (buffer st) (pending st) (sent st) t (closed st)
             (client st) (move_log st)).

(** [self.connection.close()] *)
Definition close : M session unit := fun st =>
  (Ok tt,
   mkSession (buffer st) (pending st) (sent st) (sock_timeout st) true
             (client st) (move_log st)).

(** [logging.info("Move from {} to {}")] *)
Definition log_move (a b : coords) : M session unit := fun st =>
  (Ok tt,
   mkSession (buffer st) (pending st) (sent st) (sock_timeout st)
             (closed st) (client st) (move_log st ++ [(a, b)])).

(** *** Framing reader *)

(** [parse_buffer] *)
Definition parse_buffer : M session str := fun st =>
  let '(next_message, found, rest) := partition TERM (buffer st) in
  match found with
  | _ :: _ => (Ok next_message, set_buffer rest st)
  | [] => (Raise ServerSyntaxError, st)
  end.

(** The [while] loop of [get_message]. *)
Fixpoint get_message_wait (fuel : nat) (max_length : Z) : M session unit :=
  fun st =>
    if contains TERM (buffer st) then (Ok tt, st)
    else
      let remainder := max_length - len (buffer st) in
      if (contains [BEL] (buffer st) && (remainder <=? 0))
         || (negb (contains [BEL] (buffer st)) && (remainder <=? 0))
      then (Raise ServerSyntaxError, st)
      else
        match fuel with
        | O => (OutOfFuel, st)
        | S f =>
            (raw_data <- recv 128 ;;
             if len raw_data >? 0 then
               decoded <- lift (decode raw_data) ;;
               (fun s => (Ok tt, set_buffer (buffer s ++ decoded) s)) ;;
               get_message_wait f max_length
             else get_message_wait f max_length) st
        end.

(** [recharging], over the [get_message] it calls. *)
Definition recharging_with (get_message : Z -> M session str)
  : M session unit :=
  settimeout TIMEOUT_RECHARGING ;;
  msg <- get_message CLIENT_FULL_POWER_MAX_LENGTH ;;
  if str_eqb msg CLIENT_FULL_POWER then settimeout TIMEOUT
  else raise ServerLogicError.

(** [get_message(max_length)] *)
Fixpoint get_message (fuel : nat) (max_length : Z) : M session str :=
  match fuel with
  | O => out_of_fuel
  | S f =>
      get_message_wait f max_length ;;
      msg <- parse_buffer ;;
      if str_eqb msg CLIENT_RECHARGING then
        recharging_with (get_message f) ;;
        get_message f max_length
      else if len msg >? max_length - 2 then raise ServerSyntaxError
      else ret msg
  end.

(** [recharging()] *)
Definition recharging (fuel : nat) : M session unit :=
  recharging_with (get_message fuel).

(** [send_message(message)] *)
Definition send_message (message : str) : M session unit :=
  send (message ++ TERM).

(** *** Handshake *)

(** [authenticate()] *)
Definition authenticate (fuel : nat) : M session unit :=
  username <- get_message fuel CLIENT_USERNAME_MAX_LENGTH ;;
  let username_hash := calculate_hash username in
  let server_code := (username_hash + SERVER_KEY) mod MAX_VALUE in
  send_message (py_str server_code) ;;
  let client_code := (username_hash + CLIENT_KEY) mod MAX_VALUE in
  confirmation <- get_message fuel CLIENT_CONFIRMATION_MAX_LENGTH ;;
  client_confirmation <- lift (parse_number confirmation) ;;
  if client_code =? client_confirmation then send_message SERVER_OK
  else raise ServerLoginFailed.

(** *** Navigator *)

(** [move_forward(current_coords)] *)
Fixpoint move_forward (fuel : nat) (current_coords : coords)
  : M session coords :=
  match fuel with
  | O => out_of_fuel
  | S f =>
      send_message SERVER_MOVE ;;
      msg <- get_message f CLIENT_OK_MAX_LENGTH ;;
      new_coords <- lift (parse_client_ok msg) ;;
      if coords_eqb current_coords new_coords then
        move_forward f current_coords
      else
        log_move current_coords new_coords ;;
        ret new_coords
  end.

(** [turn_left()] *)
Definition turn_left (fuel : nat) : M session coords :=
  send_message SERVER_TURN_LEFT ;;
  msg <- get_message fuel CLIENT_OK_MAX_LENGTH ;;
  lift (parse_client_ok msg).

(** [turn_right()] *)
Definition turn_right (fuel : nat) : M session coords :=
  send_message SERVER_TURN_RIGHT ;;
  msg <- get_message fuel CLIENT_OK_MAX_LENGTH ;;
  lift (parse_client_ok msg).

(** [turn_to_direction(direction, direction_to_dest)] *)
Definition turn_to_direction (fuel : nat) (direction direction_to_dest : Z)
  : M session Z :=
  (if negb (direction =? direction_to_dest) then
     if ((direction >? 0) && (direction_to_dest >? 0))
        || ((direction <? 0) && (direction_to_dest <? 0))
     then turn_left fuel ;; turn_left fuel ;; ret tt
     else if direction =? UP then
       if direction_to_dest =? LEFT then turn_left fuel ;; ret tt
       else turn_right fuel ;; ret tt
     else if direction =? DOWN then
       if direction_to_dest =? LEFT then turn_right fuel ;; ret tt
       else turn_left fuel ;; ret tt
     else if direction =? RIGHT then
       if direction_to_dest =? UP then turn_left fuel ;; ret tt
       else turn_right fuel ;; ret tt
     else if direction =? LEFT then
       if direction_to_dest =? UP then turn_right fuel ;; ret tt
       else turn_left fuel ;; ret tt
     else ret tt
   else ret tt) ;;
  ret direction_to_dest.

(** The loop [while current_coords != DESTINATION_SQUARE] of
    [find_and_search_square]; it yields the final [direction] and
    [current_coords]. *)
Fixpoint reach_destination_square (fuel : nat) (direction : Z)
         (current_coords : coords) : M session (Z * coords) :=
  if negb (coords_eqb current_coords DESTINATION_SQUARE) then
    match fuel with
    | O => out_of_fuel
    | S f =>
        let direction_to_dest :=
          get_direction_to_dest current_coords DESTINATION_SQUARE in
        direction' <- turn_to_direction f direction direction_to_dest ;;
        current_coords' <- move_forward f current_coords ;;
        reach_destination_square f direction' current_coords'
    end
  else ret (direction, current_coords).

(** *** Sweeper *)

(** [pick_message()] *)
Definition pick_message (fuel : nat) : M session str :=
  send_message SERVER_PICK_UP ;;
  get_message fuel CLIENT_MESSAGE_MAX_LENGTH.

(** [logout()] *)
Definition logout : M session unit := send_message SERVER_LOGOUT.

(** The inner loop [for i in range(-2, 3)] of [search_square], over the
    values of [i] still to come. *)
Fixpoint search_row (fuel : nat) (cols : list Z) (coords0 : coords)
  : M session (loop_ctl coords) :=
  match cols with
  | [] => ret (Continue coords0)
  | i :: rest =>
      msg <- pick_message fuel ;;
      if negb (str_eqb msg []) then logout ;; ret Return
      else
        coords1 <- (if i <? 2 then move_forward fuel coords0
                    else ret coords0) ;;
        search_row fuel rest coords1
  end.

(** The outer loop [for _ in range(-2, 3)] of [search_square]. *)
Fixpoint search_rows (fuel : nat) (rows : list Z) (coords0 : coords)
         (direct : Z) : M session unit :=
  match rows with
  | [] => ret tt
  | _ :: rest =>
      r <- search_row fuel (range (-2) 3) coords0 ;;
      match r with
      | Return => ret tt
      | Continue coords1 =>
          if direct =? 0 then
            turn_right fuel ;;
            coords2 <- move_forward fuel coords1 ;;
            turn_right fuel ;;
            search_rows fuel rest coords2 1
          else
            turn_left fuel ;;
            coords2 <- move_forward fuel coords1 ;;
            turn_left fuel ;;
            search_rows fuel rest coords2 0
      end
  end.

(** [search_square(start_direction)] *)
Definition search_square (fuel : nat) (start_direction : Z)
  : M session unit :=
  turn_to_direction fuel start_direction RIGHT ;;
  search_rows fuel (range (-2) 3) DESTINATION_SQUARE 0.

(** [find_and_search_square()] *)
Definition find_and_search_square (fuel : nat) : M session unit :=
  send_message SERVER_TURN_LEFT ;;
  msg <- get_message fuel CLIENT_OK_MAX_LENGTH ;;
  start_coords <- lift (parse_client_ok msg) ;;
  current_coords <- move_forward fuel start_coords ;;
  let direction := get_direction_to_dest start_coords current_coords in
  reached <- reach_destination_square fuel direction current_coords ;;
  search_square fuel (fst reached).

(** *** Session driver *)

(** [run()]: the three faults are answered, a time-out is silent, any
    other exception leaves the thread; [finally] closes the connection. *)
Definition run (fuel : nat) : M session unit := fun st =>
  match (authenticate fuel ;; find_and_search_square fuel) st with
  | (Ok _, st1) => close st1
  | (Raise ServerLoginFailed, st1) =>
      (send_message SERVER_LOGIN_FAILED ;; close) st1
  | (Raise ServerSyntaxError, st1) =>
      (send_message SERVER_SYNTAX_ERROR ;; close) st1
  | (Raise ServerLogicError, st1) =>
      (send_message SERVER_LOGIC_ERROR ;; close) st1
  | (Raise SocketTimeout, st1) => close st1
  | (Raise e, st1) => (close ;; raise e) st1
  | (OutOfFuel, st1) => (OutOfFuel, st1)
  end.

End Session.

Arguments mkSession {Client} _ _ _ _ _ _ _.
Arguments set_buffer {Client} b st.
Arguments set_pending {Client} p st.
Arguments recv {Client} bufsize _.
Arguments settimeout {Client} t _.
Arguments close {Client} _.
Arguments log_move {Client} a b _.
Arguments parse_buffer {Client} _.
Arguments get_message_wait {Client} fuel max_length _.
Arguments get_message {Client} fuel max_length _.
Arguments recharging_with {Client} get_message _.
Arguments recharging {Client} fuel _.

(** *** The reader and a peer that hung up *)

(** [recv] above is the read on a connection that the peer keeps open:
    when nothing is on its way the read ends in the time-out. When the peer
    has closed the connection ([hung_up]), [self.connection.recv(bufsize)]
    returns what was still on its way and then [b''], at once and for
    ever. *)
Definition recv_from {Client : Type} (hung_up : bool) (bufsize : nat)
  : M (session Client) str := fun st =>
  match pending st with
  | [] => if hung_up then (Ok [], st) else (Raise SocketTimeout, st)
  | seg :: rest =>
      (Ok (firstn bufsize seg),
       set_pending (match skipn bufsize seg with
                    | [] => rest
                    | more => more :: rest
                    end) st)
  end.

(** The [while] loop of [get_message], reading with [recv_from]. *)
Fixpoint get_message_wait_from {Client : Type} (hung_up : bool) (fuel : nat)
         (max_length : Z) : M (session Client) unit :=
  fun st =>
    if contains TERM (buffer st) then (Ok tt, st)
    else
      let remainder := max_length - len (buffer st) in
      if (contains [BEL] (buffer st) && (remainder <=? 0))
         || (negb (contains [BEL] (buffer st)) && (remainder <=? 0))
      then (Raise ServerSyntaxError, st)
      else
        match fuel with
        | O => (OutOfFuel, st)
        | S f =>
            (raw_data <- recv_from hung_up 128 ;;
             if len raw_data >? 0 then
               decoded <- lift (decode raw_data) ;;
               (fun s => (Ok tt, set_buffer (buffer s ++ decoded) s)) ;;
               get_message_wait_from hung_up f max_length
             else get_message_wait_from hung_up f max_length) st
        end.

(** [get_message(max_length)], reading with [recv_from]. *)
Fixpoint get_message_from {Client : Type} (hung_up : bool) (fuel : nat)
         (max_length : Z) : M (session Client) str :=
  match fuel with
  | O => out_of_fuel
  | S f =>
      get_message_wait_from hung_up f max_length ;;
      msg <- parse_buffer ;;
      if str_eqb msg CLIENT_RECHARGING then
        recharging_with (get_message_from hung_up f) ;;
        get_message_from hung_up f max_length
      else if len msg >? max_length - 2 then raise ServerSyntaxError
      else ret msg
  end.

(** ** Peers *)

(** A peer that only sends what it was going to send anyway: the whole
    conversation is the list of segments put in [pending]. *)
Definition scripted : unit -> str -> unit * list str :=
  fun _ _ => (tt, []).

(** A fresh session on a connection where [segments] arrive in turn. *)
Definition connect (segments : list str) : session unit :=
  mkSession [] segments [] TIMEOUT false tt [].

(** The four orientations of the specification and the integers the source
    uses for them. *)
Inductive orientation : Type := North | East | South | West.

Definition code (o : orientation) : Z :=
  match o with
  | North => UP
  | South => DOWN
  | West => LEFT
  | East => RIGHT
  end.

Definition left_of (o : orientation) : orientation :=
  match o with
  | North => West
  | West => South
  | South => East
  | East => North
  end.

Definition right_of (o : orientation) : orientation :=
  match o with
  | North => East
  | East => South
  | South => West
  | West => North
  end.

Definition opposite (o : orientation) : orientation :=
  match o with
  | North => South
  | South => North
  | East => West
  | West => East
  end.

Definition orientation_eqb (a b : orientation) : bool :=
  match a, b with
  | North, North | East, East | South, South | West, West => true
  | _, _ => false
  end.

(** The cell in front of a robot ([+x] is East, [+y] is North). *)
Definition ahead (o : orientation) (c : coords) : coords :=
  match o with
  | North => (fst c, snd c + 1)
  | South => (fst c, snd c - 1)
  | East => (fst c + 1, snd c)
  | West => (fst c - 1, snd c)
  end.

(** An obedient robot on a grid without obstacles: it executes each
    command and answers it in one segment. [secret] is what a pick-up finds
    on each cell. *)
Record robot : Type := mkRobot {
  position : coords;
  heading : orientation;
  secret : coords -> str
}.

(** The position report [OK <x> <y>], and the report on the wire. *)
Definition report_text (c : coords) : str :=
  lit "OK " ++ py_str (fst c) ++ lit " " ++ py_str (snd c).

Definition report (c : coords) : str := report_text c ++ TERM.

Definition obey (r : robot) (data : str) : robot * list str :=
  if str_eqb data (SERVER_MOVE ++ TERM) then
    let p := ahead (heading r) (position r) in
    (mkRobot p (heading r) (secret r), [report p])
  else if str_eqb data (SERVER_TURN_LEFT ++ TERM) then
    (mkRobot (position r) (left_of (heading r)) (secret r),
     [report (position r)])
  else if str_eqb data (SERVER_TURN_RIGHT ++ TERM) then
    (mkRobot (position r) (right_of (heading r)) (secret r),
     [report (position r)])
  else if str_eqb data (SERVER_PICK_UP ++ TERM) then
    (r, [secret r (position r) ++ TERM])
  else (r, []).

(** A session with an obedient robot, the handshake behind it. *)
Definition embark (r : robot) : session robot :=
  mkSession [] [] [] TIMEOUT false r [].

(** The cells a session has been on: where it started and where
    [move_forward] reported to have arrived. *)
Definition cells_visited {Client : Type} (start : coords)
           (st : session Client) : list coords :=
  start :: map snd (move_log st).

(** ** The specification's side *)

(** The hash as the specification writes it: the sum of [ord(c) * 1000]
    over the username, modulo [2^16]. *)
Definition spec_hash (username : str) : Z :=
  fold_right (fun c acc => ord c * 1000 + acc) 0 username mod 65536.

(** The turn table of the specification: nothing when the target is the
    current orientation, two left turns when it is opposite, one left turn
    when it is 90 degrees to the left, one right turn when it is 90 degrees
    to the right. *)
Definition spec_turns (current target : orientation) : list str :=
  if orientation_eqb target current then []
  else if orientation_eqb target (opposite current)
       then [SERVER_TURN_LEFT; SERVER_TURN_LEFT]
  else if orientation_eqb target (left_of current) then [SERVER_TURN_LEFT]
  else [SERVER_TURN_RIGHT].

(** Routing as the specification words it, towards the centre [(0, 0)]:
    East or West while [x] is not [0], then North or South while [y] is not
    [0]; [None] when the position is [(0, 0)]. *)
Definition spec_route_to_centre (c : coords) : option orientation :=
  if fst c <? 0 then Some East
  else if fst c >? 0 then Some West
  else if snd c <? 0 then Some North
  else if snd c >? 0 then Some South
  else None.

(** The same rule towards the entry corner [(-2, 2)] of the sweep. *)
Definition route_to_entry (c : coords) : option orientation :=
  if fst c <? -2 then Some East
  else if fst c >? -2 then Some West
  else if snd c <? 2 then Some North
  else if snd c >? 2 then Some South
  else None.

(** What the sends of a command list look like on the wire. *)
Definition on_wire (commands : list str) : list str :=
  map (fun m => m ++ TERM) commands.

(** The 25 cells of the destination region in the order of the serpentine
    sweep. *)
Definition region_serpentine : list coords :=
  [(-2, 2); (-1, 2); (0, 2); (1, 2); (2, 2);
   (2, 1); (1, 1); (0, 1); (-1, 1); (-2, 1);
   (-2, 0); (-1, 0); (0, 0); (1, 0); (2, 0);
   (2, -1); (1, -1); (0, -1); (-1, -1); (-2, -1);
   (-2, -2); (-1, -2); (0, -2); (1, -2); (2, -2)].

Definition in_region (c : coords) : bool :=
  (-2 <=? fst c) && (fst c <=? 2) && (-2 <=? snd c) && (snd c <=? 2).

(** ** Vocabulary of the statements *)

(** What [get_message] leaves alone: everything but the buffer, the
    segments still to read and the time-out. *)
Definition same_wire {Client : Type} (st st' : session Client) : Prop :=
  sent st' = sent st /\ closed st' = closed st /\
  client st' = client st /\ move_log st' = move_log st.

(** Decimal digits and the number they write after [acc]. *)
Definition is_digit (c : ascii) : bool :=
  match digit_value c with
  | Some _ => true
  | None => false
  end.

Definition digit_of (c : ascii) : Z :=
  match digit_value c with
  | Some d => d
  | None => 0
  end.

Definition digits_value (s : str) (acc : Z) : Z :=
  fold_left (fun a c => 10 * a + digit_of c) s acc.

(** The characters of [str(n)]: the digits and the minus sign. *)
Definition plain (c : ascii) : bool :=
  is_digit c || Ascii.eqb c "-".

(** Positions whose report fits the cap of a position report (ten
    characters before the terminator). *)
Definition reportable (c : coords) : Prop :=
  -99 <= fst c <= 999 /\ -99 <= snd c <= 999.

(** A session between two exchanges: nothing buffered, nothing on its way. *)
Definition calm (st : session robot) : Prop :=
  buffer st = [] /\ pending st = [].

(** The session once [commands] were sent and answered, the robot being
    [r] by then and [log] the moves reported. *)
Definition after_commands (st : session robot) (commands : list str)
           (r : robot) (log : list (coords * coords)) : session robot :=
  mkSession [] [] (sent st ++ on_wire commands) (sock_timeout st)
            (closed st) r log.

(** The cells of the way to the entry corner, at most [n] of them, by the
    rule [route_to_entry]. *)
Fixpoint route (n : nat) (c : coords) : list coords :=
  match n with
  | O => []
  | S n' =>
      match route_to_entry c with
      | None => []
      | Some o => ahead o c :: route n' (ahead o c)
      end
  end.

(** The moves along a path that starts on [c]. *)
Fixpoint legs (c : coords) (path : list coords) : list (coords * coords) :=
  match path with
  | [] => []
  | p :: rest => (c, p) :: legs p rest
  end.

(** The number of moves to the entry corner. *)
Definition distance (c : coords) : nat :=
  Z.to_nat (Z.abs (fst c + 2) + Z.abs (snd c - 2)).

(** A move of the routing, [x] axis first: off the column [x = -2] it
    keeps [y] and comes one cell closer in [x]; on the column it stays
    there and comes one cell closer in [y]. *)
Definition x_first (leg : coords * coords) : Prop :=
  let (a, b) := leg in
  if fst a =? -2
  then fst b = -2 /\ Z.abs (snd b - 2) = Z.abs (snd a - 2) - 1
  else snd b = snd a /\ Z.abs (fst b + 2) = Z.abs (fst a + 2) - 1.

(** A bound on the reads that the segments in [pending] still allow. *)
Definition reads_left (p : list str) : nat :=
  (length (concat p) + length p)%nat.

(** What a session still has to read: the bytes buffered, the bytes on
    their way and the segments they come in. *)
Definition backlog {Client : Type} (st : session Client) : nat :=
  (length (buffer st) + reads_left (pending st))%nat.

(** The faults of reading: what [get_message] can raise. *)
Definition reader_fault (e : exn) : Prop :=
  e = ServerSyntaxError \/ e = ServerLogicError \/ e = SocketTimeout
  \/ e = UnicodeDecodeError.

(** The commands of the navigation and of the sweep. *)
Definition robot_commands : list str :=
  [SERVER_MOVE; SERVER_TURN_LEFT; SERVER_TURN_RIGHT; SERVER_PICK_UP;
   SERVER_LOGOUT].

Definition robot_command (message : str) : Prop :=
  In message robot_commands.

(** A method that, from any state and however it ends, has sent messages of
    [P] only, and raises exceptions of [E] only. *)
Definition behaves {Client A : Type} (P : str -> Prop) (E : exn -> Prop)
           (m : M (session Client) A) : Prop :=
  forall (s : session Client) (r : result A) (s' : session Client),
    m s = (r, s') ->
    (exists out : list str, sent s' = sent s ++ on_wire out /\ Forall P out)
    /\ (forall e : exn, r = Raise e -> E e).

(** A message that a pick-up can bring back: ASCII, no terminator in it,
    not the token of a recharge, and within the cap of 100 with its
    terminator. *)
Definition readable (m : str) : Prop :=
  forallb is_ascii m = true /\ contains TERM m = false
  /\ m <> CLIENT_RECHARGING /\ len m <= 98.

(** A world with one message, on the cell [c]. *)
Definition hidden_at (c : coords) (m : str) : coords -> str :=
  fun x => if coords_eqb x c then m else [].

(** What one row of the sweep asks of an obedient robot on [c] that looks
    towards [o]: the commands, the cells it is moved to, and whether a
    message was found. *)
Fixpoint row_plan (sec : coords -> str) (o : orientation) (cols : list Z)
         (c : coords) : list str * list coords * bool :=
  match cols with
  | [] => ([], [], false)
  | i :: rest =>
      if negb (str_eqb (sec c) []) then
        ([SERVER_PICK_UP; SERVER_LOGOUT], [], true)
      else if i <? 2 then
        let '(commands, cells, found) := row_plan sec o rest (ahead o c) in
        (SERVER_PICK_UP :: SERVER_MOVE :: commands, ahead o c :: cells, found)
      else
        let '(commands, cells, found) := row_plan sec o rest c in
        (SERVER_PICK_UP :: commands, cells, found)
  end.

(** The same for the rows of the sweep. *)
Fixpoint rows_plan (sec : coords -> str) (rows : list Z) (c : coords)
         (direct : Z) (o : orientation) : list str * list coords * bool :=
  match rows with
  | [] => ([], [], false)
  | _ :: rest =>
      let '(commands, cells, found) := row_plan sec o (range (-2) 3) c in
      if found then (commands, cells, true)
      else
        let c1 := last cells c in
        if direct =? 0 then
          let c2 := ahead (right_of o) c1 in
          let '(commands', cells', found') :=
            rows_plan sec rest c2 1 (right_of (right_of o)) in
          (commands ++ [SERVER_TURN_RIGHT; SERVER_MOVE; SERVER_TURN_RIGHT]
             ++ commands',
           cells ++ c2 :: cells', found')
        else
          let c2 := ahead (left_of o) c1 in
          let '(commands', cells', found') :=
            rows_plan sec rest c2 0 (left_of (left_of o)) in
          (commands ++ [SERVER_TURN_LEFT; SERVER_MOVE; SERVER_TURN_LEFT]
             ++ commands',
           cells ++ c2 :: cells', found')
  end.

(** A method that leaves the log of moves as it was. *)
Definition keeps_log {Client A : Type} (m : M (session Client) A) : Prop :=
  forall (s : session Client) (r : result A) (s' : session Client),
    m s = (r, s') -> move_log s' = move_log s.

(** The commands that drive the robot. *)
Definition drive_command (message : str) : Prop :=
  message = SERVER_MOVE \/ message = SERVER_TURN_LEFT
  \/ message = SERVER_TURN_RIGHT.

(** The number of messages [message] among the payloads sent. *)
Definition times_sent (message : str) (payloads : list str) : nat :=
  length (filter (str_eqb (message ++ TERM)) payloads).

(** A stretch of a sweep: commands that drive the robot and pick-ups, [n]
    pick-ups at most. *)
Definition sweeping (n : nat) (out : list str) : Prop :=
  Forall (fun message => drive_command message \/ message = SERVER_PICK_UP)
         out
  /\ (times_sent SERVER_PICK_UP (on_wire out) <= n)%nat.

(** What a part of the sweep has sent when it ends with the outcome [r],
    from [s] to [s']: a stretch of at most [n] pick-ups and then, only if
    the outcome is [done], [106 LOGOUT]. *)
Definition swept {Client A : Type} (n : nat) (done : result A)
           (s : session Client) (r : result A) (s' : session Client) : Prop :=
  exists out : list str,
    sweeping n out
    /\ ((r = done /\ sent s' = sent s ++ on_wire (out ++ [SERVER_LOGOUT]))
        \/ sent s' = sent s ++ on_wire out).

(** The messages of the handshake and the answers to a fault: no pick-up
    and no logout. *)
Definition not_of_the_sweep (message : str) : Prop :=
  message <> SERVER_PICK_UP /\ message <> SERVER_LOGOUT.

(** * Properties *)

(** ** The built-in functions on examples *)

Example int_examples :
  map (fun s => py_int (lit s))
      ["12"; " 12"; "1_2"; "_12"; "12_"; "1__2"; "+5"; "-5"; "- 5"; ""; "+";
       "007"; "-0"; "0x10"; "12a4"]%string
  = [Some 12; Some 12; Some 12; None; None; None; Some 5; Some (-5); None;
     None; None; Some 7; Some 0; None; None].
Proof. reflexivity. Qed.

Example str_examples :
  map py_str [0; -5; 65535; 10; -120] =
  map lit ["0"; "-5"; "65535"; "10"; "-120"]%string.
Proof. reflexivity. Qed.

Example split_examples :
  map (fun s => split 2 (lit s)) ["OK 1 2"; " OK  1 2 "; "OK 1 2 3"; "OK 1"; "  "]%string
  = [map lit ["OK"; "1"; "2"]%string; map lit ["OK"; "1"; "2 "]%string;
     map lit ["OK"; "1"; "2 3"]%string; map lit ["OK"; "1"]%string; []].
Proof. reflexivity. Qed.

Example partition_examples :
  partition TERM (lit "ab" ++ TERM ++ lit "cd" ++ TERM)
  = (lit "ab", TERM, lit "cd" ++ TERM)
  /\ partition TERM (lit "abc") = (lit "abc", [], [])
  /\ partition TERM (BEL :: TERM) = ([BEL], TERM, []).
Proof. repeat split. Qed.

(** ** Sequencing *)

Lemma bind_ok (S A B : Type) (m : M S A) (k : A -> M S B) (s s1 : S) (a : A) :
  m s = (Ok a, s1) -> bind m k s = k a s1.
Proof. unfold bind. intros ->. reflexivity. Qed.

Lemma bind_raise (S A B : Type) (m : M S A) (k : A -> M S B) (s s1 : S)
      (e : exn) :
  m s = (Raise e, s1) -> bind m k s = (Raise e, s1).
Proof. unfold bind. intros ->. reflexivity. Qed.

Lemma bind_lift_ok (S A B : Type) (r : result A) (k : A -> M S B) (s : S)
      (a : A) :
  r = Ok a -> bind (lift r) k s = k a s.
Proof. intros ->. reflexivity. Qed.

(** ** Strings *)

Lemma str_eqb_eq (a b : str) : str_eqb a b = true <-> a = b.
Proof.
  revert b; induction a as [|x a IH]; intros [|y b]; simpl;
    try (split; [discriminate | discriminate]); try tauto.
  rewrite andb_true_iff, Ascii.eqb_eq, IH.
  split; [intros [-> ->]; reflexivity | intros H; inversion H; auto].
Qed.

Lemma str_eqb_refl (a : str) : str_eqb a a = true.
Proof. apply str_eqb_eq; reflexivity. Qed.

Lemma str_eqb_neq (a b : str) : str_eqb a b = false <-> a <> b.
Proof.
  rewrite <- str_eqb_eq. destruct (str_eqb a b); split; congruence.
Qed.

Lemma contains_cons (sub : str) (c : ascii) (s : str) :
  contains sub (c :: s) = startswith sub (c :: s) || contains sub s.
Proof. reflexivity. Qed.

(** Without the first byte of the terminator there is no terminator. *)
Lemma no_BEL_no_TERM (s : str) :
  contains [BEL] s = false -> contains TERM s = false.
Proof.
  induction s as [|c s IH]; [reflexivity|].
  rewrite !contains_cons, !orb_false_iff. intros [H1 H2].
  split; [|auto].
  unfold TERM. cbn [startswith] in *.
  destruct (Ascii.eqb BEL c); [discriminate | reflexivity].
Qed.

Lemma contains_TERM_mid (u rest : str) :
  contains TERM (u ++ TERM ++ rest) = true.
Proof.
  induction u as [|c u IH].
  - reflexivity.
  - rewrite <- app_comm_cons, contains_cons, IH. apply orb_true_r.
Qed.

Lemma startswith_TERM (s : str) :
  startswith TERM s = true <-> exists t, s = BEL :: BS :: t.
Proof.
  unfold TERM. split.
  - destruct s as [|a [|b t]]; cbn [startswith];
      rewrite ?andb_false_r; try discriminate.
    rewrite andb_true_r, andb_true_iff, !Ascii.eqb_eq.
    intros [<- <-]. eauto.
  - intros [t ->]. reflexivity.
Qed.

(** The message before the first terminator and what follows it. *)
Lemma partition_TERM (u rest : str) :
  contains TERM u = false ->
  partition TERM (u ++ TERM ++ rest) = (u, TERM, rest).
Proof.
  induction u as [|c u IH]; [reflexivity|].
  rewrite contains_cons, orb_false_iff. intros [H1 H2].
  rewrite <- app_comm_cons. cbn [partition].
  replace (startswith TERM (c :: u ++ TERM ++ rest)) with false.
  - rewrite (IH H2). reflexivity.
  - symmetry. destruct (startswith TERM (c :: u ++ TERM ++ rest)) eqn:E;
      [|reflexivity].
    apply startswith_TERM in E. destruct E as [t E].
    destruct u as [|d u].
    + discriminate E.
    + injection E as -> -> _. discriminate H1.
Qed.

(** ** Decimal numerals: [int(str(n)) == n] *)

Lemma digit_value_char (d : Z) :
  0 <= d <= 9 -> digit_value (digit_char d) = Some d.
Proof.
  intros H.
  assert (C : d = 0 \/ d = 1 \/ d = 2 \/ d = 3 \/ d = 4 \/ d = 5 \/ d = 6
              \/ d = 7 \/ d = 8 \/ d = 9) by lia.
  repeat (destruct C as [-> | C]; [reflexivity|]). subst d. reflexivity.
Qed.

Lemma is_digit_char (d : Z) : 0 <= d <= 9 -> is_digit (digit_char d) = true.
Proof.
  intros H. unfold is_digit. rewrite digit_value_char by assumption.
  reflexivity.
Qed.

(** A digit is plain: no white space, no sign, no control character. *)
Lemma is_digit_plain (c : ascii) : is_digit c = true -> plain c = true.
Proof.
  destruct c as [[] [] [] [] [] [] [] []]; intros H; try reflexivity;
    discriminate H.
Qed.

Lemma plain_props (c : ascii) :
  plain c = true ->
  isspace c = false /\ c_isspace c = false /\ is_ascii c = true
  /\ Ascii.eqb BEL c = false /\ Ascii.eqb " " c = false.
Proof.
  destruct c as [[] [] [] [] [] [] [] []]; intros H;
    try discriminate H; repeat split.
Qed.

(** On digits alone [int()] folds them. *)
Lemma int_digits_value (s : str) :
  forallb is_digit s = true ->
  forall acc, int_digits s acc = Some (digits_value s acc).
Proof.
  induction s as [|c s IH]; intros H acc; [reflexivity|].
  cbn [forallb] in H. apply andb_true_iff in H. destruct H as [Hc Hs].
  cbn [int_digits digits_value fold_left].
  unfold is_digit in Hc. unfold digit_of.
  destruct (digit_value c) as [d|]; [|discriminate Hc].
  apply IH. assumption.
Qed.

Lemma str_digits_are_digits (fuel : nat) :
  forall (n : Z) (acc : str),
    0 <= n ->
    forallb is_digit acc = true ->
    forallb is_digit (str_digits fuel n acc) = true.
Proof.
  induction fuel as [|f IH]; intros n acc Hn Hacc; [exact Hacc|].
  cbn [str_digits]. destruct (n <? 10) eqn:L.
  - apply Z.ltb_lt in L. cbn [forallb].
    rewrite is_digit_char by lia. exact Hacc.
  - apply Z.ltb_ge in L. apply IH.
    + apply Z.div_pos; lia.
    + cbn [forallb]. rewrite is_digit_char; [exact Hacc|].
      pose proof (Z.mod_pos_bound n 10). lia.
Qed.

(** The digits written are those of [n]. *)
Lemma str_digits_value (fuel : nat) :
  forall (n : Z) (acc : str),
    0 <= n < 2 ^ Z.of_nat fuel ->
    digits_value (str_digits fuel n acc) 0 = digits_value acc n.
Proof.
  induction fuel as [|f IH]; intros n acc Hn.
  - change (2 ^ Z.of_nat 0) with 1 in Hn. replace n with 0 by lia.
    reflexivity.
  - cbn [str_digits]. destruct (n <? 10) eqn:L.
    + apply Z.ltb_lt in L. unfold digits_value. cbn [fold_left].
      unfold digit_of. rewrite digit_value_char by lia.
      f_equal.
    + apply Z.ltb_ge in L. rewrite IH.
      * unfold digits_value. cbn [fold_left]. unfold digit_of.
        rewrite digit_value_char by (pose proof (Z.mod_pos_bound n 10); lia).
        f_equal. pose proof (Z.div_mod n 10). lia.
      * rewrite Nat2Z.inj_succ, Z.pow_succ_r in Hn by lia.
        split; [apply Z.div_pos; lia|].
        apply Z.div_lt_upper_bound; lia.
Qed.

Lemma str_digits_nonempty (fuel : nat) :
  forall (n : Z) (acc : str),
    acc <> [] -> str_digits fuel n acc <> [].
Proof.
  induction fuel as [|f IH]; intros n acc H; [exact H|].
  cbn [str_digits]. destruct (n <? 10); [discriminate|].
  apply IH. discriminate.
Qed.

(** A number below [10^k] has at most [k] digits. *)
Lemma str_digits_length (fuel : nat) :
  forall (k : nat) (n : Z) (acc : str),
    n < 10 ^ Z.of_nat (S k) ->
    (length (str_digits fuel n acc) <= S k + length acc)%nat.
Proof.
  induction fuel as [|f IH]; intros k n acc H; [simpl; lia|].
  cbn [str_digits]. destruct (n <? 10) eqn:L; [simpl; lia|].
  apply Z.ltb_ge in L.
  destruct k as [|k]; [change (10 ^ Z.of_nat 1) with 10 in H; lia|].
  etransitivity; [apply (IH k)|simpl; lia].
  rewrite Nat2Z.inj_succ, Z.pow_succ_r in H by lia.
  apply Z.div_lt_upper_bound; lia.
Qed.

Lemma str_nonneg_spec (n : Z) :
  0 <= n ->
  forallb is_digit (str_nonneg n) = true
  /\ str_nonneg n <> []
  /\ digits_value (str_nonneg n) 0 = n.
Proof.
  intros H. unfold str_nonneg. split; [|split].
  - apply str_digits_are_digits; [assumption | reflexivity].
  - cbn [str_digits]. destruct (n <? 10); [discriminate|].
    apply str_digits_nonempty. discriminate.
  - rewrite str_digits_value; [reflexivity|].
    split; [assumption|].
    rewrite Nat2Z.inj_succ.
    destruct (Z.eq_dec n 0) as [-> | N]; [reflexivity|].
    rewrite Z2Nat.id by (apply Z.log2_nonneg).
    apply Z.log2_spec. lia.
Qed.

Lemma int_unsigned_str_nonneg (n : Z) :
  0 <= n -> int_unsigned (str_nonneg n) = Some n.
Proof.
  intros H. destruct (str_nonneg_spec H) as (D & N & V).
  destruct (str_nonneg n) as [|c t]; [congruence|].
  cbn [forallb] in D. apply andb_true_iff in D. destruct D as [Dc Dt].
  unfold int_unsigned. unfold is_digit in Dc.
  destruct (digit_value c) as [d|] eqn:E; [|discriminate Dc].
  rewrite int_digits_value by assumption. f_equal.
  rewrite <- V. unfold digits_value. cbn [fold_left]. f_equal.
  unfold digit_of. rewrite E. lia.
Qed.

Lemma dropwhile_none (p : ascii -> bool) (s : str) :
  forallb (fun c => negb (p c)) s = true -> dropwhile p s = s.
Proof.
  destruct s as [|c t]; [reflexivity|]. cbn [forallb dropwhile].
  rewrite andb_true_iff, negb_true_iff. intros [-> _]. reflexivity.
Qed.

Lemma c_strip_plain (s : str) : forallb plain s = true -> c_strip s = s.
Proof.
  intros H.
  assert (P : forall t, forallb plain t = true ->
                        forallb (fun c => negb (c_isspace c)) t = true).
  { induction t as [|c t IH]; [reflexivity|]. cbn [forallb].
    rewrite !andb_true_iff. intros [Hc Ht]. split; [|auto].
    destruct (plain_props _ Hc) as (_ & -> & _). reflexivity. }
  unfold c_strip. rewrite (dropwhile_none _ _ (P _ H)).
  rewrite dropwhile_none, rev_involutive; [reflexivity|].
  apply P. rewrite forallb_forall in *. intros x Hx. apply H.
  apply in_rev. exact Hx.
Qed.

Lemma forallb_impl (p q : ascii -> bool) (s : str) :
  (forall c, p c = true -> q c = true) ->
  forallb p s = true -> forallb q s = true.
Proof.
  intros I. rewrite !forallb_forall. auto.
Qed.

(** What [str(n)] is made of. *)
Lemma py_str_plain (n : Z) : forallb plain (py_str n) = true.
Proof.
  unfold py_str. destruct (n <? 0) eqn:L.
  - apply Z.ltb_lt in L. cbn [forallb].
    destruct (@str_nonneg_spec (- n)) as (D & _); [lia|].
    rewrite (forallb_impl _ _ _ is_digit_plain D). reflexivity.
  - apply Z.ltb_ge in L. destruct (str_nonneg_spec L) as (D & _).
    exact (forallb_impl _ _ _ is_digit_plain D).
Qed.

(** [int(str(n)) == n] *)
Lemma py_int_py_str (n : Z) : py_int (py_str n) = Some n.
Proof.
  unfold py_int. rewrite c_strip_plain by apply py_str_plain.
  unfold py_str. destruct (n <? 0) eqn:L.
  - apply Z.ltb_lt in L. rewrite Ascii.eqb_refl.
    rewrite int_unsigned_str_nonneg by lia. cbn [option_map].
    f_equal. lia.
  - apply Z.ltb_ge in L.
    destruct (str_nonneg_spec L) as (D & N & _).
    pose proof (int_unsigned_str_nonneg L) as I.
    destruct (str_nonneg n) as [|c t]; [congruence|].
    cbn [forallb] in D. apply andb_true_iff in D. destruct D as [Dc _].
    replace (Ascii.eqb c "-") with false;
      [replace (Ascii.eqb c "+") with false; [exact I|]|];
      clear -Dc; destruct c as [[] [] [] [] [] [] [] []];
      try reflexivity; discriminate Dc.
Qed.

Lemma contains_char_none (x : ascii) (s : str) :
  forallb (fun c => negb (Ascii.eqb x c)) s = true -> contains [x] s = false.
Proof.
  induction s as [|c s IH]; [reflexivity|].
  cbn [forallb]. rewrite andb_true_iff, negb_true_iff. intros [Hc Hs].
  rewrite contains_cons, (IH Hs). cbn [startswith]. rewrite Hc. reflexivity.
Qed.

Lemma plain_no_space (s : str) :
  forallb plain s = true -> contains (lit " ") s = false.
Proof.
  intros H. apply contains_char_none. revert H. apply forallb_impl.
  intros c Hc. destruct (plain_props _ Hc) as (_ & _ & _ & _ & ->).
  reflexivity.
Qed.

Lemma plain_no_BEL (s : str) :
  forallb plain s = true -> contains [BEL] s = false.
Proof.
  intros H. apply contains_char_none. revert H. apply forallb_impl.
  intros c Hc. destruct (plain_props _ Hc) as (_ & _ & _ & -> & _).
  reflexivity.
Qed.

(** [parse_number(str(n)) == n] *)
Lemma parse_number_py_str (n : Z) : parse_number (py_str n) = Ok n.
Proof.
  unfold parse_number.
  rewrite (plain_no_space _ (py_str_plain n)), py_int_py_str. reflexivity.
Qed.

(** A number between [-99] and [999] is written with at most three
    characters, a number below [65536] with at most five. *)
Lemma py_str_length_3 (n : Z) :
  -99 <= n <= 999 -> (length (py_str n) <= 3)%nat.
Proof.
  intros H. unfold py_str, str_nonneg. destruct (n <? 0) eqn:L.
  - apply Z.ltb_lt in L. cbn [length].
    pose proof (@str_digits_length (S (Z.to_nat (Z.log2 (- n)))) 1 (- n) []).
    cbn [length] in *. change (10 ^ Z.of_nat 2) with 100 in *. lia.
  - apply Z.ltb_ge in L.
    pose proof (@str_digits_length (S (Z.to_nat (Z.log2 n))) 2 n []).
    cbn [length] in *. change (10 ^ Z.of_nat 3) with 1000 in *. lia.
Qed.

Lemma py_str_length_5 (n : Z) :
  0 <= n < 65536 -> (length (py_str n) <= 5)%nat.
Proof.
  intros H. unfold py_str, str_nonneg.
  replace (n <? 0) with false by (symmetry; apply Z.ltb_ge; lia).
  pose proof (@str_digits_length (S (Z.to_nat (Z.log2 n))) 4 n []).
  cbn [length] in *. change (10 ^ Z.of_nat 5) with 100000 in *. lia.
Qed.

(** ** Message codec *)

Lemma dropwhile_all (p : ascii -> bool) (a b : str) :
  forallb p a = true -> dropwhile p (a ++ b) = dropwhile p b.
Proof.
  induction a as [|c a IH]; simpl; [reflexivity|].
  rewrite andb_true_iff. intros [-> H]. auto.
Qed.

Lemma takewhile_all (p : ascii -> bool) (a b : str) :
  forallb p a = true -> takewhile p (a ++ b) = a ++ takewhile p b.
Proof.
  induction a as [|c a IH]; simpl; [reflexivity|].
  rewrite andb_true_iff. intros [-> H]. rewrite IH by assumption. reflexivity.
Qed.

Lemma split_eq (n : nat) (s : str) :
  split n s =
  match dropwhile isspace s with
  | [] => []
  | c :: t =>
      match n with
      | O => [c :: t]
      | S n' =>
          takewhile (fun x => negb (isspace x)) (c :: t)
            :: split n' (dropwhile (fun x => negb (isspace x)) (c :: t))
      end
  end.
Proof. destruct n; reflexivity. Qed.

(** Leading white space does not count. *)
Lemma split_lstrip (n : nat) (ws rest : str) :
  forallb isspace ws = true -> split n (ws ++ rest) = split n rest.
Proof.
  intros H. rewrite (split_eq n (ws ++ rest)), (split_eq n rest).
  rewrite dropwhile_all by assumption. reflexivity.
Qed.

(** A piece followed by white space is cut off. *)
Lemma split_piece (n : nat) (tok ws rest : str) :
  tok <> [] ->
  forallb (fun x => negb (isspace x)) tok = true ->
  ws <> [] ->
  forallb isspace ws = true ->
  split (S n) (tok ++ ws ++ rest) = tok :: split n rest.
Proof.
  intros Htok Hns Hws Hsp.
  destruct tok as [|c t]; [congruence|].
  destruct ws as [|w ws']; [congruence|].
  simpl in Hns, Hsp.
  apply andb_true_iff in Hns. destruct Hns as [Hc Ht].
  apply andb_true_iff in Hsp. destruct Hsp as [Hw Hws'].
  apply negb_true_iff in Hc.
  rewrite split_eq. cbn [app dropwhile takewhile].
  rewrite Hc. cbn [negb].
  rewrite takewhile_all, dropwhile_all by assumption.
  cbn [app dropwhile takewhile]. rewrite Hw. cbn [negb].
  rewrite app_nil_r, Hc. cbn [negb].
  change (w :: ws' ++ rest) with ((w :: ws') ++ rest).
  rewrite split_lstrip; [reflexivity|].
  simpl. rewrite Hw, Hws'. reflexivity.
Qed.

(** After the last cut the remainder is one piece. *)
Lemma split_remainder (tok : str) :
  tok <> [] ->
  forallb (fun x => negb (isspace x)) tok = true ->
  split 0 tok = [tok].
Proof.
  intros Htok Hns. destruct tok as [|c t]; [congruence|].
  simpl in Hns. apply andb_true_iff in Hns. destruct Hns as [Hc _].
  cbn [split dropwhile]. destruct (isspace c); [discriminate | reflexivity].
Qed.

Lemma parse_number_total (s : str) :
  (exists n, parse_number s = Ok n) \/
  parse_number s = Raise ServerSyntaxError \/
  parse_number s = Raise ValueError.
Proof.
  unfold parse_number. destruct (contains (lit " ") s); [tauto|].
  destruct (py_int s); eauto.
Qed.

Lemma parse_number_nonempty (s : str) (n : Z) :
  parse_number s = Ok n -> s <> [].
Proof. intros H ->. discriminate H. Qed.

(** [OK] and two pieces that [parse_number] accepts, with any white space
    between them and in front. *)
Lemma parse_client_ok_pieces (ws0 ws1 ws2 num_1 num_2 : str) (x y : Z) :
  forallb isspace ws0 = true ->
  ws1 <> [] -> forallb isspace ws1 = true ->
  ws2 <> [] -> forallb isspace ws2 = true ->
  forallb (fun c => negb (isspace c)) num_1 = true ->
  forallb (fun c => negb (isspace c)) num_2 = true ->
  parse_number num_1 = Ok x ->
  parse_number num_2 = Ok y ->
  parse_client_ok (ws0 ++ CLIENT_OK ++ ws1 ++ num_1 ++ ws2 ++ num_2)
  = Ok (x, y).
Proof.
  intros H0 N1 H1 N2 H2 T1 T2 P1 P2.
  unfold parse_client_ok, parse_client_ok_try.
  rewrite split_lstrip by assumption.
  rewrite split_piece; [|discriminate|reflexivity|assumption|assumption].
  rewrite split_piece;
    [|eapply parse_number_nonempty; eassumption|assumption..].
  rewrite split_remainder;
    [|eapply parse_number_nonempty; eassumption|assumption].
  rewrite str_eqb_refl, P1, P2. reflexivity.
Qed.

(** ** Framing reader *)

Section Reader.

Variable Client : Type.
Implicit Types st : session Client.

Lemma same_wire_refl st : same_wire st st.
Proof. repeat split. Qed.

Lemma same_wire_trans st1 st2 st3 :
  same_wire st1 st2 -> same_wire st2 st3 -> same_wire st1 st3.
Proof.
  unfold same_wire. intros (a & b & c & d) (e & f & g & h).
  repeat split; congruence.
Qed.

Lemma get_message_S fuel max_length st :
  get_message (S fuel) max_length st =
  (get_message_wait fuel max_length ;;
   msg <- parse_buffer ;;
   if str_eqb msg CLIENT_RECHARGING then
     recharging_with (get_message fuel) ;;
     get_message fuel max_length
   else if len msg >? max_length - 2 then raise ServerSyntaxError
   else ret msg) st.
Proof. reflexivity. Qed.

Lemma get_message_wait_eq fuel max_length st :
  get_message_wait fuel max_length st =
  if contains TERM (buffer st) then (Ok tt, st)
  else if max_length - len (buffer st) <=? 0
       then (Raise ServerSyntaxError, st)
  else match fuel with
       | O => (OutOfFuel, st)
       | S f =>
           match recv 128 st with
           | (Ok raw_data, st1) =>
               if len raw_data >? 0 then
                 match decode raw_data with
                 | Ok decoded =>
                     get_message_wait f max_length
                       (set_buffer (buffer st1 ++ decoded) st1)
                 | Raise e => (Raise e, st1)
                 | OutOfFuel => (OutOfFuel, st1)
                 end
               else get_message_wait f max_length st1
           | (Raise e, st1) => (Raise e, st1)
           | (OutOfFuel, st1) => (OutOfFuel, st1)
           end
       end.
Proof.
  destruct fuel; simpl; destruct (contains TERM (buffer st)); try reflexivity;
    destruct (contains [BEL] (buffer st));
    destruct (max_length - len (buffer st) <=? 0); try reflexivity.
  all: unfold bind, lift; destruct (recv 128 st) as [[raw| |] st1];
    try reflexivity; destruct (len raw >? 0); try reflexivity;
    destruct (decode raw); reflexivity.
Qed.

Lemma recv_frame n st r st' : recv n st = (r, st') -> same_wire st st'.
Proof.
  unfold recv. destruct (pending st); intros H; inversion H; subst;
    repeat split.
Qed.

Lemma get_message_wait_frame fuel : forall max_length st r st',
  get_message_wait fuel max_length st = (r, st') -> same_wire st st'.
Proof.
  induction fuel as [|f IH]; intros max_length st r st';
    rewrite get_message_wait_eq;
    destruct (contains TERM (buffer st));
    try (intros H; inversion H; subst; apply same_wire_refl);
    destruct (max_length - len (buffer st) <=? 0);
    try (intros H; inversion H; subst; apply same_wire_refl).
  destruct (recv 128 st) as [[raw|e|] st1] eqn:R;
    try (intros H; inversion H; subst; eapply recv_frame; eassumption).
  apply recv_frame in R.
  destruct (len raw >? 0).
  - destruct (decode raw);
      try (intros H; inversion H; subst; assumption).
    intros H. apply IH in H.
    eapply same_wire_trans; [eassumption|].
    eapply same_wire_trans; [|eassumption]. repeat split.
  - intros H. apply IH in H. eapply same_wire_trans; eassumption.
Qed.

Lemma parse_buffer_frame st r st' :
  parse_buffer st = (r, st') -> same_wire st st'.
Proof.
  unfold parse_buffer. destruct (partition TERM (buffer st)) as [[a m] b].
  destruct m; intros H; inversion H; subst; repeat split.
Qed.

Lemma settimeout_frame t st r st' :
  settimeout t st = (r, st') -> same_wire st st'.
Proof. intros H; inversion H; subst; repeat split. Qed.

Lemma get_message_frame fuel : forall max_length st r st',
  get_message fuel max_length st = (r, st') -> same_wire st st'.
Proof.
  induction fuel as [|f IH]; intros max_length st r st'.
  - intros H; inversion H; subst; apply same_wire_refl.
  - rewrite get_message_S. unfold bind at 1.
    destruct (get_message_wait f max_length st) as [[[]|e|] s1] eqn:W;
      apply get_message_wait_frame in W;
      try (intros H; inversion H; subst; assumption).
    unfold bind at 1.
    destruct (parse_buffer s1) as [[msg|e|] s2] eqn:P;
      apply parse_buffer_frame in P;
      try (intros H; inversion H; subst; eapply same_wire_trans;
           eassumption).
    assert (W2 : same_wire st s2) by (eapply same_wire_trans; eassumption).
    destruct (str_eqb msg CLIENT_RECHARGING).
    + unfold bind at 1, recharging_with, bind at 1.
      destruct (settimeout TIMEOUT_RECHARGING s2) as [[[]|e|] s3] eqn:T1;
        apply settimeout_frame in T1;
        try (intros H; inversion H; subst; eapply same_wire_trans;
             eassumption).
      unfold bind at 1.
      destruct (get_message f CLIENT_FULL_POWER_MAX_LENGTH s3)
        as [[m2|e|] s4] eqn:G; apply IH in G;
        try (intros H; inversion H; subst;
             repeat (eapply same_wire_trans; [eassumption|]);
             apply same_wire_refl).
      assert (W4 : same_wire st s4)
        by (repeat (eapply same_wire_trans; [eassumption|]);
            apply same_wire_refl).
      destruct (str_eqb m2 CLIENT_FULL_POWER).
      * destruct (settimeout TIMEOUT s4) as [[[]|e|] s5] eqn:T2;
          apply settimeout_frame in T2;
          try (intros H; inversion H; subst; eapply same_wire_trans;
               eassumption).
        intros H. apply IH in H.
        repeat (eapply same_wire_trans; [eassumption|]).
        apply same_wire_refl.
      * unfold raise. intros H; inversion H; subst. assumption.
    + destruct (len msg >? max_length - 2); unfold raise, ret;
        intros H; inversion H; subst; assumption.
Qed.

Lemma parse_buffer_found st (u rest : str) :
  buffer st = u ++ TERM ++ rest ->
  contains TERM u = false ->
  parse_buffer st = (Ok u, set_buffer rest st).
Proof.
  intros B U. unfold parse_buffer. rewrite B, (partition_TERM _ _ U).
  reflexivity.
Qed.


End Reader.

(** ** Delivery of a message in segments *)

(** A buffer that is the beginning of [u], terminator, [rest] and holds a
    terminator holds the whole of [u] and its terminator. *)
Lemma prefix_with_TERM (u rest : str) :
  contains TERM u = false ->
  forall b q : str,
    b ++ q = u ++ TERM ++ rest ->
    contains TERM b = true ->
    exists rest', b = u ++ TERM ++ rest' /\ rest' ++ q = rest.
Proof.
  induction u as [|c u IH]; intros U b q E B.
  - destruct b as [|x [|y b']]; try discriminate B.
    + unfold TERM in B. cbn in B. rewrite andb_false_r in B. discriminate B.
    + injection E as -> -> E. exists b'. split; [reflexivity | assumption].
  - rewrite contains_cons, orb_false_iff in U. destruct U as [U1 U2].
    destruct b as [|x b']; [discriminate B|].
    rewrite <- !app_comm_cons in E. injection E as -> E.
    rewrite contains_cons, orb_true_iff in B. destruct B as [B | B].
    + exfalso. apply startswith_TERM in B. destruct B as [t B].
      injection B as -> ->.
      destruct u as [|d u'].
      * discriminate E.
      * injection E as <- _. discriminate U1.
    + destruct (IH U2 b' q E B) as (rest' & -> & R).
      exists rest'. split; [reflexivity | assumption].
Qed.

(** A buffer that is the beginning of [u], terminator, [rest] and holds no
    terminator is at most one character longer than [u]. *)
Lemma prefix_without_TERM (u rest : str) :
  forall b q : str,
    b ++ q = u ++ TERM ++ rest ->
    contains TERM b = false ->
    (length b <= length u + 1)%nat.
Proof.
  induction u as [|c u IH]; intros b q E B.
  - destruct b as [|x [|y b']]; simpl; try lia.
    injection E as -> -> _. discriminate B.
  - destruct b as [|x b']; [simpl; lia|].
    rewrite <- !app_comm_cons in E. injection E as _ E.
    rewrite contains_cons, orb_false_iff in B. destruct B as [_ B].
    simpl. specialize (IH b' q E B). lia.
Qed.

Section Delivery.

Variable Client : Type.
Implicit Types st : session Client.

Lemma recv_segment st (seg : str) (others : list str) :
  pending st = seg :: others ->
  exists st1,
    recv 128 st = (Ok (firstn 128 seg), st1)
    /\ buffer st1 = buffer st
    /\ same_wire st st1
    /\ firstn 128 seg ++ concat (pending st1) = concat (pending st)
    /\ (reads_left (pending st1) < reads_left (pending st))%nat.
Proof.
  intros P. unfold recv. rewrite P.
  eexists. split; [reflexivity|].
  split; [reflexivity|]. split; [repeat split|].
  cbn [pending set_pending]. unfold reads_left.
  pose proof (firstn_skipn 128 seg) as FS.
  pose proof (length_skipn 128 seg) as LS.
  destruct (skipn 128 seg) as [|m more] eqn:K.
  - rewrite app_nil_r in FS. rewrite FS. cbn [concat length]. split; [reflexivity|].
    rewrite length_app. lia.
  - cbn [concat length] in *. rewrite app_assoc, FS. split; [reflexivity|].
    rewrite !length_app. cbn [length]. lia.
Qed.

(** With the message on its way the loop of [get_message] ends, on the
    message in the buffer or, when the cap is too small for it, on the
    syntax fault. *)
Lemma get_message_wait_delivers (u rest : str) (max_length : Z) :
  contains TERM u = false ->
  forall (n : nat) st,
    (reads_left (pending st) <= n)%nat ->
    buffer st ++ concat (pending st) = u ++ TERM ++ rest ->
    forallb is_ascii (concat (pending st)) = true ->
    exists st',
      same_wire st st'
      /\ (reads_left (pending st') <= reads_left (pending st))%nat
      /\ forallb is_ascii (concat (pending st')) = true
      /\ ((get_message_wait n max_length st = (Ok tt, st')
           /\ exists rest', buffer st' = u ++ TERM ++ rest'
                            /\ rest' ++ concat (pending st') = rest)
          \/ (get_message_wait n max_length st = (Raise ServerSyntaxError, st')
              /\ max_length < len u + 2)).
Proof.
  intros U. induction n as [|n IH]; intros st Hn E A;
    rewrite get_message_wait_eq;
    destruct (contains TERM (buffer st)) eqn:B.
  1, 3: exists st; split; [apply same_wire_refl|]; split; [lia|];
    split; [exact A|]; left;
    split; [reflexivity|]; eapply prefix_with_TERM; eassumption.
  all: pose proof (prefix_without_TERM _ _ _ _ E B) as L;
    destruct (max_length - len (buffer st) <=? 0) eqn:C;
    [ exists st; split; [apply same_wire_refl|]; split; [lia|];
      split; [exact A|]; right;
      split; [reflexivity|]; apply Z.leb_le in C; unfold len in *; lia | ].
  - exfalso. unfold reads_left in Hn.
    destruct (pending st) as [|seg others]; [|simpl in Hn; lia].
    cbn [concat] in E. rewrite app_nil_r in E.
    rewrite E, contains_TERM_mid in B. discriminate B.
  - destruct (pending st) as [|seg others] eqn:P.
    { exfalso. cbn [concat] in E. rewrite app_nil_r in E.
      rewrite E, contains_TERM_mid in B. discriminate B. }
    destruct (recv_segment st P) as (st1 & R & B1 & W1 & C1 & M1).
    rewrite R. rewrite P in *.
    rewrite <- C1 in E, A. rewrite forallb_app in A.
    apply andb_true_iff in A. destruct A as [A1 A2].
    destruct (len (firstn 128 seg) >? 0) eqn:Z.
    + unfold decode. rewrite A1.
      destruct (IH (set_buffer (buffer st1 ++ firstn 128 seg) st1))
        as (st' & W & M & A' & D).
      * cbn [pending set_buffer]. lia.
      * cbn [buffer pending set_buffer]. rewrite B1, <- app_assoc. exact E.
      * exact A2.
      * exists st'. split; [|split; [|split; [exact A'|exact D]]].
        -- eapply same_wire_trans; [exact W1|].
           eapply same_wire_trans; [|exact W]. repeat split.
        -- cbn [pending set_buffer] in M. lia.
    + assert (F : firstn 128 seg = []).
      { rewrite Z.gtb_ltb in Z. apply Z.ltb_ge in Z. unfold len in Z.
        destruct (firstn 128 seg); [reflexivity | simpl in Z; lia]. }
      rewrite F in E. cbn [app] in E.
      destruct (IH st1) as (st' & W & M & A' & D).
      * lia.
      * rewrite B1. exact E.
      * exact A2.
      * exists st'. split; [|split; [|split; [exact A'|exact D]]].
        -- eapply same_wire_trans; eassumption.
        -- lia.
Qed.

(** A message on its way is returned when it fits the cap and raises the
    syntax fault when it does not. *)
Lemma get_message_delivers (u rest : str) (max_length : Z) (n : nat) st :
  contains TERM u = false ->
  u <> CLIENT_RECHARGING ->
  (reads_left (pending st) <= n)%nat ->
  buffer st ++ concat (pending st) = u ++ TERM ++ rest ->
  forallb is_ascii (concat (pending st)) = true ->
  exists st',
    same_wire st st'
    /\ (reads_left (pending st') <= reads_left (pending st))%nat
    /\ forallb is_ascii (concat (pending st')) = true
    /\ ((len u <= max_length - 2
         /\ get_message (S n) max_length st = (Ok u, st')
         /\ buffer st' ++ concat (pending st') = rest)
        \/ (max_length - 2 < len u
            /\ get_message (S n) max_length st
               = (Raise ServerSyntaxError, st'))).
Proof.
  intros U R Hn E A.
  destruct (@get_message_wait_delivers u rest max_length U n st Hn E A)
    as (s1 & W & M & A' & [(G & rest' & B & Q) | (G & L)]).
  - apply str_eqb_neq in R.
    exists (set_buffer rest' s1).
    split; [destruct W as (a & b & c & d); repeat split; assumption|].
    split; [exact M|]. split; [exact A'|].
    rewrite get_message_S. unfold bind. rewrite G.
    rewrite (parse_buffer_found _ _ _ B U), R.
    destruct (len u >? max_length - 2) eqn:C.
    + right. split; [rewrite Z.gtb_ltb in C; apply Z.ltb_lt in C; exact C|].
      reflexivity.
    + left. split; [rewrite Z.gtb_ltb in C; apply Z.ltb_ge in C; exact C|].
      split; [reflexivity | exact Q].
  - exists s1. split; [exact W|]. split; [exact M|]. split; [exact A'|].
    right. split; [lia|].
    rewrite get_message_S. unfold bind. rewrite G. reflexivity.
Qed.

End Delivery.

(** ** Handshake *)

Lemma fold_left_add (l : list Z) (a : Z) :
  fold_left Z.add l a = a + fold_right Z.add 0 l.
Proof.
  revert a; induction l as [|x l IH]; intros a; simpl; [lia|].
  rewrite IH. lia.
Qed.

(** The hash of the code is the hash of the specification. *)
Lemma calculate_hash_spec (username : str) :
  calculate_hash username = spec_hash username.
Proof.
  unfold calculate_hash, spec_hash, sum, MAX_VALUE.
  rewrite fold_left_add. f_equal.
  induction username as [|c u IH]; simpl in *; lia.
Qed.

Lemma send_message_eq (Client : Type) (react : Client -> str -> Client * list str)
      (message : str) (st : session Client) :
  send_message react message st = (Ok tt, snd (send_message react message st)).
Proof.
  unfold send_message, send. destruct (react (client st) (message ++ TERM)).
  reflexivity.
Qed.

Lemma send_message_sent (Client : Type) (react : Client -> str -> Client * list str)
      (message : str) (st : session Client) :
  sent (snd (send_message react message st)) = sent st ++ [message ++ TERM].
Proof.
  unfold send_message, send. destruct (react (client st) (message ++ TERM)).
  reflexivity.
Qed.

(** What [get_message] returns fits the cap. *)
Lemma get_message_len (Client : Type) (fuel : nat) :
  forall (max_length : Z) (st st' : session Client) (msg : str),
    get_message fuel max_length st = (Ok msg, st') ->
    len msg <= max_length - 2.
Proof.
  induction fuel as [|f IH]; intros max_length st st' msg.
  - discriminate.
  - rewrite get_message_S. unfold bind at 1.
    destruct (get_message_wait f max_length st) as [[[]|e|] s1];
      try discriminate.
    unfold bind at 1.
    destruct (parse_buffer s1) as [[m|e|] s2]; try discriminate.
    destruct (str_eqb m CLIENT_RECHARGING).
    + unfold bind at 1.
      destruct (recharging_with (get_message f) s2) as [[[]|e|] s3];
        try discriminate.
      apply IH.
    + destruct (len m >? max_length - 2) eqn:E; unfold raise, ret;
        intros H; inversion H; subst.
      rewrite Z.gtb_ltb in E. apply Z.ltb_ge in E. exact E.
Qed.

(** The handshake on a username [U] and a confirmation that parses to the
    client code. *)
Lemma authenticate_accepts :
  forall (Client : Type) (react : Client -> str -> Client * list str)
         (fuel : nat) (st st1 st2 : session Client) (U confirmation : str),
    get_message fuel CLIENT_USERNAME_MAX_LENGTH st = (Ok U, st1) ->
    get_message fuel CLIENT_CONFIRMATION_MAX_LENGTH
      (snd (send_message react
              (py_str ((spec_hash U + 54621) mod 65536)) st1))
    = (Ok confirmation, st2) ->
    parse_number confirmation = Ok ((spec_hash U + 45328) mod 65536) ->
    len U <= CLIENT_USERNAME_MAX_LENGTH - 2
    /\ authenticate react fuel st
       = (Ok tt, snd (send_message react SERVER_OK st2))
    /\ sent (snd (authenticate react fuel st))
       = sent st
         ++ on_wire [py_str ((spec_hash U + 54621) mod 65536); SERVER_OK].
Proof.
  intros Client react fuel st st1 st2 U confirmation G1 G2 P.
  assert (A : authenticate react fuel st
              = (Ok tt, snd (send_message react SERVER_OK st2))).
  { unfold authenticate, bind. rewrite G1, send_message_eq.
    rewrite calculate_hash_spec.
    unfold SERVER_KEY, CLIENT_KEY, MAX_VALUE.
    rewrite G2. unfold lift. rewrite P, Z.eqb_refl.
    apply send_message_eq. }
  split; [eapply get_message_len; eassumption|].
  split; [exact A|].
  rewrite A. cbn [snd]. rewrite send_message_sent.
  apply get_message_frame in G1, G2.
  destruct G1 as (S1 & _), G2 as (S2 & _).
  rewrite S2, send_message_sent, S1. unfold on_wire. cbn [map].
  rewrite <- app_assoc. reflexivity.
Qed.

(** Once the reader has handed over the username, the server code is what
    the handshake sends first, whatever comes next; [200 OK] is all it can
    send after it. *)
Lemma authenticate_sends_code :
  forall (Client : Type) (react : Client -> str -> Client * list str)
         (fuel : nat) (st st1 : session Client) (U : str),
    get_message fuel CLIENT_USERNAME_MAX_LENGTH st = (Ok U, st1) ->
    exists more : list str,
      sent (snd (authenticate react fuel st))
      = sent st
        ++ on_wire (py_str ((spec_hash U + 54621) mod 65536) :: more)
      /\ (more = [] \/ more = [SERVER_OK]).
Proof.
  intros Client react fuel st st1 U G1.
  unfold authenticate, bind. rewrite G1, send_message_eq.
  rewrite calculate_hash_spec. unfold SERVER_KEY, CLIENT_KEY, MAX_VALUE.
  pose proof (send_message_sent react
                (py_str ((spec_hash U + 54621) mod 65536)) st1) as S2.
  apply get_message_frame in G1. destruct G1 as (S1 & _). rewrite S1 in S2.
  set (s2 := snd (send_message react
                    (py_str ((spec_hash U + 54621) mod 65536)) st1)) in *.
  destruct (get_message fuel CLIENT_CONFIRMATION_MAX_LENGTH s2)
    as [[conf|e|] s3] eqn:G2;
    apply get_message_frame in G2; destruct G2 as (S3 & _);
    rewrite S2 in S3.
  - unfold lift. destruct (parse_number conf) as [c|e|].
    + destruct ((spec_hash U + 45328) mod 65536 =? c).
      * exists [SERVER_OK]. split; [|right; reflexivity].
        rewrite send_message_sent, S3. unfold on_wire. cbn [map].
        rewrite <- app_assoc. reflexivity.
      * exists []. split; [exact S3 | left; reflexivity].
    + exists []. split; [exact S3 | left; reflexivity].
    + exists []. split; [exact S3 | left; reflexivity].
  - exists []. split; [exact S3 | left; reflexivity].
  - exists []. split; [exact S3 | left; reflexivity].
Qed.

(** ** The handshake on a scripted connection *)

Lemma plain_is_ascii (s : str) :
  forallb plain s = true -> forallb is_ascii s = true.
Proof.
  apply forallb_impl. intros c Hc.
  destruct (plain_props _ Hc) as (_ & _ & H & _). exact H.
Qed.

Lemma scripted_send (message : str) (st : session unit) :
  send_message scripted message st
  = (Ok tt,
     mkSession (buffer st) (pending st) (sent st ++ [message ++ TERM])
               (sock_timeout st) (closed st) (client st) (move_log st)).
Proof.
  unfold send_message, send, scripted. rewrite app_nil_r.
  destruct st as [? ? ? ? ? [] ?]. reflexivity.
Qed.

(** ** Navigator *)

Section Navigator.

Variable Client : Type.
Variable react : Client -> str -> Client * list str.
Implicit Types st : session Client.

Lemma turn_left_sent fuel st r st' :
  turn_left react fuel st = (r, st') ->
  sent st' = sent st ++ on_wire [SERVER_TURN_LEFT].
Proof.
  unfold turn_left, bind. rewrite send_message_eq.
  destruct (get_message fuel CLIENT_OK_MAX_LENGTH
              (snd (send_message react SERVER_TURN_LEFT st)))
    as [[msg|e|] s1] eqn:G; apply get_message_frame in G;
    destruct G as (G & _); unfold lift; intros H; inversion H; subst;
    rewrite G; apply send_message_sent.
Qed.

Lemma turn_right_sent fuel st r st' :
  turn_right react fuel st = (r, st') ->
  sent st' = sent st ++ on_wire [SERVER_TURN_RIGHT].
Proof.
  unfold turn_right, bind. rewrite send_message_eq.
  destruct (get_message fuel CLIENT_OK_MAX_LENGTH
              (snd (send_message react SERVER_TURN_RIGHT st)))
    as [[msg|e|] s1] eqn:G; apply get_message_frame in G;
    destruct G as (G & _); unfold lift; intros H; inversion H; subst;
    rewrite G; apply send_message_sent.
Qed.

(** One turn, then the tracked orientation. *)
Lemma one_turn_sent (turn : nat -> M (session Client) coords) (command : str)
      fuel (target : Z) st d st' :
  (forall s r s', turn fuel s = (r, s') ->
                  sent s' = sent s ++ on_wire [command]) ->
  ((turn fuel ;; ret tt) ;; ret target) st = (Ok d, st') ->
  d = target /\ sent st' = sent st ++ on_wire [command].
Proof.
  intros T. unfold bind, ret.
  destruct (turn fuel st) as [[c|e|] s1] eqn:E; try discriminate.
  intros H; inversion H; subst. split; [reflexivity|]. eapply T; eassumption.
Qed.

Lemma two_left_turns_sent fuel (target : Z) st d st' :
  ((turn_left react fuel ;; turn_left react fuel ;; ret tt) ;; ret target) st
  = (Ok d, st') ->
  d = target
  /\ sent st' = sent st ++ on_wire [SERVER_TURN_LEFT; SERVER_TURN_LEFT].
Proof.
  unfold bind, ret.
  destruct (turn_left react fuel st) as [[c|e|] s1] eqn:E1; try discriminate.
  destruct (turn_left react fuel s1) as [[c'|e|] s2] eqn:E2; try discriminate.
  intros H; inversion H; subst. split; [reflexivity|].
  apply turn_left_sent in E1, E2. rewrite E2, E1, <- app_assoc. reflexivity.
Qed.

End Navigator.

(** A call of [turn_to_direction] that returns has sent the turns of the
    table and returns the target. *)
Lemma turn_to_direction_sent :
  forall (Client : Type) (react : Client -> str -> Client * list str)
         (fuel : nat) (current target : orientation)
         (st st' : session Client) (d : Z),
    turn_to_direction react fuel (code current) (code target) st = (Ok d, st') ->
    d = code target
    /\ sent st' = sent st ++ on_wire (spec_turns current target).
Proof.
  intros Client react fuel current target st st' d.
  destruct current, target; unfold spec_turns;
    cbn [orientation_eqb opposite left_of];
    unfold turn_to_direction, code, UP, DOWN, LEFT, RIGHT;
    cbn [Z.eqb Z.gtb Z.ltb Z.compare Pos.eqb Pos.compare Pos.compare_cont
                negb andb orb];
    first
      [ unfold bind, ret; intros H; inversion H; subst;
        rewrite app_nil_r; split; reflexivity
      | apply two_left_turns_sent
      | apply one_turn_sent; intros s r s'; apply turn_left_sent
      | apply one_turn_sent; intros s r s'; apply turn_right_sent ].
Qed.


(** *** Routing *)

Lemma coords_eqb_eq (a b : coords) : coords_eqb a b = true <-> a = b.
Proof.
  destruct a as [x y], b as [x' y']. unfold coords_eqb. cbn [fst snd].
  rewrite andb_true_iff, !Z.eqb_eq. split; [intros [-> ->] | intros H; inversion H]; auto.
Qed.

(** The direction the loop turns to is the rule towards the entry corner. *)
Lemma get_direction_to_entry (c : coords) (o : orientation) :
  route_to_entry c = Some o ->
  get_direction_to_dest c DESTINATION_SQUARE = code o.
Proof.
  destruct c as [x y].
  unfold route_to_entry, get_direction_to_dest, DESTINATION_SQUARE.
  cbn [fst snd]. rewrite !Z.gtb_ltb.
  destruct (x <? -2) eqn:A; [intros H; inversion H; reflexivity|].
  destruct (-2 <? x) eqn:B; [intros H; inversion H; reflexivity|].
  destruct (y <? 2) eqn:C; [intros H; inversion H; reflexivity|].
  destruct (2 <? y) eqn:D; [intros H; inversion H; reflexivity|].
  discriminate.
Qed.

(** ** The obedient robot *)

Lemma forallb_report_text (p : ascii -> bool) (c : coords) :
  p "O"%char = true -> p "K"%char = true -> p " "%char = true ->
  (forall x, plain x = true -> p x = true) ->
  forallb p (report_text c) = true.
Proof.
  intros HO HK HS HP. unfold report_text.
  rewrite !forallb_app. cbn [lit list_ascii_of_string forallb].
  rewrite HO, HK, HS, !(forallb_impl _ _ _ HP (py_str_plain _)).
  reflexivity.
Qed.

(** The server reads back the position that the robot reports. *)
Lemma parse_report_text (c : coords) : parse_client_ok (report_text c) = Ok c.
Proof.
  destruct c as [x y].
  change (report_text (x, y))
    with ([] ++ CLIENT_OK ++ lit " " ++ py_str x ++ lit " " ++ py_str y).
  assert (N : forall n, forallb (fun c => negb (isspace c)) (py_str n) = true).
  { intros n. apply (forallb_impl plain); [|apply py_str_plain].
    intros c Hc. destruct (plain_props _ Hc) as (-> & _). reflexivity. }
  apply parse_client_ok_pieces; try reflexivity; try discriminate;
    try apply N; apply parse_number_py_str.
Qed.

Lemma report_text_no_TERM (c : coords) : contains TERM (report_text c) = false.
Proof.
  apply no_BEL_no_TERM, contains_char_none, forallb_report_text;
    try reflexivity.
  intros x Hx. destruct (plain_props _ Hx) as (_ & _ & _ & -> & _).
  reflexivity.
Qed.

Lemma report_is_ascii (c : coords) : forallb is_ascii (report c) = true.
Proof.
  unfold report. rewrite forallb_app, forallb_report_text; try reflexivity.
  intros x Hx. destruct (plain_props _ Hx) as (_ & _ & H & _). exact H.
Qed.

Lemma report_text_length (c : coords) :
  reportable c -> (length (report_text c) <= 10)%nat.
Proof.
  intros [Hx Hy]. unfold report_text. rewrite !length_app.
  pose proof (py_str_length_3 Hx). pose proof (py_str_length_3 Hy).
  cbn [lit list_ascii_of_string length]. lia.
Qed.

Lemma report_text_not_RECHARGING (c : coords) :
  report_text c <> CLIENT_RECHARGING.
Proof.
  unfold report_text, CLIENT_RECHARGING.
  cbn [lit list_ascii_of_string app]. discriminate.
Qed.

(** A whole message that arrives in one segment, nothing buffered. *)
Lemma get_message_one_segment (Client : Type) (st : session Client) (u : str)
      (max_length : Z) (f : nat) :
  buffer st = [] ->
  pending st = [u ++ TERM] ->
  (length (u ++ TERM) <= 128)%nat ->
  forallb is_ascii (u ++ TERM) = true ->
  contains TERM u = false ->
  u <> CLIENT_RECHARGING ->
  len u <= max_length - 2 ->
  get_message (S (S f)) max_length st = (Ok u, set_pending [] st).
Proof.
  intros B P L A T R C.
  assert (W : get_message_wait (S f) max_length st
              = (Ok tt, set_buffer (u ++ TERM) (set_pending [] st))).
  { rewrite get_message_wait_eq, B. change (contains TERM []) with false.
    cbv iota.
    replace (max_length - len [] <=? 0) with false
      by (symmetry; apply Z.leb_gt; unfold len in *; simpl; lia).
    unfold recv. rewrite P. rewrite firstn_all2, skipn_all2 by lia.
    replace (len (u ++ TERM) >? 0) with true
      by (symmetry; rewrite Z.gtb_ltb; apply Z.ltb_lt; unfold len;
          rewrite length_app; simpl; lia).
    unfold decode. rewrite A.
    rewrite get_message_wait_eq. cbn [buffer set_buffer set_pending].
    rewrite B. cbn [app].
    replace (contains TERM (u ++ TERM)) with true; [reflexivity|].
    symmetry. rewrite <- (app_nil_r TERM) at 2. apply contains_TERM_mid. }
  rewrite get_message_S, (bind_ok _ _ _ W).
  assert (Q : parse_buffer (set_buffer (u ++ TERM) (set_pending [] st))
              = (Ok u, set_buffer [] (set_buffer (u ++ TERM)
                                        (set_pending [] st)))).
  { apply parse_buffer_found; [|exact T].
    cbn [buffer set_buffer]. rewrite app_nil_r. reflexivity. }
  rewrite (bind_ok _ _ _ Q).
  apply str_eqb_neq in R. rewrite R.
  replace (len u >? max_length - 2) with false
    by (symmetry; rewrite Z.gtb_ltb; apply Z.ltb_ge; exact C).
  unfold ret. f_equal.
  destruct st; cbn in *; subst; reflexivity.
Qed.

Lemma ahead_moves (o : orientation) (c : coords) :
  coords_eqb c (ahead o c) = false.
Proof.
  destruct c as [x y]. unfold coords_eqb.
  destruct o; cbn [ahead fst snd]; rewrite andb_false_iff;
    [right | left | right | left]; apply Z.eqb_neq; lia.
Qed.

Section Robot.

Implicit Types st : session robot.

(** The robot hears a command and its report arrives. *)
Lemma command_heard (command : str) (p : coords) (r' : robot) st :
  calm st ->
  obey (client st) (command ++ TERM) = (r', [report p]) ->
  send_message obey command st
  = (Ok tt,
     mkSession [] [report p] (sent st ++ on_wire [command]) (sock_timeout st)
               (closed st) r' (move_log st)).
Proof.
  intros [B P] O. unfold send_message, send. rewrite O, B, P. reflexivity.
Qed.

Lemma report_read (p : coords) (f : nat) (s : list str) (t : Z) (cl : bool)
      (r : robot) (log : list (coords * coords)) :
  reportable p ->
  get_message (S (S f)) CLIENT_OK_MAX_LENGTH
              (mkSession [] [report p] s t cl r log)
  = (Ok (report_text p), mkSession [] [] s t cl r log).
Proof.
  intros H. pose proof (report_text_length H) as L.
  rewrite (@get_message_one_segment robot _ (report_text p)); try reflexivity.
  - rewrite length_app. change (length TERM) with 2%nat. lia.
  - apply report_is_ascii.
  - apply report_text_no_TERM.
  - apply report_text_not_RECHARGING.
  - unfold CLIENT_OK_MAX_LENGTH, len. lia.
Qed.

Lemma turn_left_obeyed (f : nat) st :
  calm st ->
  reportable (position (client st)) ->
  turn_left obey (S (S f)) st
  = (Ok (position (client st)),
     after_commands st [SERVER_TURN_LEFT]
       (mkRobot (position (client st)) (left_of (heading (client st)))
                (secret (client st)))
       (move_log st)).
Proof.
  intros C H. unfold turn_left.
  rewrite (bind_ok _ _ _ (command_heard SERVER_TURN_LEFT C eq_refl)).
  rewrite (bind_ok _ _ _ (report_read f _ _ _ _ _ H)).
  unfold lift. rewrite parse_report_text. reflexivity.
Qed.

Lemma turn_right_obeyed (f : nat) st :
  calm st ->
  reportable (position (client st)) ->
  turn_right obey (S (S f)) st
  = (Ok (position (client st)),
     after_commands st [SERVER_TURN_RIGHT]
       (mkRobot (position (client st)) (right_of (heading (client st)))
                (secret (client st)))
       (move_log st)).
Proof.
  intros C H. unfold turn_right.
  rewrite (bind_ok _ _ _ (command_heard SERVER_TURN_RIGHT C eq_refl)).
  rewrite (bind_ok _ _ _ (report_read f _ _ _ _ _ H)).
  unfold lift. rewrite parse_report_text. reflexivity.
Qed.

Lemma move_forward_obeyed (f : nat) st :
  calm st ->
  reportable (ahead (heading (client st)) (position (client st))) ->
  move_forward obey (S (S (S f))) (position (client st)) st
  = (Ok (ahead (heading (client st)) (position (client st))),
     after_commands st [SERVER_MOVE]
       (mkRobot (ahead (heading (client st)) (position (client st)))
                (heading (client st)) (secret (client st)))
       (move_log st
          ++ [(position (client st),
               ahead (heading (client st)) (position (client st)))])).
Proof.
  intros C H. cbn [move_forward].
  rewrite (bind_ok _ _ _ (command_heard SERVER_MOVE C eq_refl)).
  rewrite (bind_ok _ _ _ (report_read f _ _ _ _ _ H)).
  rewrite (@bind_lift_ok _ _ _ _ _ _ _ (parse_report_text _)).
  rewrite ahead_moves. reflexivity.
Qed.

End Robot.

Section RobotRouting.

Implicit Types st : session robot.

(** The robot is turned as the table says, and faces the target. *)
Lemma turn_to_direction_obeyed (f : nat) (t : orientation) st :
  calm st ->
  reportable (position (client st)) ->
  turn_to_direction obey (S (S f)) (code (heading (client st))) (code t) st
  = (Ok (code t),
     after_commands st (spec_turns (heading (client st)) t)
       (mkRobot (position (client st)) t (secret (client st)))
       (move_log st)).
Proof.
  destruct st as [b p s tm cl [pos h sec] log]. intros [B P] H.
  cbn in B, P, H. subst b p.
  cbn [client heading position secret move_log].
  destruct h, t; unfold spec_turns; cbn [orientation_eqb opposite left_of];
    unfold turn_to_direction, code, UP, DOWN, LEFT, RIGHT;
    cbn [Z.eqb Z.gtb Z.ltb Z.compare Pos.eqb Pos.compare Pos.compare_cont
                negb andb orb];
    unfold bind;
    repeat (rewrite ?turn_left_obeyed, ?turn_right_obeyed
              by (first [split; reflexivity | exact H]);
            cbv beta iota);
    unfold ret, after_commands, on_wire;
    cbn [sent sock_timeout closed client move_log position heading secret
              left_of right_of map];
    rewrite <- ?app_assoc, ?app_nil_r; reflexivity.
Qed.

(** One move by the rule to the entry corner: a report that fits, one
    cell less to go, and the [x] axis first. *)
Lemma route_to_entry_step (c : coords) (o : orientation) :
  route_to_entry c = Some o ->
  x_first (c, ahead o c)
  /\ distance c = S (distance (ahead o c))
  /\ (reportable c -> reportable (ahead o c)).
Proof.
  destruct c as [x y]. unfold route_to_entry, x_first, distance, reportable.
  cbn [fst snd]. rewrite !Z.gtb_ltb.
  destruct (x <? -2) eqn:A;
    [|destruct (-2 <? x) eqn:B;
      [|destruct (y <? 2) eqn:C; [|destruct (2 <? y) eqn:D]]];
    try discriminate; intros R; inversion R; subst o; cbn [ahead fst snd];
    rewrite ?Z.ltb_lt, ?Z.ltb_ge in *;
    (destruct (x =? -2) eqn:X;
     [apply Z.eqb_eq in X | apply Z.eqb_neq in X]);
    repeat split; try lia.
Qed.

Lemma route_to_entry_None (c : coords) :
  route_to_entry c = None <-> c = DESTINATION_SQUARE.
Proof.
  destruct c as [x y]. unfold route_to_entry, DESTINATION_SQUARE.
  cbn [fst snd]. rewrite !Z.gtb_ltb.
  destruct (x <? -2) eqn:A;
    [split; [discriminate | intros H; inversion H; subst; discriminate]|].
  destruct (-2 <? x) eqn:B;
    [split; [discriminate | intros H; inversion H; subst; discriminate]|].
  destruct (y <? 2) eqn:C;
    [split; [discriminate | intros H; inversion H; subst; discriminate]|].
  destruct (2 <? y) eqn:D;
    [split; [discriminate | intros H; inversion H; subst; discriminate]|].
  split; [intros _ | reflexivity].
  apply Z.ltb_ge in A, B, C, D. f_equal; lia.
Qed.

Lemma distance_zero (c : coords) : distance c = O -> c = DESTINATION_SQUARE.
Proof.
  destruct c as [x y]. unfold distance, DESTINATION_SQUARE. cbn [fst snd].
  intros H. f_equal; lia.
Qed.

(** Every move of the way to the entry corner is [x] axis first. *)
Lemma route_x_first (n : nat) : forall c, Forall x_first (legs c (route n c)).
Proof.
  induction n as [|n IH]; intros c; cbn [route]; [constructor|].
  destruct (route_to_entry c) as [o|] eqn:R; [|constructor].
  cbn [legs]. constructor; [|apply IH].
  apply (route_to_entry_step _ R).
Qed.

(** The loop at the entry corner, and one round of it elsewhere. *)
Lemma reach_done (Client : Type) (react : Client -> str -> Client * list str)
      (fuel : nat) (direction : Z) (st : session Client) :
  reach_destination_square react fuel direction DESTINATION_SQUARE st
  = (Ok (direction, DESTINATION_SQUARE), st).
Proof. destruct fuel; reflexivity. Qed.

Lemma reach_round (Client : Type) (react : Client -> str -> Client * list str)
      (fuel : nat) (direction : Z) (c : coords) (o : orientation)
      (st : session Client) :
  route_to_entry c = Some o ->
  reach_destination_square react (S fuel) direction c st
  = (direction' <- turn_to_direction react fuel direction (code o) ;;
     c' <- move_forward react fuel c ;;
     reach_destination_square react fuel direction' c') st.
Proof.
  intros R. pose proof (get_direction_to_entry _ R) as G.
  assert (N : coords_eqb c DESTINATION_SQUARE = false).
  { destruct (coords_eqb c DESTINATION_SQUARE) eqn:E; [|reflexivity].
    apply coords_eqb_eq in E. apply route_to_entry_None in E. congruence. }
  cbn [reach_destination_square]. rewrite N, G. reflexivity.
Qed.

(** An obedient robot is brought to the entry corner along [route]. *)
Lemma reach_obeyed (n : nat) :
  forall (fuel : nat) st,
    distance (position (client st)) = n ->
    (n + 3 <= fuel)%nat ->
    calm st ->
    reportable (position (client st)) ->
    exists (h' : orientation) (commands : list str),
      reach_destination_square obey fuel (code (heading (client st)))
                               (position (client st)) st
      = (Ok (code h', DESTINATION_SQUARE),
         after_commands st commands
           (mkRobot DESTINATION_SQUARE h' (secret (client st)))
           (move_log st
              ++ legs (position (client st)) (route n (position (client st))))).
Proof.
  induction n as [|n IH]; intros fuel st D F C H.
  - apply distance_zero in D. rewrite D, reach_done.
    exists (heading (client st)), [].
    destruct st as [b p s tm cl [pos h sec] log]. destruct C as [B P].
    cbn in *. subst. unfold after_commands, on_wire.
    cbn [sent sock_timeout closed client move_log map secret].
    rewrite !app_nil_r. reflexivity.
  - destruct (route_to_entry (position (client st))) as [o|] eqn:R.
    2:{ apply route_to_entry_None in R. rewrite R in D. discriminate D. }
    destruct (route_to_entry_step _ R) as (_ & D' & H').
    specialize (H' H). rewrite D in D'. injection D' as D'.
    destruct fuel as [|[|[|[|f]]]]; try lia.
    rewrite (@reach_round _ obey _ _ _ _ _ R).
    rewrite (bind_ok _ _ _ (@turn_to_direction_obeyed (S f) o st C H)).
    set (st1 := after_commands st
                  (spec_turns (heading (client st)) o)
                  (mkRobot (position (client st)) o (secret (client st)))
                  (move_log st)).
    assert (C1 : calm st1) by (split; reflexivity).
    rewrite (bind_ok _ _ _ (@move_forward_obeyed f st1 C1 H')).
    match goal with
    | |- context [reach_destination_square obey _ _ _ ?s] =>
        destruct (IH (S (S (S f))) s) as (h' & commands & E)
    end.
    + symmetry. exact D'.
    + lia.
    + split; reflexivity.
    + exact H'.
    + exists h', (spec_turns (heading (client st)) o ++ [SERVER_MOVE]
                    ++ commands).
      unfold st1 in *.
      cbn [client after_commands heading position secret sent sock_timeout
                  closed move_log] in *.
      rewrite E. f_equal.
      unfold after_commands, on_wire.
      cbn [sent sock_timeout closed client move_log secret route].
      rewrite R. cbn [legs].
      rewrite !map_app, <- !app_assoc. reflexivity.
Qed.

End RobotRouting.

(** ** A recharge on the wire *)


(** * The claims *)

(** ** C1: the reader one byte below the cap *)

(** C1 (the code departs from the claim). With [max_length - 1] characters
    in the buffer and no [\a] among them, [get_message] raises nothing: the
    test of the loop is [remainder <= 0] in both of its branches, so the
    reader goes on to [recv]; on a silent connection it ends in the
    time-out of the socket, not in a syntax fault. *)
Theorem reader_still_reads_one_below_cap :
  forall (Client : Type) (fuel : nat) (max_length : Z) (st : session Client),
    len (buffer st) = max_length - 1 ->
    contains [BEL] (buffer st) = false ->
    pending st = [] ->
    get_message (S (S fuel)) max_length st = (Raise SocketTimeout, st).
Proof.
  intros Client fuel max_length st L B P.
  rewrite get_message_S. unfold bind.
  rewrite get_message_wait_eq, (no_BEL_no_TERM _ B).
  replace (max_length - len (buffer st) <=? 0) with false
    by (symmetry; apply Z.leb_gt; lia).
  unfold recv. rewrite P. reflexivity.
Qed.

Lemma reader_still_reads_one_below_cap_witness :
  let st := mkSession (lit "abcdefghijk") [] [] TIMEOUT false tt [] in
  len (buffer st) = CLIENT_USERNAME_MAX_LENGTH - 1 /\
  get_message 2 CLIENT_USERNAME_MAX_LENGTH st = (Raise SocketTimeout, st).
Proof.
  split; [reflexivity|].
  apply (@reader_still_reads_one_below_cap unit 0 CLIENT_USERNAME_MAX_LENGTH);
    reflexivity.
Defined.

(** ** C2: the round trip of the handshake *)

(** C2 (amended). Let [U] be the username and [H] the hash of the
    specification. Whenever the reader returns [U], the server code
    [(H + 54621) mod 65536] is the first message that the handshake sends,
    whatever the confirmation, and [200 OK] is all that can follow it; if
    the confirmation then parses to [(H + 45328) mod 65536], the handshake
    returns normally, its last send being [200 OK]. On the wire: for every
    username of at most 10 characters that is not the token [RECHARGING],
    whatever ASCII bytes follow its terminator and however the bytes are
    cut into segments, the handshake sends the server code first; and
    followed by the client code in decimal, it sends the server code and
    [200 OK]. *)
Theorem handshake_round_trip :
  (forall (Client : Type) (react : Client -> str -> Client * list str)
          (fuel : nat) (st st1 : session Client) (U : str),
      get_message fuel CLIENT_USERNAME_MAX_LENGTH st = (Ok U, st1) ->
      len U <= CLIENT_USERNAME_MAX_LENGTH - 2
      /\ exists more : list str,
          sent (snd (authenticate react fuel st))
          = sent st
            ++ on_wire (py_str ((spec_hash U + 54621) mod 65536) :: more)
          /\ (more = [] \/ more = [SERVER_OK]))
  /\
  (forall (Client : Type) (react : Client -> str -> Client * list str)
          (fuel : nat) (st st1 st2 : session Client) (U confirmation : str),
      get_message fuel CLIENT_USERNAME_MAX_LENGTH st = (Ok U, st1) ->
      get_message fuel CLIENT_CONFIRMATION_MAX_LENGTH
        (snd (send_message react
                (py_str ((spec_hash U + 54621) mod 65536)) st1))
      = (Ok confirmation, st2) ->
      parse_number confirmation = Ok ((spec_hash U + 45328) mod 65536) ->
      len U <= CLIENT_USERNAME_MAX_LENGTH - 2
      /\ authenticate react fuel st
         = (Ok tt, snd (send_message react SERVER_OK st2))
      /\ sent (snd (authenticate react fuel st))
         = sent st
           ++ on_wire [py_str ((spec_hash U + 54621) mod 65536); SERVER_OK])
  /\
  (forall (segments : list str) (U rest : str),
      concat segments = U ++ TERM ++ rest ->
      (length U <= 10)%nat ->
      forallb is_ascii (concat segments) = true ->
      contains TERM U = false ->
      U <> CLIENT_RECHARGING ->
      exists (fuel : nat) (more : list str),
        sent (snd (authenticate scripted fuel (connect segments)))
        = on_wire (py_str ((spec_hash U + 54621) mod 65536) :: more)
        /\ (more = [] \/ more = [SERVER_OK]))
  /\
  (forall (segments : list str) (U : str),
      concat segments
      = U ++ TERM ++ py_str ((spec_hash U + 45328) mod 65536) ++ TERM ->
      (length U <= 10)%nat ->
      forallb is_ascii U = true ->
      contains TERM U = false ->
      U <> CLIENT_RECHARGING ->
      exists (fuel : nat) (st' : session unit),
        authenticate scripted fuel (connect segments) = (Ok tt, st')
        /\ sent st'
           = on_wire [py_str ((spec_hash U + 54621) mod 65536); SERVER_OK]).
Proof.
  split; [|split; [exact authenticate_accepts | split]].
  - intros Client react fuel st st1 U G1.
    split; [eapply get_message_len; eassumption|].
    eapply authenticate_sends_code. eassumption.
  - intros segments U rest E L A T R.
    destruct (@get_message_delivers unit U rest
                CLIENT_USERNAME_MAX_LENGTH (reads_left segments)
                (connect segments) T R (Nat.le_refl _) E A)
      as (s1 & _ & _ & _ & [(_ & G1 & _) | (C & _)]);
      [|exfalso; unfold CLIENT_USERNAME_MAX_LENGTH, len in C; lia].
    exists (S (reads_left segments)).
    exact (authenticate_sends_code scripted _ _ G1).
  - intros segments U E L A T R.
    set (conf := py_str ((spec_hash U + 45328) mod 65536)) in *.
    assert (Pc : forallb plain conf = true) by apply py_str_plain.
    assert (Aall : forallb is_ascii (concat (pending (connect segments)))
                   = true).
    { cbn [pending connect]. rewrite E, !forallb_app, A.
      rewrite (plain_is_ascii _ Pc). reflexivity. }
    destruct (@get_message_delivers unit U (conf ++ TERM)
                CLIENT_USERNAME_MAX_LENGTH (reads_left segments)
                (connect segments) T R (Nat.le_refl _) E Aall)
      as (s1 & W1 & M1 & A1 & [(_ & G1 & B1) | (C & _)]);
      [|exfalso; unfold CLIENT_USERNAME_MAX_LENGTH, len in C; lia].
    cbn [pending connect] in M1.
    pose (s1' := mkSession (buffer s1) (pending s1)
                   (sent s1
                      ++ [py_str ((spec_hash U + 54621) mod 65536) ++ TERM])
                   (sock_timeout s1) (closed s1) (client s1) (move_log s1)).
    assert (Rc : conf <> CLIENT_RECHARGING).
    { intros Q. rewrite Q in Pc. discriminate Pc. }
    assert (Lc : (length conf <= 5)%nat).
    { apply py_str_length_5. apply Z.mod_pos_bound. lia. }
    destruct (@get_message_delivers unit conf []
                CLIENT_CONFIRMATION_MAX_LENGTH (reads_left segments) s1'
                (no_BEL_no_TERM _ (plain_no_BEL _ Pc)) Rc M1)
      as (s2 & W2 & _ & _ & [(_ & G2 & _) | (C & _)]).
    + cbn [buffer pending s1']. rewrite B1. reflexivity.
    + exact A1.
    + destruct (@authenticate_accepts unit scripted
                  (S (reads_left segments)) (connect segments) s1 s2 U conf
                  G1) as (_ & F & S').
      * rewrite scripted_send. exact G2.
      * apply parse_number_py_str.
      * exists (S (reads_left segments)). eexists. split; [exact F|].
        rewrite F in S'. exact S'.
    + exfalso. unfold CLIENT_CONFIRMATION_MAX_LENGTH, len in C. lia.
Qed.

Lemma handshake_round_trip_witness :
  let st := connect [lit "Mnau" ++ TERM; lit "53112" ++ TERM] in
  let st2 := mkSession [] [] (on_wire [lit "62405"]) TIMEOUT false tt [] in
  spec_hash (lit "Mnau") = 7784
  /\ (len (lit "Mnau") <= CLIENT_USERNAME_MAX_LENGTH - 2
      /\ exists more : list str,
          sent (snd (authenticate scripted 3
                       (connect [lit "Mnau" ++ TERM; lit "abc" ++ TERM])))
          = [] ++ on_wire (lit "62405" :: more)
          /\ (more = [] \/ more = [SERVER_OK]))
  /\ (len (lit "Mnau") <= CLIENT_USERNAME_MAX_LENGTH - 2
      /\ authenticate scripted 3 st
         = (Ok tt, snd (send_message scripted SERVER_OK st2))
      /\ sent (snd (authenticate scripted 3 st))
         = on_wire [lit "62405"; SERVER_OK])
  /\ (exists (fuel : nat) (more : list str),
         sent (snd (authenticate scripted fuel
                      (connect [lit "Mn"; lit "au" ++ [BEL];
                                BS :: lit "no confirmation"])))
         = on_wire (lit "62405" :: more)
         /\ (more = [] \/ more = [SERVER_OK]))
  /\ (exists (fuel : nat) (st' : session unit),
         authenticate scripted fuel
           (connect [lit "Mn"; lit "au" ++ [BEL]; BS :: lit "531";
                     lit "12" ++ TERM])
         = (Ok tt, st')
         /\ sent st' = on_wire [lit "62405"; SERVER_OK]).
Proof.
  split; [reflexivity|]. split; [|split; [|split]].
  - apply (proj1 handshake_round_trip unit scripted 3%nat
             (connect [lit "Mnau" ++ TERM; lit "abc" ++ TERM])
             (connect [lit "abc" ++ TERM]) (lit "Mnau")).
    reflexivity.
  - apply (proj1 (proj2 handshake_round_trip) unit scripted 3%nat
             (connect [lit "Mnau" ++ TERM; lit "53112" ++ TERM])
             (connect [lit "53112" ++ TERM])
             (mkSession [] [] (on_wire [lit "62405"]) TIMEOUT false tt [])
             (lit "Mnau") (lit "53112")); reflexivity.
  - apply (proj1 (proj2 (proj2 handshake_round_trip))
             [lit "Mn"; lit "au" ++ [BEL]; BS :: lit "no confirmation"]
             (lit "Mnau") (lit "no confirmation")); try reflexivity.
    + simpl. lia.
    + discriminate.
  - apply (proj2 (proj2 (proj2 handshake_round_trip))
             [lit "Mn"; lit "au" ++ [BEL]; BS :: lit "531"; lit "12" ++ TERM]
             (lit "Mnau")); try reflexivity.
    + simpl. lia.
    + discriminate.
Defined.

(** C2 (as stated): the username [RECHARGING], 10 characters and so within
    the cap, gets no server code. The reader takes it for a recharge and
    waits for [FULL POWER]; the confirmation that comes instead, be it the
    client code of that username, is the logic fault, and [302 LOGIC ERROR]
    is all that the session sends. *)
Lemma username_RECHARGING_gets_no_code :
  let confirmation :=
    py_str ((spec_hash CLIENT_RECHARGING + 45328) mod 65536) in
  let st := connect [CLIENT_RECHARGING ++ TERM; confirmation ++ TERM] in
  len CLIENT_RECHARGING = CLIENT_USERNAME_MAX_LENGTH - 2
  /\ parse_number confirmation
     = Ok ((spec_hash CLIENT_RECHARGING + 45328) mod 65536)
  /\ fst (authenticate scripted 10 st) = Raise ServerLogicError
  /\ sent (snd (authenticate scripted 10 st)) = []
  /\ sent (snd (run scripted 10 st)) = on_wire [SERVER_LOGIC_ERROR].
Proof. repeat split. Qed.

(** ** C3: a second [RECHARGING] *)

(** C3 (the code departs from the claim). A second [RECHARGING] while the
    first is pending raises nothing: [recharging] reads through
    [get_message], which takes the second [RECHARGING] for a recharge of
    its own. Two [FULL POWER] then end both, and the reading goes on; with
    nothing after the two [RECHARGING] the session times out; and a whole
    handshake behind the four messages is accepted, [302 LOGIC ERROR]
    never being sent. *)
Theorem second_RECHARGING_is_not_a_logic_fault :
  let R := CLIENT_RECHARGING ++ TERM in
  let F := CLIENT_FULL_POWER ++ TERM in
  get_message 10 CLIENT_OK_MAX_LENGTH
              (connect [R; R; F; F; lit "OK 0 1" ++ TERM])
  = (Ok (lit "OK 0 1"), connect [])
  /\ fst (get_message 10 CLIENT_OK_MAX_LENGTH (connect [R; R]))
     = Raise SocketTimeout
  /\ sent (snd (run scripted 10
                    (connect [R; R; F; F; lit "Mnau" ++ TERM;
                              lit "53112" ++ TERM])))
     = on_wire [lit "62405"; SERVER_OK; SERVER_TURN_LEFT].
Proof. repeat split. Qed.

(** ** C4: the cells of a sweep that finds nothing *)

(** C4 (the code departs from the claim). An obedient robot on the entry
    corner, whatever its heading, every pick-up empty: after the fifth row
    the transition to a next row is carried out as after the others, and
    the robot is moved to [(2, -3)], a 26th cell, below the region. *)
Theorem sweep_finding_nothing_leaves_the_region :
  forall h : orientation,
    let start := mkRobot DESTINATION_SQUARE h (fun _ => []) in
    let final := search_square obey 30 (code h) (embark start) in
    fst final = Ok tt
    /\ cells_visited DESTINATION_SQUARE (snd final)
       = region_serpentine ++ [(2, -3)]
    /\ position (client (snd final)) = (2, -3)
    /\ in_region (2, -3) = false
    /\ length (filter (str_eqb (SERVER_PICK_UP ++ TERM)) (sent (snd final)))
       = 25%nat
    /\ length (filter (str_eqb (SERVER_MOVE ++ TERM)) (sent (snd final)))
       = 25%nat.
Proof. intros h. destruct h; vm_compute; repeat split. Qed.

(** The other half of the claim holds: the sweep ends on the first pick-up
    that is not empty, with [106 LOGOUT]. *)
Example sweep_ends_on_the_first_message :
  let start :=
    mkRobot DESTINATION_SQUARE East
            (fun c => if coords_eqb c (0, 1) then lit "secret" else []) in
  let final := search_square obey 30 RIGHT (embark start) in
  fst final = Ok tt
  /\ cells_visited DESTINATION_SQUARE (snd final)
     = [(-2, 2); (-1, 2); (0, 2); (1, 2); (2, 2); (2, 1); (1, 1); (0, 1)]
  /\ last (sent (snd final)) [] = SERVER_LOGOUT ++ TERM.
Proof. vm_compute. repeat split. Qed.

(** ** C5: the cap of the username *)

(** C5 (amended). The username is read with the cap
    [CLIENT_USERNAME_MAX_LENGTH = 12], terminator included. However the
    bytes [u], terminator, [rest] are cut into segments: a username [u] of
    at most 10 characters is returned by the reader (unless it is the token
    [RECHARGING], which the reader takes for a recharge), and one of 11
    characters or more raises the syntax fault in the handshake, which
    [run] answers with [301 SYNTAX ERROR] before it closes. *)
Theorem username_cap_is_12 :
  forall (segments : list str) (u rest : str),
    concat segments = u ++ TERM ++ rest ->
    contains TERM u = false ->
    forallb is_ascii (concat segments) = true ->
    CLIENT_USERNAME_MAX_LENGTH = 12
    /\ ((length u <= 10)%nat ->
        u <> CLIENT_RECHARGING ->
        exists (fuel : nat) (st' : session unit),
          get_message fuel CLIENT_USERNAME_MAX_LENGTH (connect segments)
          = (Ok u, st'))
    /\ ((11 <= length u)%nat ->
        exists (fuel : nat) (st' : session unit),
          fst (authenticate scripted fuel (connect segments))
          = Raise ServerSyntaxError
          /\ run scripted fuel (connect segments) = (Ok tt, st')
          /\ sent st' = on_wire [SERVER_SYNTAX_ERROR]
          /\ closed st' = true).
Proof.
  intros segments u rest E U A.
  split; [reflexivity|]. split.
  - intros L R.
    destruct (@get_message_delivers unit u rest CLIENT_USERNAME_MAX_LENGTH
                (reads_left segments) (connect segments) U R
                (Nat.le_refl _) E A)
      as (st' & _ & _ & _ & [(_ & G & _) | (C & _)]).
    + eauto.
    + exfalso. unfold CLIENT_USERNAME_MAX_LENGTH, len in C. lia.
  - intros L.
    assert (R : u <> CLIENT_RECHARGING).
    { intros ->. simpl in L. lia. }
    destruct (@get_message_delivers unit u rest CLIENT_USERNAME_MAX_LENGTH
                (reads_left segments) (connect segments) U R
                (Nat.le_refl _) E A)
      as (st' & W & _ & _ & [(C & _) | (_ & G)]).
    + exfalso. unfold CLIENT_USERNAME_MAX_LENGTH, len in C. lia.
    + destruct W as (W1 & W2 & _).
      exists (S (reads_left segments)).
      eexists.
      assert (F : authenticate scripted (S (reads_left segments))
                    (connect segments)
                  = (Raise ServerSyntaxError, st')).
      { unfold authenticate, bind. rewrite G. reflexivity. }
      split; [rewrite F; reflexivity|].
      unfold run. rewrite (bind_raise _ _ _ F).
      unfold bind, send_message, send, scripted, close.
      cbn [sent closed buffer pending sock_timeout client move_log].
      split; [reflexivity|].
      cbn [sent closed]. rewrite W1. split; reflexivity.
Qed.

Lemma username_cap_is_12_witness :
  (exists (fuel : nat) (st' : session unit),
      get_message fuel CLIENT_USERNAME_MAX_LENGTH
                  (connect [lit "Mn"; lit "au" ++ [BEL]; [BS] ++ lit "531"])
      = (Ok (lit "Mnau"), st'))
  /\ (exists (fuel : nat) (st' : session unit),
         fst (authenticate scripted fuel
                (connect [lit "abcdefg"; lit "hijk" ++ TERM]))
         = Raise ServerSyntaxError
         /\ run scripted fuel (connect [lit "abcdefg"; lit "hijk" ++ TERM])
            = (Ok tt, st')
         /\ sent st' = on_wire [SERVER_SYNTAX_ERROR]
         /\ closed st' = true).
Proof.
  split.
  - apply (proj1 (proj2 (@username_cap_is_12
                           [lit "Mn"; lit "au" ++ [BEL]; [BS] ++ lit "531"]
                           (lit "Mnau") (lit "531")
                           eq_refl eq_refl eq_refl))).
    + simpl. lia.
    + discriminate.
  - apply (proj2 (proj2 (@username_cap_is_12
                           [lit "abcdefg"; lit "hijk" ++ TERM]
                           (lit "abcdefghijk") []
                           eq_refl eq_refl eq_refl))).
    simpl. lia.
Defined.

(** C5 (as stated). A username of 11 characters is within the 18 of the
    claim, and the reader never returns it: the cap of the code is 12, not
    20, and the session ends on [301 SYNTAX ERROR]. *)
Lemma username_of_11_characters_is_refused :
  let u := lit "abcdefghijk" in
  (length u <= 18)%nat
  /\ CLIENT_USERNAME_MAX_LENGTH <> 20
  /\ (forall (fuel : nat) (st' : session unit),
         get_message fuel CLIENT_USERNAME_MAX_LENGTH (connect [u ++ TERM])
         <> (Ok u, st'))
  /\ sent (snd (run scripted 3 (connect [u ++ TERM])))
     = on_wire [SERVER_SYNTAX_ERROR].
Proof.
  cbv zeta. split; [simpl; lia|]. split; [discriminate|]. split.
  - intros fuel st' G. apply get_message_len in G.
    unfold CLIENT_USERNAME_MAX_LENGTH in G. vm_compute in G.
    apply G. reflexivity.
  - reflexivity.
Qed.

(** ** C6: routing *)

(** C6 (amended). The routing loop aims at the entry corner [(-2, 2)] of
    the sweep, [x] axis first. It stops exactly there; anywhere else one
    round of the loop turns to East when [x < -2], to West when [x > -2],
    and only when [x = -2] to North ([y < 2]) or South ([y > 2]), then
    moves forward and goes round again. An obedient robot whose reports fit
    the cap is so brought to [(-2, 2)]: its moves are first along the [x]
    axis until [x = -2] and only then along the [y] axis until [y = 2]. *)
Theorem routing_aims_at_entry_corner_x_first :
  (forall c : coords,
      (route_to_entry c = None <-> c = DESTINATION_SQUARE)
      /\ (c = DESTINATION_SQUARE ->
          forall (Client : Type) (react : Client -> str -> Client * list str)
                 (fuel : nat) (direction : Z) (st : session Client),
            reach_destination_square react fuel direction c st
            = (Ok (direction, c), st))
      /\ (forall o : orientation,
             route_to_entry c = Some o ->
             (o = East <-> fst c < -2)
             /\ (o = West <-> fst c > -2)
             /\ (o = North <-> fst c = -2 /\ snd c < 2)
             /\ (o = South <-> fst c = -2 /\ snd c > 2)
             /\ forall (Client : Type)
                       (react : Client -> str -> Client * list str)
                       (fuel : nat) (direction : Z) (st : session Client),
                 reach_destination_square react (S fuel) direction c st
                 = (direction' <- turn_to_direction react fuel direction
                                    (code o) ;;
                    c' <- move_forward react fuel c ;;
                    reach_destination_square react fuel direction' c') st))
  /\
  (forall r : robot,
      reportable (position r) ->
      exists (fuel : nat) (h' : orientation) (st' : session robot),
        reach_destination_square obey fuel (code (heading r)) (position r)
                                 (embark r)
        = (Ok (code h', DESTINATION_SQUARE), st')
        /\ client st' = mkRobot DESTINATION_SQUARE h' (secret r)
        /\ move_log st'
           = legs (position r) (route (distance (position r)) (position r))
        /\ Forall x_first (move_log st')).
Proof.
  split.
  - intros c. split; [apply route_to_entry_None|]. split.
    + intros -> Client react fuel direction st. apply reach_done.
    + intros o R.
      assert (Ax : (o = East <-> fst c < -2)
                   /\ (o = West <-> fst c > -2)
                   /\ (o = North <-> fst c = -2 /\ snd c < 2)
                   /\ (o = South <-> fst c = -2 /\ snd c > 2)).
      { destruct c as [x y]. revert R. unfold route_to_entry.
        cbn [fst snd]. rewrite !Z.gtb_ltb.
        destruct (x <? -2) eqn:A;
          [|destruct (-2 <? x) eqn:B;
            [|destruct (y <? 2) eqn:C; [|destruct (2 <? y) eqn:D]]];
          try discriminate; intros R; inversion R; subst o;
          rewrite ?Z.ltb_lt, ?Z.ltb_ge in *;
          repeat split; try discriminate; try reflexivity; try lia;
          try (intros [? ?]; lia). }
      destruct Ax as (A1 & A2 & A3 & A4).
      repeat (split; [assumption|]).
      intros Client react fuel direction st. apply reach_round. exact R.
  - intros r H.
    destruct (@reach_obeyed (distance (position r))
                (distance (position r) + 3) (embark r) eq_refl
                (Nat.le_refl _) (conj eq_refl eq_refl) H)
      as (h' & commands & E).
    exists (distance (position r) + 3)%nat, h'. eexists.
    split; [exact E|].
    cbn [client after_commands move_log embark app secret].
    repeat split. apply route_x_first.
Qed.

Lemma routing_aims_at_entry_corner_x_first_witness :
  route_to_entry (3, 2) = Some West
  /\ (West = West <-> fst (3, 2) > -2)
  /\ reach_destination_square scripted 1 LEFT DESTINATION_SQUARE (connect [])
     = (Ok (LEFT, DESTINATION_SQUARE), connect [])
  /\ (exists (fuel : nat) (h' : orientation) (st' : session robot),
         reach_destination_square obey fuel (code East) (2, -1)
           (embark (mkRobot (2, -1) East (fun _ => [])))
         = (Ok (code h', DESTINATION_SQUARE), st')
         /\ client st' = mkRobot DESTINATION_SQUARE h' (fun _ => [])
         /\ move_log st'
            = legs (2, -1) [(1, -1); (0, -1); (-1, -1); (-2, -1);
                            (-2, 0); (-2, 1); (-2, 2)]
         /\ Forall x_first (move_log st')).
Proof.
  split; [reflexivity|]. split; [|split].
  - apply (proj2 (proj2 (proj1 routing_aims_at_entry_corner_x_first (3, 2)))
                 West).
    reflexivity.
  - apply (proj1 (proj2 (proj1 routing_aims_at_entry_corner_x_first
                                DESTINATION_SQUARE))).
    reflexivity.
  - apply (proj2 routing_aims_at_entry_corner_x_first
                 (mkRobot (2, -1) East (fun _ => []))).
    unfold reportable. cbn. lia.
Defined.

(** C6 (as stated). Towards the centre the rule would send a robot on
    [(-1, 2)] East; the code sends it West. And on [(0, 0)], where the rule
    towards the centre is done, the loop goes on: an obedient robot is
    driven from there to [(-2, 2)]. *)
Lemma routing_does_not_aim_at_the_centre :
  spec_route_to_centre (-1, 2) = Some East
  /\ get_direction_to_dest (-1, 2) DESTINATION_SQUARE = code West
  /\ spec_route_to_centre (0, 0) = None
  /\ (let r := reach_destination_square obey 10 (code North) (0, 0)
                 (embark (mkRobot (0, 0) North (fun _ => []))) in
      fst r = Ok (code North, (-2, 2))
      /\ map snd (move_log (snd r)) = [(-1, 0); (-2, 0); (-2, 1); (-2, 2)]).
Proof. vm_compute. repeat split. Qed.

(** ** C7: a confirmation that is not a number *)

(** C7 (the code departs from the claim). [authenticate] calls
    [parse_number] outside any [try]. When the confirmation holds no space
    and is not a number for [int()], the [ValueError] passes the handlers
    of [run]: nothing is sent after the server code, no [301 SYNTAX ERROR],
    and [finally] closes the connection. *)
Theorem non_numeric_confirmation_is_not_answered :
  forall (Client : Type) (react : Client -> str -> Client * list str)
         (fuel : nat) (st st1 st2 : session Client) (U confirmation : str),
    get_message fuel CLIENT_USERNAME_MAX_LENGTH st = (Ok U, st1) ->
    get_message fuel CLIENT_CONFIRMATION_MAX_LENGTH
      (snd (send_message react
              (py_str ((calculate_hash U + SERVER_KEY) mod MAX_VALUE)) st1))
    = (Ok confirmation, st2) ->
    contains (lit " ") confirmation = false ->
    py_int confirmation = None ->
    exists st' : session Client,
      run react fuel st = (Raise ValueError, st')
      /\ sent st'
         = sent st
           ++ on_wire [py_str ((calculate_hash U + SERVER_KEY) mod MAX_VALUE)]
      /\ closed st' = true.
Proof.
  intros Client react fuel st st1 st2 U confirmation G1 G2 S I.
  assert (A : authenticate react fuel st = (Raise ValueError, st2)).
  { unfold authenticate. rewrite (bind_ok _ _ _ G1).
    rewrite (bind_ok _ _ _ (send_message_eq react _ st1)).
    rewrite (bind_ok _ _ _ G2).
    unfold bind, lift, parse_number. rewrite S, I. reflexivity. }
  eexists. split; [|split].
  - unfold run. rewrite (bind_raise _ _ _ A). reflexivity.
  - cbn [sent]. apply get_message_frame in G1, G2.
    destruct G1 as (S1 & _), G2 as (S2 & _).
    rewrite S2, send_message_sent, S1. reflexivity.
  - reflexivity.
Qed.

Lemma non_numeric_confirmation_is_not_answered_witness :
  exists st' : session unit,
    run scripted 10 (connect [lit "Mnau" ++ TERM; lit "12a4" ++ TERM])
    = (Raise ValueError, st')
    /\ sent st' = [] ++ on_wire [lit "62405"]
    /\ closed st' = true.
Proof.
  apply (@non_numeric_confirmation_is_not_answered unit scripted 10
           (connect [lit "Mnau" ++ TERM; lit "12a4" ++ TERM])
           (connect [lit "12a4" ++ TERM])
           (mkSession [] [] (on_wire [lit "62405"]) TIMEOUT false tt [])
           (lit "Mnau") (lit "12a4")); reflexivity.
Defined.

(** A tab inside the number goes the same way; a space is the syntax fault
    that [parse_number] raises itself, and that one is answered. *)
Example confirmation_with_a_tab_or_a_space :
  let final confirmation :=
    run scripted 10 (connect [lit "Mnau" ++ TERM; confirmation ++ TERM]) in
  fst (final [ "1"%char; "009"%char; "2"%char ]) = Raise ValueError
  /\ sent (snd (final [ "1"%char; "009"%char; "2"%char ]))
     = on_wire [lit "62405"]
  /\ fst (final (lit "1 2")) = Ok tt
  /\ sent (snd (final (lit "1 2")))
     = on_wire [lit "62405"; SERVER_SYNTAX_ERROR].
Proof. repeat split. Qed.

(** ** C8: turning *)

(** C8. For every current and target orientation, a call of
    [turn_to_direction] that returns has sent exactly the turns of the
    table of the specification (none, two left turns when opposite, one
    left turn when the target is 90 degrees left, one right turn when it is
    90 degrees right) and returns the target as the tracked orientation.
    With an obedient robot whose heading is the tracked orientation the
    call does return, and the robot then faces the target, on the cell
    where it was. *)
Theorem turn_to_direction_follows_the_table :
  (forall (Client : Type) (react : Client -> str -> Client * list str)
          (fuel : nat) (current target : orientation)
          (st st' : session Client) (d : Z),
      turn_to_direction react fuel (code current) (code target) st
      = (Ok d, st') ->
      d = code target
      /\ sent st' = sent st ++ on_wire (spec_turns current target))
  /\
  (forall (f : nat) (target : orientation) (st : session robot),
      calm st ->
      reportable (position (client st)) ->
      exists st' : session robot,
        turn_to_direction obey (S (S f)) (code (heading (client st)))
                          (code target) st
        = (Ok (code target), st')
        /\ sent st' = sent st ++ on_wire (spec_turns (heading (client st)) target)
        /\ heading (client st') = target
        /\ position (client st') = position (client st)
        /\ calm st').
Proof.
  split; [exact turn_to_direction_sent|].
  intros f target st C H. eexists. split.
  - apply turn_to_direction_obeyed; assumption.
  - repeat split.
Qed.

Lemma turn_to_direction_follows_the_table_witness :
  let st := connect [lit "OK 0 0" ++ TERM; lit "OK 0 0" ++ TERM] in
  let r := mkRobot (3, -4) East (fun _ => []) in
  (fst (turn_to_direction scripted 3 (code North) (code South) st)
   = Ok (code South)
   /\ sent (snd (turn_to_direction scripted 3 (code North) (code South) st))
      = on_wire [SERVER_TURN_LEFT; SERVER_TURN_LEFT])
  /\ (exists st' : session robot,
         turn_to_direction obey 2 (code East) (code South) (embark r)
         = (Ok (code South), st')
         /\ sent st' = on_wire [SERVER_TURN_RIGHT]
         /\ heading (client st') = South
         /\ position (client st') = (3, -4)
         /\ calm st').
Proof.
  split.
  - split; [reflexivity|].
    apply (proj1 turn_to_direction_follows_the_table unit scripted 3%nat
             North South
             (connect [lit "OK 0 0" ++ TERM; lit "OK 0 0" ++ TERM])
             (snd (turn_to_direction scripted 3 (code North) (code South)
                     (connect [lit "OK 0 0" ++ TERM; lit "OK 0 0" ++ TERM])))
             (code South)).
    reflexivity.
  - apply (proj2 turn_to_direction_follows_the_table 0%nat South
             (embark (mkRobot (3, -4) East (fun _ => [])))).
    + split; reflexivity.
    + unfold reportable. cbn. lia.
Defined.

(** ** C9: what the reader never returns *)




(** ** C10: position reports *)

(** C10. [parse_client_ok] returns a pair of integers or raises the syntax
    fault, whatever the string: every exception of its body is caught. And
    a report is well formed whatever the runs of white space between its
    three pieces (and in front of them): [OK], then two pieces that
    [parse_number] accepts, as in ["OK\t1\t2"]. *)
Theorem parse_client_ok_total_and_whitespace :
  (forall s : str,
      (exists x y : Z, parse_client_ok s = Ok (x, y))
      \/ parse_client_ok s = Raise ServerSyntaxError)
  /\
  (forall (ws0 ws1 ws2 num_1 num_2 : str) (x y : Z),
      forallb isspace ws0 = true ->
      ws1 <> [] -> forallb isspace ws1 = true ->
      ws2 <> [] -> forallb isspace ws2 = true ->
      forallb (fun c => negb (isspace c)) num_1 = true ->
      forallb (fun c => negb (isspace c)) num_2 = true ->
      parse_number num_1 = Ok x ->
      parse_number num_2 = Ok y ->
      parse_client_ok (ws0 ++ CLIENT_OK ++ ws1 ++ num_1 ++ ws2 ++ num_2)
      = Ok (x, y))
  /\
  parse_client_ok [ "O"; "K"; "009"; "1"; "009"; "2" ]%char = Ok (1, 2).
Proof.
  split; [|split].
  - intros s. unfold parse_client_ok, parse_client_ok_try.
    destruct (split 2 s) as [|ok [|num_1 [|num_2 [|]]]]; try tauto.
    destruct (negb (str_eqb ok CLIENT_OK)); [tauto|].
    destruct (parse_number_total num_1) as [[x ->] | [-> | ->]]; try tauto.
    destruct (parse_number_total num_2) as [[y ->] | [-> | ->]]; try tauto.
    left; eauto.
  - exact parse_client_ok_pieces.
  - reflexivity.
Qed.

Lemma parse_client_ok_total_and_whitespace_witness :
  parse_client_ok (lit " OK  -1" ++ [ "009"; "009"; "2"; "2" ]%char)
  = Ok (-1, 22).
Proof.
  apply (proj1 (proj2 parse_client_ok_total_and_whitespace)
               (lit " ") (lit "  ") [ "009"; "009" ]%char
               (lit "-1") (lit "22") (-1) 22);
    try reflexivity; discriminate.
Defined.

(** * Further properties of the code *)

(** ** The framing reader *)

(** [partition] cuts at the first separator: the three parts make up the
    string, and the first holds no terminator. *)
Lemma partition_parts (s : str) :
  forall a m b : str,
    partition TERM s = (a, m, b) ->
    contains TERM a = false
    /\ ((m = [] /\ a = s /\ b = []) \/ (m = TERM /\ s = a ++ TERM ++ b)).
Proof.
  induction s as [|c t IH]; intros a m b.
  - cbn [partition]. intros H; inversion H; subst. split; [reflexivity | tauto].
  - cbn [partition]. destruct (startswith TERM (c :: t)) eqn:E.
    + apply startswith_TERM in E. destruct E as [t' E].
      injection E as -> ->.
      intros H; inversion H; subst. split; [reflexivity|]. right.
      split; reflexivity.
    + destruct (partition TERM t) as [[a' m'] b'] eqn:P.
      intros H; inversion H; subst.
      destruct (IH a' m b eq_refl) as (N & D).
      split.
      * rewrite contains_cons, N, orb_false_r.
        destruct (startswith TERM (c :: a')) eqn:E'; [|reflexivity].
        apply startswith_TERM in E'. destruct E' as [t' E'].
        injection E' as -> ->.
        destruct D as [(-> & <- & ->) | (-> & ->)]; discriminate E.
      * destruct D as [(-> & <- & ->) | (-> & ->)]; [left | right]; auto.
Qed.

Section MoreReader.

Variable Client : Type.
Implicit Types st : session Client.

Lemma parse_buffer_parts st (msg : str) st' :
  parse_buffer st = (Ok msg, st') ->
  contains TERM msg = false
  /\ buffer st = msg ++ TERM ++ buffer st'
  /\ pending st' = pending st.
Proof.
  unfold parse_buffer.
  destruct (partition TERM (buffer st)) as [[a m] b] eqn:P.
  destruct (partition_parts _ P) as (N & D).
  destruct m as [|x m]; [discriminate|].
  intros H; inversion H; subst.
  destruct D as [(D & _) | (D & E)]; [discriminate D|].
  rewrite D in *. cbn [buffer pending set_buffer]. auto.
Qed.

(** What [get_message] returns holds no terminator. *)
Lemma get_message_no_TERM (fuel : nat) :
  forall (max_length : Z) st st' (msg : str),
    get_message fuel max_length st = (Ok msg, st') ->
    contains TERM msg = false.
Proof.
  induction fuel as [|f IH]; intros max_length st st' msg.
  - discriminate.
  - rewrite get_message_S. unfold bind at 1.
    destruct (get_message_wait f max_length st) as [[[]|e|] s1];
      try discriminate.
    unfold bind at 1.
    destruct (parse_buffer s1) as [[m|e|] s2] eqn:P; try discriminate.
    destruct (str_eqb m CLIENT_RECHARGING).
    + unfold bind at 1.
      destruct (recharging_with (get_message f) s2) as [[[]|e|] s3];
        try discriminate.
      apply IH.
    + destruct (len m >? max_length - 2); unfold raise, ret;
        intros H; inversion H; subst.
      apply (parse_buffer_parts _ P).
Qed.

End MoreReader.

(** X1. Whatever it reads and however it ends, [get_message] sends nothing,
    does not close the connection, and leaves the peer and the log of moves
    as they were. *)
Theorem reader_only_reads :
  forall (Client : Type) (fuel : nat) (max_length : Z) (st : session Client),
    let st' := snd (get_message fuel max_length st) in
    sent st' = sent st /\ closed st' = closed st
    /\ client st' = client st /\ move_log st' = move_log st.
Proof.
  intros Client fuel max_length st.
  destruct (get_message fuel max_length st) as [r st'] eqn:G.
  exact (get_message_frame _ _ _ G).
Qed.

(** X2. A message that [get_message] returns is at most [max_length - 2]
    characters long and holds no terminator. *)
Theorem returned_message_fits_and_is_whole :
  forall (Client : Type) (fuel : nat) (max_length : Z)
         (st st' : session Client) (msg : str),
    get_message fuel max_length st = (Ok msg, st') ->
    len msg <= max_length - 2 /\ contains TERM msg = false.
Proof.
  intros Client fuel max_length st st' msg G. split.
  - eapply get_message_len; eassumption.
  - eapply get_message_no_TERM; eassumption.
Qed.

Lemma returned_message_fits_and_is_whole_witness :
  len (lit "OK 0 1") <= CLIENT_OK_MAX_LENGTH - 2
  /\ contains TERM (lit "OK 0 1") = false.
Proof.
  apply (@returned_message_fits_and_is_whole unit 2 CLIENT_OK_MAX_LENGTH
           (connect [lit "OK 0 1" ++ TERM ++ lit "OK"]) 
           (mkSession (lit "OK") [] [] TIMEOUT false tt [])
           (lit "OK 0 1")).
  reflexivity.
Defined.

(** X3. However the bytes are cut into segments, what is in front of the
    first terminator is the message: it is returned when it fits the cap,
    what follows the terminator staying in the buffer and on the wire, and
    it raises the syntax fault when it does not fit. *)
Theorem first_message_whatever_the_segments :
  forall (Client : Type) (u rest : str) (max_length : Z) (n : nat)
         (st : session Client),
    contains TERM u = false ->
    u <> CLIENT_RECHARGING ->
    (reads_left (pending st) <= n)%nat ->
    buffer st ++ concat (pending st) = u ++ TERM ++ rest ->
    forallb is_ascii (concat (pending st)) = true ->
    (len u <= max_length - 2 ->
     exists st' : session Client,
       get_message (S n) max_length st = (Ok u, st')
       /\ buffer st' ++ concat (pending st') = rest)
    /\ (max_length - 2 < len u ->
        exists st' : session Client,
          get_message (S n) max_length st = (Raise ServerSyntaxError, st')).
Proof.
  intros Client u rest max_length n st U R N E A.
  destruct (@get_message_delivers Client u rest max_length n st U R N E A)
    as (st' & _ & _ & _ & [(L & G & B) | (L & G)]);
    (split; intros L'; [|]); try lia; eauto.
Qed.

Lemma first_message_whatever_the_segments_witness :
  (exists st' : session unit,
      get_message 21 CLIENT_OK_MAX_LENGTH
                  (connect [lit "OK"; lit " 0 "; lit "1" ++ [BEL]; BS :: lit "OK 0"])
      = (Ok (lit "OK 0 1"), st')
      /\ buffer st' ++ concat (pending st') = lit "OK 0")
  /\ (exists st' : session unit,
         get_message 21 CLIENT_CONFIRMATION_MAX_LENGTH
                     (connect [lit "123"; lit "456" ++ TERM])
         = (Raise ServerSyntaxError, st')).
Proof.
  split.
  - apply (proj1 (@first_message_whatever_the_segments unit
                    (lit "OK 0 1") (lit "OK 0") CLIENT_OK_MAX_LENGTH 20
                    (connect [lit "OK"; lit " 0 "; lit "1" ++ [BEL];
                              BS :: lit "OK 0"])
                    eq_refl ltac:(discriminate) ltac:(vm_compute; lia)
                    eq_refl eq_refl)).
    vm_compute. discriminate.
  - apply (proj2 (@first_message_whatever_the_segments unit
                    (lit "123456") [] CLIENT_CONFIRMATION_MAX_LENGTH 20
                    (connect [lit "123"; lit "456" ++ TERM])
                    eq_refl ltac:(discriminate) ltac:(vm_compute; lia)
                    eq_refl eq_refl)).
    vm_compute. reflexivity.
Defined.

(** *** Termination and the size of the buffer *)

Section ReaderMeasure.

Variable Client : Type.
Implicit Types st : session Client.

Lemma recv_rest (n : nat) st (seg : str) (others : list str) :
  pending st = seg :: others ->
  sock_timeout (snd (recv n st)) = sock_timeout st
  /\ (length (pending (snd (recv n st))) <= length (seg :: others))%nat.
Proof.
  intros P. unfold recv. rewrite P. cbn [snd sock_timeout pending set_pending].
  split; [reflexivity|]. destruct (skipn n seg); cbn [length]; lia.
Qed.

(** A read either times out, nothing being on its way, or takes at most
    the 128 first bytes of the first segment. *)
Lemma recv_cases st :
  (pending st = [] /\ recv 128 st = (Raise SocketTimeout, st))
  \/ exists (raw : str) st1,
      recv 128 st = (Ok raw, st1)
      /\ buffer st1 = buffer st
      /\ sock_timeout st1 = sock_timeout st
      /\ (length raw <= 128)%nat
      /\ (length raw + length (concat (pending st1))
          = length (concat (pending st)))%nat
      /\ (length (pending st1) <= length (pending st))%nat
      /\ (reads_left (pending st1) < reads_left (pending st))%nat.
Proof.
  destruct (pending st) as [|seg others] eqn:P.
  - left. split; [reflexivity|]. unfold recv. rewrite P. reflexivity.
  - right. destruct (recv_segment st P) as (st1 & R & B & _ & C & M).
    exists (firstn 128 seg), st1. rewrite P in *.
    split; [exact R|]. split; [exact B|].
    assert (T : sock_timeout st1 = sock_timeout st
                /\ (length (pending st1) <= length (seg :: others))%nat).
    { pose proof (recv_rest 128 st P) as Q. rewrite R in Q. exact Q. }
    destruct T as [T1 T2]. split; [exact T1|].
    split; [apply firstn_le_length|].
    split; [rewrite <- C, length_app; reflexivity|].
    split; [exact T2 | exact M].
Qed.

Lemma get_message_wait_backlog (fuel : nat) :
  forall (max_length : Z) st (r : result unit) st',
    get_message_wait fuel max_length st = (r, st') ->
    (backlog st' <= backlog st)%nat
    /\ (r = OutOfFuel -> (fuel <= reads_left (pending st))%nat)
    /\ len (buffer st') <= Z.max (len (buffer st)) (max_length + 127).
Proof.
  induction fuel as [|f IH]; intros max_length st r st';
    rewrite get_message_wait_eq;
    destruct (contains TERM (buffer st));
    try (intros H; inversion H; subst;
         split; [lia|]; split; [discriminate | lia]);
    destruct (max_length - len (buffer st) <=? 0) eqn:C;
    try (intros H; inversion H; subst;
         split; [lia|]; split; [discriminate | lia]).
  - intros H; inversion H; subst. split; [lia|]. split; [lia | lia].
  - apply Z.leb_gt in C.
    destruct (recv_cases st) as [(P & R) | (raw & st1 & R & B & T & L128 & LC & LP & M)];
      rewrite R.
    + intros H; inversion H; subst.
      split; [lia|]. split; [discriminate | lia].
    + destruct (len raw >? 0).
      * destruct (decode raw) as [decoded|e|] eqn:D.
        -- assert (decoded = raw) as ->.
           { unfold decode in D. destruct (forallb is_ascii raw);
               inversion D; reflexivity. }
           intros H. apply IH in H. destruct H as (H1 & H2 & H3).
           unfold backlog, reads_left, len in *.
           cbn [buffer pending set_buffer] in *.
           rewrite B, length_app in *.
           split; [lia|]. split; [intros E; specialize (H2 E); lia | lia].
        -- intros H; inversion H; subst.
           unfold backlog, reads_left in *. rewrite B.
           split; [lia|]. split; [discriminate | lia].
        -- unfold decode in D. destruct (forallb is_ascii raw); discriminate D.
      * intros H. apply IH in H. destruct H as (H1 & H2 & H3).
        unfold backlog, reads_left, len in *. rewrite B in *.
        split; [lia|]. split; [intros E; specialize (H2 E); lia | lia].
Qed.

Lemma parse_buffer_backlog st (msg : str) st' :
  parse_buffer st = (Ok msg, st') ->
  (backlog st' + 2 <= backlog st)%nat
  /\ len (buffer st') <= len (buffer st).
Proof.
  intros P. destruct (parse_buffer_parts _ P) as (_ & B & Q).
  unfold backlog, len. rewrite Q, B, !length_app. cbn [length TERM]. lia.
Qed.

Lemma parse_buffer_raise_state st (e : exn) st' :
  parse_buffer st = (Raise e, st') -> st' = st.
Proof.
  unfold parse_buffer. destruct (partition TERM (buffer st)) as [[a m] b].
  destruct m; intros H; inversion H; reflexivity.
Qed.

(** [get_message] reads on: what is left to read never grows, enough fuel
    is never used up, and the buffer stays within the cap plus one read. *)
Lemma get_message_measure (fuel : nat) :
  forall (max_length : Z) st (r : result str) st',
    get_message fuel max_length st = (r, st') ->
    (backlog st' <= backlog st)%nat
    /\ (r = OutOfFuel -> (fuel < backlog st + 2)%nat)
    /\ len (buffer st')
       <= Z.max (len (buffer st)) (Z.max max_length 12 + 127).
Proof.
  induction fuel as [|f IH]; intros max_length st r st'.
  - intros H; inversion H; subst. split; [lia|]. split; [lia | lia].
  - rewrite get_message_S. unfold bind at 1.
    destruct (get_message_wait f max_length st) as [[[]|e|] s1] eqn:W;
      apply get_message_wait_backlog in W; destruct W as (W1 & W2 & W3).
    2:{ intros H; inversion H; subst. split; [lia|].
        split; [discriminate | lia]. }
    2:{ intros H; inversion H; subst. split; [lia|].
        split; [intros _; specialize (W2 eq_refl); unfold backlog; lia | lia]. }
    unfold bind at 1.
    destruct (parse_buffer s1) as [[m|e|] s2] eqn:P.
    3:{ unfold parse_buffer in P.
        destruct (partition TERM (buffer s1)) as [[a m] b].
        destruct m; discriminate P. }
    2:{ apply parse_buffer_raise_state in P. subst s2.
        intros H; inversion H; subst. split; [lia|].
        split; [discriminate | lia]. }
    apply parse_buffer_backlog in P. destruct P as (P1 & P2).
    destruct (str_eqb m CLIENT_RECHARGING).
    + unfold bind at 1, recharging_with, bind at 1.
      unfold settimeout at 1.
      unfold bind at 1.
      match goal with
      | |- context [get_message f CLIENT_FULL_POWER_MAX_LENGTH ?s] =>
          destruct (get_message f CLIENT_FULL_POWER_MAX_LENGTH s)
            as [[m2|e|] s4] eqn:G; apply IH in G;
            unfold backlog in G; cbn [buffer pending] in G;
            fold (backlog s2) in G; destruct G as (G1 & G2 & G3)
      end.
      2:{ intros H; inversion H; subst. unfold backlog in *. split; [lia|].
          split; [discriminate|]. unfold CLIENT_FULL_POWER_MAX_LENGTH in *. lia. }
      2:{ intros H; inversion H; subst. unfold backlog in *. split; [lia|].
          split; [intros _; specialize (G2 eq_refl); lia|].
          unfold CLIENT_FULL_POWER_MAX_LENGTH in *. lia. }
      destruct (str_eqb m2 CLIENT_FULL_POWER).
      * unfold settimeout.
        match goal with
        | |- context [get_message f max_length ?s] =>
            destruct (get_message f max_length s) as [r5 s5] eqn:G5;
              apply IH in G5; unfold backlog in G5;
              cbn [buffer pending] in G5; fold (backlog s4) in G5;
              destruct G5 as (H1 & H2 & H3)
        end.
        intros H; inversion H; subst. unfold backlog in *.
        split; [lia|].
        split; [intros E; specialize (H2 E); lia|].
        unfold CLIENT_FULL_POWER_MAX_LENGTH in *. lia.
      * unfold raise. intros H; inversion H; subst. unfold backlog in *.
        split; [lia|]. split; [discriminate|].
        unfold CLIENT_FULL_POWER_MAX_LENGTH in *. lia.
    + destruct (len m >? max_length - 2); unfold raise, ret;
        intros H; inversion H; subst;
        (split; [lia|]; split; [discriminate | lia]).
Qed.

End ReaderMeasure.


(** X5. The buffer stays bounded: after [get_message] it holds no more
    than it held before or than the cap (12 at least, the cap of the
    messages of a recharge) and the 127 bytes by which one read of 128 can
    pass it. *)
Theorem buffer_stays_bounded :
  forall (Client : Type) (fuel : nat) (max_length : Z) (st : session Client),
    len (buffer (snd (get_message fuel max_length st)))
    <= Z.max (len (buffer st)) (Z.max max_length 12 + 127).
Proof.
  intros Client fuel max_length st.
  destruct (get_message fuel max_length st) as [r st'] eqn:G.
  apply (get_message_measure _ _ _ G).
Qed.

(** *** Recharging *)

Section Recharge.

Variable Client : Type.
Implicit Types st : session Client.

Lemma get_message_wait_timeout (fuel : nat) :
  forall (max_length : Z) st (r : result unit) st',
    get_message_wait fuel max_length st = (r, st') ->
    sock_timeout st' = sock_timeout st.
Proof.
  induction fuel as [|f IH]; intros max_length st r st';
    rewrite get_message_wait_eq;
    destruct (contains TERM (buffer st));
    try (intros H; inversion H; subst; reflexivity);
    destruct (max_length - len (buffer st) <=? 0);
    try (intros H; inversion H; subst; reflexivity).
  destruct (recv_cases st)
    as [(P & R) | (raw & st1 & R & B & T & _)]; rewrite R.
  - intros H; inversion H; subst; reflexivity.
  - destruct (len raw >? 0).
    + destruct (decode raw).
      * intros H. apply IH in H. rewrite H. exact T.
      * intros H; inversion H; subst. exact T.
      * intros H; inversion H; subst. exact T.
    + intros H. apply IH in H. rewrite H. exact T.
Qed.

(** A message other than [RECHARGING] is read under the time-out in
    force. *)
Lemma get_message_delivers_timeout (u rest : str) (max_length : Z) (n : nat)
      st :
  contains TERM u = false ->
  u <> CLIENT_RECHARGING ->
  (reads_left (pending st) <= n)%nat ->
  buffer st ++ concat (pending st) = u ++ TERM ++ rest ->
  forallb is_ascii (concat (pending st)) = true ->
  sock_timeout (snd (get_message (S n) max_length st)) = sock_timeout st.
Proof.
  intros U R N E A.
  destruct (@get_message_wait_delivers Client u rest max_length U n st N E A)
    as (s1 & _ & _ & _ & [(G & rest' & B & _) | (G & _)]);
    pose proof (get_message_wait_timeout _ _ _ G) as T;
    rewrite get_message_S, ?(bind_ok _ _ _ G), ?(bind_raise _ _ _ G);
    [|exact T].
  rewrite (bind_ok _ _ _ (parse_buffer_found _ _ _ B U)).
  apply str_eqb_neq in R. rewrite R.
  destruct (len u >? max_length - 2); exact T.
Qed.

End Recharge.

(** X6. A recharge is transparent, however the bytes are cut into
    segments: [RECHARGING], then [FULL POWER], then a message that fits the
    cap (of 12 at least, for [RECHARGING] itself to pass the loop) give
    that message, the rest staying to be read and the normal time-out being
    in force again. *)
Theorem recharge_is_transparent :
  forall (Client : Type) (u rest : str) (max_length : Z) (n : nat)
         (st : session Client),
    contains TERM u = false ->
    u <> CLIENT_RECHARGING ->
    len u <= max_length - 2 ->
    12 <= max_length ->
    (reads_left (pending st) <= n)%nat ->
    buffer st ++ concat (pending st)
    = CLIENT_RECHARGING ++ TERM ++ CLIENT_FULL_POWER ++ TERM
      ++ u ++ TERM ++ rest ->
    forallb is_ascii (concat (pending st)) = true ->
    exists st' : session Client,
      get_message (S (S n)) max_length st = (Ok u, st')
      /\ sock_timeout st' = TIMEOUT
      /\ buffer st' ++ concat (pending st') = rest
      /\ sent st' = sent st.
Proof.
  intros Client u rest max_length n st U R L M N E A.
  destruct (@get_message_wait_delivers Client CLIENT_RECHARGING
              (CLIENT_FULL_POWER ++ TERM ++ u ++ TERM ++ rest) max_length
              eq_refl (S n) st ltac:(lia) E A)
    as (s1 & W1 & N1 & A1 & [(G & rest' & B & Q) | (_ & C)]);
    [|change (len CLIENT_RECHARGING) with 10 in C; lia].
  rewrite get_message_S, (bind_ok _ _ _ G).
  rewrite (bind_ok _ _ _ (parse_buffer_found _ _ _ B eq_refl)).
  rewrite str_eqb_refl.
  set (s3 := mkSession rest' (pending s1) (sent s1) TIMEOUT_RECHARGING
               (closed s1) (client s1) (move_log s1)).
  assert (N3 : (reads_left (pending s3) <= n)%nat) by (cbn [pending s3]; lia).
  destruct (@get_message_delivers Client CLIENT_FULL_POWER
              (u ++ TERM ++ rest) CLIENT_FULL_POWER_MAX_LENGTH n s3
              eq_refl ltac:(discriminate) N3 Q A1)
    as (s4 & W4 & N4 & A4 & [(_ & G4 & Q4) | (C & _)]);
    [|vm_compute in C; discriminate C].
  set (s5 := mkSession (buffer s4) (pending s4) (sent s4) TIMEOUT
               (closed s4) (client s4) (move_log s4)).
  assert (N5 : (reads_left (pending s5) <= n)%nat) by (cbn [pending s5 s3] in *; lia).
  destruct (@get_message_delivers Client u rest max_length n s5 U R N5 Q4 A4)
    as (s6 & W6 & _ & _ & [(_ & G6 & Q6) | (C & _)]); [|lia].
  pose proof (@get_message_delivers_timeout Client u rest max_length n s5
                U R N5 Q4 A4) as T6.
  rewrite G6 in T6. cbn [snd sock_timeout s5] in T6.
  exists s6.
  split.
  - assert (RW : recharging_with (get_message (S n)) (set_buffer rest' s1)
                 = (Ok tt, s5)).
    { unfold recharging_with.
      rewrite (bind_ok _ _ _
                 (eq_refl : settimeout TIMEOUT_RECHARGING (set_buffer rest' s1)
                            = (Ok tt, s3))).
      rewrite (bind_ok _ _ _ G4). reflexivity. }
    rewrite (bind_ok _ _ _ RW). exact G6.
  - split; [exact T6|]. split; [exact Q6|].
    destruct W1 as (a & _), W4 as (b & _), W6 as (c & _).
    cbn [sent s5 s3] in *. congruence.
Qed.

Lemma recharge_is_transparent_witness :
  exists st' : session unit,
    get_message 40 CLIENT_OK_MAX_LENGTH
      (connect [CLIENT_RECHARGING; TERM ++ lit "FULL ";
                lit "POWER" ++ TERM ++ lit "OK 0 1" ++ TERM])
    = (Ok (lit "OK 0 1"), st')
    /\ sock_timeout st' = TIMEOUT
    /\ buffer st' ++ concat (pending st') = []
    /\ sent st' = [].
Proof.
  apply (@recharge_is_transparent unit (lit "OK 0 1") []
           CLIENT_OK_MAX_LENGTH 38
           (connect [CLIENT_RECHARGING; TERM ++ lit "FULL ";
                     lit "POWER" ++ TERM ++ lit "OK 0 1" ++ TERM]));
    try reflexivity; try discriminate; vm_compute; try lia; discriminate.
Defined.



(** *** A flood, and bytes that are not ASCII *)

Lemma contains_prefix (sub a b : str) :
  contains sub (a ++ b) = false -> contains sub a = false.
Proof.
  assert (P : forall p s t, startswith p s = true ->
                            startswith p (s ++ t) = true).
  { induction p as [|x p IH]; intros [|y s] t; cbn [startswith app];
      try congruence.
    rewrite !andb_true_iff. intros [-> H]. auto. }
  induction a as [|c a IH].
  - destruct sub as [|x sub]; [destruct b; discriminate | reflexivity].
  - rewrite <- app_comm_cons, !contains_cons, !orb_false_iff.
    intros [H1 H2]. split; [|auto].
    destruct (startswith sub (c :: a)) eqn:E; [|reflexivity].
    apply (P _ _ b) in E. cbn [app] in E. congruence.
Qed.

Section Flood.

Variable Client : Type.
Implicit Types st : session Client.

Lemma get_message_wait_flood (max_length : Z) (n : nat) :
  forall st,
    (reads_left (pending st) < n)%nat ->
    contains TERM (buffer st ++ concat (pending st)) = false ->
    forallb is_ascii (concat (pending st)) = true ->
    fst (get_message_wait n max_length st)
    = if max_length <=? len (buffer st ++ concat (pending st))
      then Raise ServerSyntaxError else Raise SocketTimeout.
Proof.
  induction n as [|n IH]; intros st N T A; [lia|].
  rewrite get_message_wait_eq, (contains_prefix _ _ _ T).
  destruct (max_length - len (buffer st) <=? 0) eqn:C.
  - apply Z.leb_le in C.
    replace (max_length <=? len (buffer st ++ concat (pending st))) with true;
      [reflexivity|].
    symmetry. apply Z.leb_le. unfold len in *. rewrite length_app. lia.
  - apply Z.leb_gt in C.
    destruct (pending st) as [|seg others] eqn:P.
    + unfold recv. rewrite P. cbn [concat fst]. rewrite app_nil_r.
      replace (max_length <=? len (buffer st)) with false;
        [reflexivity | symmetry; apply Z.leb_gt; lia].
    + destruct (recv_segment st P) as (st1 & R & B & _ & Q & M).
      rewrite P in *. rewrite R. rewrite <- Q in T, A |- *.
      rewrite forallb_app in A. apply andb_true_iff in A.
      destruct A as [A1 A2].
      destruct (len (firstn 128 seg) >? 0) eqn:Z.
      * unfold decode. rewrite A1.
        rewrite IH; cbn [buffer pending set_buffer];
          rewrite ?B, <- ?app_assoc; trivial. lia.
      * assert (F : firstn 128 seg = []).
        { rewrite Z.gtb_ltb in Z. apply Z.ltb_ge in Z. unfold len in Z.
          destruct (firstn 128 seg); [reflexivity | simpl in Z; lia]. }
        rewrite F in *. cbn [app] in *.
        rewrite IH; rewrite ?B; trivial. lia.
Qed.

End Flood.

(** *** A peer that hung up *)

Section HungUp.

Variable Client : Type.
Implicit Types st : session Client.

Lemma recv_from_connected (n : nat) st : recv_from false n st = recv n st.
Proof. unfold recv_from, recv. destruct (pending st); reflexivity. Qed.

Lemma get_message_wait_from_eq (hung_up : bool) fuel max_length st :
  get_message_wait_from hung_up fuel max_length st =
  if contains TERM (buffer st) then (Ok tt, st)
  else if max_length - len (buffer st) <=? 0
       then (Raise ServerSyntaxError, st)
  else match fuel with
       | O => (OutOfFuel, st)
       | S f =>
           match recv_from hung_up 128 st with
           | (Ok raw_data, st1) =>
               if len raw_data >? 0 then
                 match decode raw_data with
                 | Ok decoded =>
                     get_message_wait_from hung_up f max_length
                       (set_buffer (buffer st1 ++ decoded) st1)
                 | Raise e => (Raise e, st1)
                 | OutOfFuel => (OutOfFuel, st1)
                 end
               else get_message_wait_from hung_up f max_length st1
           | (Raise e, st1) => (Raise e, st1)
           | (OutOfFuel, st1) => (OutOfFuel, st1)
           end
       end.
Proof.
  destruct fuel; simpl; destruct (contains TERM (buffer st)); try reflexivity;
    destruct (contains [BEL] (buffer st));
    destruct (max_length - len (buffer st) <=? 0); try reflexivity.
  all: unfold bind, lift; destruct (recv_from hung_up 128 st) as [[raw| |] st1];
    try reflexivity; destruct (len raw >? 0); try reflexivity;
    destruct (decode raw); reflexivity.
Qed.

Lemma get_message_wait_from_connected (fuel : nat) :
  forall (max_length : Z) st,
    get_message_wait_from false fuel max_length st
    = get_message_wait fuel max_length st.
Proof.
  induction fuel as [|f IH]; intros max_length st;
    rewrite get_message_wait_from_eq, get_message_wait_eq;
    [reflexivity|].
  destruct (contains TERM (buffer st)); [reflexivity|].
  destruct (max_length - len (buffer st) <=? 0); [reflexivity|].
  rewrite recv_from_connected.
  destruct (recv 128 st) as [[raw|e|] s1]; try reflexivity.
  destruct (len raw >? 0); [|apply IH].
  destruct (decode raw); try reflexivity. apply IH.
Qed.

(** With a peer that keeps the connection open, the reader is
    [get_message]. *)
Lemma get_message_from_connected (fuel : nat) :
  forall (max_length : Z) st,
    get_message_from false fuel max_length st
    = get_message fuel max_length st.
Proof.
  induction fuel as [|f IH]; intros max_length st; [reflexivity|].
  cbn [get_message_from get_message]. unfold bind, recharging_with, bind.
  rewrite get_message_wait_from_connected.
  destruct (get_message_wait f max_length st) as [[[]|e|] s1];
    try reflexivity.
  destruct (parse_buffer s1) as [[msg|e|] s2]; try reflexivity.
  destruct (str_eqb msg CLIENT_RECHARGING); [|reflexivity].
  destruct (settimeout TIMEOUT_RECHARGING s2) as [[[]|e|] s3];
    try reflexivity.
  rewrite IH.
  destruct (get_message f CLIENT_FULL_POWER_MAX_LENGTH s3)
    as [[m2|e|] s4]; try reflexivity.
  destruct (str_eqb m2 CLIENT_FULL_POWER); [|reflexivity].
  destruct (settimeout TIMEOUT s4) as [[[]|e|] s5]; try reflexivity.
  apply IH.
Qed.

(** Once the peer has hung up and nothing is left on its way, the loop
    reads [b''] and goes round: whatever the fuel, it is not through. *)
Lemma get_message_wait_spins (max_length : Z) (fuel : nat) :
  forall st,
    pending st = [] ->
    contains TERM (buffer st) = false ->
    len (buffer st) < max_length ->
    get_message_wait_from true fuel max_length st = (OutOfFuel, st).
Proof.
  induction fuel as [|f IH]; intros st P T L;
    rewrite get_message_wait_from_eq, T;
    (replace (max_length - len (buffer st) <=? 0) with false
      by (symmetry; apply Z.leb_gt; lia)); [reflexivity|].
  unfold recv_from. rewrite P.
  change (len [] >? 0) with false. cbv iota. apply IH; assumption.
Qed.

Lemma get_message_wait_hung_up (max_length : Z) (n : nat) :
  forall st,
    (reads_left (pending st) < n)%nat ->
    contains TERM (buffer st ++ concat (pending st)) = false ->
    forallb is_ascii (concat (pending st)) = true ->
    fst (get_message_wait_from true n max_length st)
    = if max_length <=? len (buffer st ++ concat (pending st))
      then Raise ServerSyntaxError else OutOfFuel.
Proof.
  induction n as [|n IH]; intros st N T A; [lia|].
  destruct (pending st) as [|seg others] eqn:P.
  - cbn [concat] in *. rewrite app_nil_r in *.
    destruct (max_length <=? len (buffer st)) eqn:C.
    + apply Z.leb_le in C. rewrite get_message_wait_from_eq, T.
      replace (max_length - len (buffer st) <=? 0) with true;
        [reflexivity | symmetry; apply Z.leb_le; lia].
    + apply Z.leb_gt in C.
      rewrite get_message_wait_spins; try assumption. reflexivity.
  - rewrite get_message_wait_from_eq, (contains_prefix _ _ _ T).
    destruct (max_length - len (buffer st) <=? 0) eqn:C.
    + apply Z.leb_le in C.
      replace (max_length <=? len (buffer st ++ concat (seg :: others)))
        with true; [reflexivity|].
      symmetry. apply Z.leb_le. unfold len in *. rewrite length_app. lia.
    + apply Z.leb_gt in C.
      assert (R' : recv_from true 128 st = recv 128 st)
        by (unfold recv_from, recv; rewrite P; reflexivity).
      rewrite R'.
      destruct (recv_segment st P) as (st1 & R & B & _ & Q & M).
      rewrite P in *. rewrite R. rewrite <- Q in T, A |- *.
      rewrite forallb_app in A. apply andb_true_iff in A.
      destruct A as [A1 A2].
      destruct (len (firstn 128 seg) >? 0) eqn:Z.
      * unfold decode. rewrite A1.
        rewrite IH; cbn [buffer pending set_buffer];
          rewrite ?B, <- ?app_assoc; trivial. lia.
      * assert (F : firstn 128 seg = []).
        { rewrite Z.gtb_ltb in Z. apply Z.ltb_ge in Z. unfold len in Z.
          destruct (firstn 128 seg); [reflexivity | simpl in Z; lia]. }
        rewrite F in *. cbn [app] in *.
        rewrite IH; rewrite ?B; trivial. lia.
Qed.

End HungUp.

(** X4. With a peer that keeps the connection open, so that a read with
    nothing on its way ends in the time-out, [get_message] comes to an end:
    with fuel above the bytes buffered, the bytes on their way and the
    number of their segments, it returns or raises, and what is left to
    read has not grown. (With a peer that hung up it need not: X8.) *)
Theorem reader_terminates :
  forall (Client : Type) (fuel : nat) (max_length : Z) (st : session Client),
    (backlog st + 2 <= fuel)%nat ->
    fst (get_message_from false fuel max_length st) <> OutOfFuel
    /\ (backlog (snd (get_message_from false fuel max_length st))
        <= backlog st)%nat.
Proof.
  intros Client fuel max_length st F.
  rewrite get_message_from_connected.
  destruct (get_message fuel max_length st) as [r st'] eqn:G.
  destruct (get_message_measure _ _ _ G) as (B & O & _).
  split; [|exact B]. cbn [fst]. intros E. specialize (O E). lia.
Qed.

Lemma reader_terminates_witness :
  let st := connect [CLIENT_RECHARGING ++ TERM; CLIENT_RECHARGING ++ TERM] in
  fst (get_message_from false 28 CLIENT_OK_MAX_LENGTH st) <> OutOfFuel
  /\ (backlog (snd (get_message_from false 28 CLIENT_OK_MAX_LENGTH st))
      <= backlog st)%nat.
Proof.
  apply (@reader_terminates unit 28 CLIENT_OK_MAX_LENGTH
           (connect [CLIENT_RECHARGING ++ TERM; CLIENT_RECHARGING ++ TERM])).
  vm_compute. lia.
Defined.

(** X8. Bytes without a terminator, however they are cut into segments:
    the reader raises the syntax fault as soon as its buffer holds
    [max_length] of them, so whenever [max_length] bytes or more are sent.
    With fewer, it waits until the read times out if the peer keeps the
    connection open; if the peer hung up, the loop reads [b''] again and
    again and never ends: whatever the fuel, it is not through. *)
Theorem bytes_without_terminator :
  forall (Client : Type) (hung_up : bool) (max_length : Z) (n : nat)
         (st : session Client),
    (reads_left (pending st) < n)%nat ->
    contains TERM (buffer st ++ concat (pending st)) = false ->
    forallb is_ascii (concat (pending st)) = true ->
    fst (get_message_from hung_up (S n) max_length st)
    = if max_length <=? len (buffer st ++ concat (pending st))
      then Raise ServerSyntaxError
      else if hung_up then OutOfFuel else Raise SocketTimeout.
Proof.
  intros Client hung_up max_length n st N T A.
  assert (W : fst (get_message_wait_from hung_up n max_length st)
              = if max_length <=? len (buffer st ++ concat (pending st))
                then Raise ServerSyntaxError
                else if hung_up then OutOfFuel else Raise SocketTimeout).
  { destruct hung_up.
    - apply get_message_wait_hung_up; assumption.
    - rewrite get_message_wait_from_connected.
      apply get_message_wait_flood; assumption. }
  cbn [get_message_from]. unfold bind at 1.
  destruct (get_message_wait_from hung_up n max_length st) as [[[]|e|] s1];
    cbn [fst] in *.
  all: destruct (max_length <=? len (buffer st ++ concat (pending st)));
    destruct hung_up; inversion W; reflexivity.
Qed.

Lemma bytes_without_terminator_witness :
  fst (get_message_from false 30 CLIENT_CONFIRMATION_MAX_LENGTH
         (connect [lit "12"; lit "34"; lit "56"; lit "78"; lit "9"]))
  = Raise ServerSyntaxError
  /\ fst (get_message_from false 30 CLIENT_CONFIRMATION_MAX_LENGTH
            (connect [lit "12"; lit "34"; lit "56"]))
     = Raise SocketTimeout
  /\ fst (get_message_from true 30 CLIENT_USERNAME_MAX_LENGTH
            (connect [lit "ab"]))
     = OutOfFuel.
Proof.
  split; [|split].
  - apply (@bytes_without_terminator unit false
             CLIENT_CONFIRMATION_MAX_LENGTH 29
             (connect [lit "12"; lit "34"; lit "56"; lit "78"; lit "9"]));
      try reflexivity. vm_compute. lia.
  - apply (@bytes_without_terminator unit false
             CLIENT_CONFIRMATION_MAX_LENGTH 29
             (connect [lit "12"; lit "34"; lit "56"]));
      try reflexivity. vm_compute. lia.
  - apply (@bytes_without_terminator unit true
             CLIENT_USERNAME_MAX_LENGTH 29 (connect [lit "ab"]));
      try reflexivity. vm_compute. lia.
Defined.

(** X9. A byte above 127 in what is read ends the session without an
    answer: [decode] raises [UnicodeDecodeError], which no handler of [run]
    catches; nothing is sent and [finally] closes the connection. *)
Theorem byte_above_127_is_not_answered :
  forall (Client : Type) (react : Client -> str -> Client * list str)
         (fuel : nat) (st : session Client) (seg : str) (others : list str),
    buffer st = [] ->
    pending st = seg :: others ->
    forallb is_ascii (firstn 128 seg) = false ->
    exists st' : session Client,
      run react (S (S fuel)) st = (Raise UnicodeDecodeError, st')
      /\ sent st' = sent st
      /\ closed st' = true.
Proof.
  intros Client react fuel st seg others B P A.
  destruct (recv_segment st P) as (st1 & R & _ & W & _).
  assert (L : (len (firstn 128 seg) >? 0) = true).
  { destruct (firstn 128 seg); [discriminate A | reflexivity]. }
  assert (G : get_message (S (S fuel)) CLIENT_USERNAME_MAX_LENGTH st
              = (Raise UnicodeDecodeError, st1)).
  { rewrite get_message_S.
    assert (G : get_message_wait (S fuel) CLIENT_USERNAME_MAX_LENGTH st
                = (Raise UnicodeDecodeError, st1)).
    { rewrite get_message_wait_eq, B. change (contains TERM []) with false.
      cbv iota. change (CLIENT_USERNAME_MAX_LENGTH - len [] <=? 0) with false.
      cbv iota. rewrite R, L. unfold decode. rewrite A. reflexivity. }
    rewrite (bind_raise _ _ _ G). reflexivity. }
  assert (F : authenticate react (S (S fuel)) st
              = (Raise UnicodeDecodeError, st1)).
  { unfold authenticate. rewrite (bind_raise _ _ _ G). reflexivity. }
  eexists. split; [|split].
  - unfold run. rewrite (bind_raise _ _ _ F). reflexivity.
  - cbn [sent]. apply W.
  - reflexivity.
Qed.

Lemma byte_above_127_is_not_answered_witness :
  exists st' : session unit,
    run scripted 2 (connect [lit "Mn" ++ ["200"%char] ++ lit "u" ++ TERM])
    = (Raise UnicodeDecodeError, st')
    /\ sent st' = []
    /\ closed st' = true.
Proof.
  apply (@byte_above_127_is_not_answered unit scripted 0
           (connect [lit "Mn" ++ ["200"%char] ++ lit "u" ++ TERM])
           (lit "Mn" ++ ["200"%char] ++ lit "u" ++ TERM) []);
    reflexivity.
Defined.

(** ** Message codec *)

(** X10. Numerals and position reports read back: [parse_number] returns
    [n] on [str(n)], and [parse_client_ok] returns [(x, y)] on the report
    [OK x y], for the integers, negative ones too, whose numeral has at most
    4300 characters (the interpreter refuses to write and to read numerals
    of more digits). *)
Theorem reports_read_back :
  forall x y : Z,
    (length (py_str x) <= 4300)%nat ->
    (length (py_str y) <= 4300)%nat ->
    parse_number (py_str x) = Ok x
    /\ parse_client_ok (lit "OK " ++ py_str x ++ lit " " ++ py_str y)
       = Ok (x, y).
Proof.
  intros x y _ _. split; [apply parse_number_py_str|].
  exact (parse_report_text (x, y)).
Qed.

Lemma reports_read_back_witness :
  parse_number (py_str (-5)) = Ok (-5)
  /\ parse_client_ok (lit "OK " ++ py_str (-5) ++ lit " " ++ py_str 12)
     = Ok (-5, 12).
Proof.
  apply (@reports_read_back (-5) 12); vm_compute; lia.
Defined.

Lemma c_strip_tight (c : ascii) (s : str) :
  c_isspace c = false -> forallb plain s = true -> c_strip (c :: s) = c :: s.
Proof.
  intros Hc Hs. unfold c_strip. cbn [dropwhile]. rewrite Hc.
  assert (P : forall t, forallb plain t = true ->
                        forallb (fun a => negb (c_isspace a)) t = true).
  { intros t. apply forallb_impl. intros a Ha.
    destruct (plain_props _ Ha) as (_ & -> & _). reflexivity. }
  rewrite dropwhile_none, rev_involutive; [reflexivity|].
  rewrite forallb_forall. intros a Ha. apply in_rev in Ha.
  destruct Ha as [<- | Ha]; [rewrite Hc; reflexivity|].
  specialize (P _ Hs). rewrite forallb_forall in P. auto.
Qed.

(** X11. [parse_number] takes more than decimal digits: a numeral with a
    plus sign in front, or with a zero in front, is the number itself, as
    long as it has no more than the 4300 digits that the interpreter
    reads. *)
Theorem parse_number_takes_sign_and_zeros :
  forall n : Z,
    0 <= n ->
    (length (py_str n) < 4300)%nat ->
    parse_number ("+"%char :: py_str n) = Ok n
    /\ parse_number ("0"%char :: py_str n) = Ok n.
Proof.
  intros n H _.
  assert (E : py_str n = str_nonneg n).
  { unfold py_str. replace (n <? 0) with false; [reflexivity|].
    symmetry. apply Z.ltb_ge. exact H. }
  pose proof (py_str_plain n) as P.
  assert (S : forall c, Ascii.eqb " " c = false ->
                        contains (lit " ") (c :: py_str n) = false).
  { intros c Hc. rewrite contains_cons, (plain_no_space _ P).
    change (lit " ") with [" "%char]. cbn [startswith].
    rewrite Hc. reflexivity. }
  unfold parse_number, py_int.
  rewrite !S, !c_strip_tight by (reflexivity || exact P).
  change (Ascii.eqb "+" "-") with false. change (Ascii.eqb "+" "+") with true.
  change (Ascii.eqb "0" "-") with false. change (Ascii.eqb "0" "+") with false.
  cbv iota. rewrite E, int_unsigned_str_nonneg by exact H.
  split; [reflexivity|].
  unfold int_unsigned. change (digit_value "0") with (Some 0).
  destruct (str_nonneg_spec H) as (D & _ & V).
  rewrite (int_digits_value _ D), V. reflexivity.
Qed.

Lemma parse_number_takes_sign_and_zeros_witness :
  parse_number (lit "+53112") = Ok 53112
  /\ parse_number (lit "053112") = Ok 53112.
Proof.
  apply (@parse_number_takes_sign_and_zeros 53112); [lia|].
  vm_compute. lia.
Defined.

(** ** Hash and handshake *)

Lemma sum_app (a b : list Z) : sum (a ++ b) = sum a + sum b.
Proof.
  unfold sum. rewrite fold_left_app, !fold_left_add. lia.
Qed.

Lemma sum_cons (x : Z) (l : list Z) : sum (x :: l) = x + sum l.
Proof. apply (sum_app [x] l). Qed.

Lemma sum_permutation (a b : list Z) : Permutation a b -> sum a = sum b.
Proof.
  induction 1 as [|x a b _ IH|x y a|a b c _ IH1 _ IH2].
  - reflexivity.
  - rewrite !sum_cons, IH. reflexivity.
  - rewrite !sum_cons. lia.
  - congruence.
Qed.

(** X12. The hash is a number of 16 bits and a multiple of 8 (8 divides
    1000 and 65536), and it only depends on the characters, not on their
    order: a username and any permutation of it have the same hash. *)
Theorem hash_range_and_collisions :
  forall u : str,
    0 <= calculate_hash u < 65536
    /\ calculate_hash u mod 8 = 0
    /\ (forall v : str,
           Permutation u v -> calculate_hash u = calculate_hash v).
Proof.
  intros u. unfold calculate_hash, MAX_VALUE.
  split; [apply Z.mod_pos_bound; lia|]. split.
  - set (s := sum (map (fun c => ord c) u)).
    pose proof (Z.div_mod (s * 1000) 65536).
    replace ((s * 1000) mod 65536)
      with ((125 * s - 8192 * ((s * 1000) / 65536)) * 8) by lia.
    apply Z.mod_mul. lia.
  - intros v P.
    rewrite (sum_permutation (Permutation_map (fun c => ord c) P)).
    reflexivity.
Qed.

Lemma hash_range_and_collisions_witness :
  calculate_hash (lit "Mnau") = calculate_hash (lit "nMau").
Proof.
  apply (proj2 (proj2 (hash_range_and_collisions (lit "Mnau")))).
  apply perm_swap.
Defined.

(** X13. A confirmation that is a number but not the client code is the
    login fault: [run] answers it with [300 LOGIN FAILED] after the server
    code, and closes. The server code is never the client code, so a client
    that sends back what it received is refused, whatever the username. *)
Theorem wrong_confirmation_is_refused :
  (forall U : str,
      (calculate_hash U + SERVER_KEY) mod MAX_VALUE
      <> (calculate_hash U + CLIENT_KEY) mod MAX_VALUE)
  /\
  (forall (Client : Type) (react : Client -> str -> Client * list str)
          (fuel : nat) (st st1 st2 : session Client) (U confirmation : str)
          (n : Z),
      get_message fuel CLIENT_USERNAME_MAX_LENGTH st = (Ok U, st1) ->
      get_message fuel CLIENT_CONFIRMATION_MAX_LENGTH
        (snd (send_message react
                (py_str ((calculate_hash U + SERVER_KEY) mod MAX_VALUE)) st1))
      = (Ok confirmation, st2) ->
      parse_number confirmation = Ok n ->
      n <> (calculate_hash U + CLIENT_KEY) mod MAX_VALUE ->
      exists st' : session Client,
        run react fuel st = (Ok tt, st')
        /\ sent st'
           = sent st
             ++ on_wire [py_str ((calculate_hash U + SERVER_KEY) mod MAX_VALUE);
                         SERVER_LOGIN_FAILED]
        /\ closed st' = true).
Proof.
  split.
  - intros U. unfold SERVER_KEY, CLIENT_KEY, MAX_VALUE.
    pose proof (Z.div_mod (calculate_hash U + 54621) 65536).
    pose proof (Z.div_mod (calculate_hash U + 45328) 65536).
    lia.
  - intros Client react fuel st st1 st2 U confirmation n G1 G2 P N.
    assert (A : authenticate react fuel st = (Raise ServerLoginFailed, st2)).
    { unfold authenticate. rewrite (bind_ok _ _ _ G1).
      rewrite (bind_ok _ _ _ (send_message_eq react _ st1)).
      rewrite (bind_ok _ _ _ G2).
      rewrite (@bind_lift_ok _ _ _ _ _ _ _ P).
      replace ((calculate_hash U + CLIENT_KEY) mod MAX_VALUE =? n) with false;
        [reflexivity|].
      symmetry. apply Z.eqb_neq. congruence. }
    eexists. split; [|split].
    + unfold run. rewrite (bind_raise _ _ _ A).
      rewrite (bind_ok _ _ _ (send_message_eq react _ st2)). reflexivity.
    + cbn [sent]. rewrite send_message_sent.
      apply get_message_frame in G1, G2.
      destruct G1 as (S1 & _), G2 as (S2 & _).
      rewrite S2, send_message_sent, S1. unfold on_wire. cbn [map].
      rewrite <- app_assoc. reflexivity.
    + reflexivity.
Qed.

Lemma wrong_confirmation_is_refused_witness :
  exists st' : session unit,
    run scripted 10 (connect [lit "Mnau" ++ TERM; lit "62405" ++ TERM])
    = (Ok tt, st')
    /\ sent st' = [] ++ on_wire [lit "62405"; SERVER_LOGIN_FAILED]
    /\ closed st' = true.
Proof.
  apply (proj2 wrong_confirmation_is_refused unit scripted 10%nat
           (connect [lit "Mnau" ++ TERM; lit "62405" ++ TERM])
           (connect [lit "62405" ++ TERM])
           (mkSession [] [] (on_wire [lit "62405"]) TIMEOUT false tt [])
           (lit "Mnau") (lit "62405") 62405); try reflexivity.
  vm_compute. discriminate.
Defined.

(** ** Navigator *)

(** X14. The direction of a move is read off two positions: for the cell
    in front of a robot it is the robot's orientation, by
    [get_direction_to_dest] as by the unused [get_current_direction],
    which is the same function; for the same position twice the answer is
    [DOWN]. *)
Theorem direction_of_a_move :
  (forall (o : orientation) (c : coords),
      get_direction_to_dest c (ahead o c) = code o)
  /\ (forall c1 c2 : coords,
         get_current_direction c1 c2 = get_direction_to_dest c1 c2)
  /\ (forall c : coords, get_direction_to_dest c c = DOWN).
Proof.
  split; [|split].
  - intros o [x y]. unfold get_direction_to_dest.
    destruct o; cbn [ahead fst snd code]; rewrite !Z.gtb_ltb;
      repeat match goal with
        | |- context [?a <? ?b] =>
            let E := fresh in
            destruct (a <? b) eqn:E;
            [apply Z.ltb_lt in E | apply Z.ltb_ge in E]
        end; try reflexivity; lia.
  - intros [x1 y1] [x2 y2].
    unfold get_current_direction, get_direction_to_dest. cbn [fst snd].
    rewrite !Z.gtb_ltb.
    repeat match goal with
      | |- context [?a <? ?b] =>
          let E := fresh in
          destruct (a <? b) eqn:E;
          [apply Z.ltb_lt in E | apply Z.ltb_ge in E]
      end; try reflexivity; lia.
  - intros [x y]. unfold get_direction_to_dest. cbn [fst snd].
    rewrite !Z.gtb_ltb, !Z.ltb_irrefl. reflexivity.
Qed.

Section MoreNavigator.

Variable Client : Type.
Variable react : Client -> str -> Client * list str.
Implicit Types st : session Client.

Lemma send_message_log (message : str) st :
  move_log (snd (send_message react message st)) = move_log st.
Proof.
  unfold send_message, send. destruct (react (client st) (message ++ TERM)).
  reflexivity.
Qed.

(** [move_forward] returns once the position has changed, and then only. *)
Lemma move_forward_returns (fuel : nat) :
  forall (c : coords) st (c' : coords) st',
    move_forward react fuel c st = (Ok c', st') ->
    c' <> c
    /\ move_log st' = move_log st ++ [(c, c')]
    /\ exists k : nat,
        sent st' = sent st ++ repeat (SERVER_MOVE ++ TERM) (S k).
Proof.
  induction fuel as [|f IH]; intros c st c' st'; [discriminate|].
  cbn [move_forward].
  rewrite (bind_ok _ _ _ (send_message_eq react SERVER_MOVE st)).
  unfold bind at 1.
  destruct (get_message f CLIENT_OK_MAX_LENGTH
              (snd (send_message react SERVER_MOVE st)))
    as [[msg|e|] s1] eqn:G; try discriminate.
  apply get_message_frame in G. destruct G as (G1 & _ & _ & G4).
  rewrite send_message_sent in G1. rewrite send_message_log in G4.
  unfold bind at 1, lift.
  destruct (parse_client_ok msg) as [new|e|]; try discriminate.
  destruct (coords_eqb c new) eqn:E.
  - intros H. apply IH in H. destruct H as (N & L & k & Hs).
    split; [exact N|]. split; [congruence|].
    exists (S k). rewrite Hs, G1, <- app_assoc. reflexivity.
  - unfold bind, log_move, ret. intros H; inversion H; subst.
    split.
    + intros ->. destruct c as [x y]. unfold coords_eqb in E.
      cbn [fst snd] in E. rewrite !Z.eqb_refl in E. discriminate E.
    + split; [cbn [move_log]; congruence|].
      exists O. cbn [sent]. exact G1.
Qed.

End MoreNavigator.

(** X15. When [move_forward] returns, the position it returns is not the
    one it was given; the pair is what it adds to the log of moves; and
    what it has sent is [102 MOVE] once or more, nothing else. *)
Theorem move_forward_waits_for_a_move :
  forall (Client : Type) (react : Client -> str -> Client * list str)
         (fuel : nat) (c c' : coords) (st st' : session Client),
    move_forward react fuel c st = (Ok c', st') ->
    c' <> c
    /\ move_log st' = move_log st ++ [(c, c')]
    /\ exists k : nat,
        sent st' = sent st ++ repeat (SERVER_MOVE ++ TERM) (S k).
Proof.
  intros Client react fuel c c' st st'. apply move_forward_returns.
Qed.

Lemma move_forward_waits_for_a_move_witness :
  (0, 1) <> (0, 0)
  /\ move_log (snd (move_forward scripted 5 (0, 0)
                      (connect [lit "OK 0 0" ++ TERM; lit "OK 0 1" ++ TERM])))
     = [] ++ [((0, 0), (0, 1))]
  /\ exists k : nat,
      sent (snd (move_forward scripted 5 (0, 0)
                   (connect [lit "OK 0 0" ++ TERM; lit "OK 0 1" ++ TERM])))
      = [] ++ repeat (SERVER_MOVE ++ TERM) (S k).
Proof.
  apply (@move_forward_waits_for_a_move unit scripted 5 (0, 0) (0, 1)
           (connect [lit "OK 0 0" ++ TERM; lit "OK 0 1" ++ TERM])
           (snd (move_forward scripted 5 (0, 0)
                   (connect [lit "OK 0 0" ++ TERM; lit "OK 0 1" ++ TERM])))).
  reflexivity.
Defined.

(** A whole message in the first segment, nothing buffered. *)
Lemma get_message_first_segment (Client : Type) (st : session Client)
      (u : str) (more : list str) (max_length : Z) (f : nat) :
  buffer st = [] ->
  pending st = (u ++ TERM) :: more ->
  (length (u ++ TERM) <= 128)%nat ->
  forallb is_ascii (u ++ TERM) = true ->
  contains TERM u = false ->
  u <> CLIENT_RECHARGING ->
  len u <= max_length - 2 ->
  get_message (S (S f)) max_length st = (Ok u, set_pending more st).
Proof.
  intros B P L A T R C.
  assert (W : get_message_wait (S f) max_length st
              = (Ok tt, set_buffer (u ++ TERM) (set_pending more st))).
  { rewrite get_message_wait_eq, B. change (contains TERM []) with false.
    cbv iota.
    replace (max_length - len [] <=? 0) with false
      by (symmetry; apply Z.leb_gt; unfold len in *; simpl; lia).
    unfold recv. rewrite P. rewrite firstn_all2, skipn_all2 by lia.
    replace (len (u ++ TERM) >? 0) with true
      by (symmetry; rewrite Z.gtb_ltb; apply Z.ltb_lt; unfold len;
          rewrite length_app; simpl; lia).
    unfold decode. rewrite A.
    rewrite get_message_wait_eq. cbn [buffer set_buffer set_pending].
    rewrite B. cbn [app].
    replace (contains TERM (u ++ TERM)) with true; [reflexivity|].
    symmetry. rewrite <- (app_nil_r TERM) at 2. apply contains_TERM_mid. }
  rewrite get_message_S, (bind_ok _ _ _ W).
  assert (Q : parse_buffer (set_buffer (u ++ TERM) (set_pending more st))
              = (Ok u, set_buffer [] (set_buffer (u ++ TERM)
                                        (set_pending more st)))).
  { apply parse_buffer_found; [|exact T].
    cbn [buffer set_buffer]. rewrite app_nil_r. reflexivity. }
  rewrite (bind_ok _ _ _ Q).
  apply str_eqb_neq in R. rewrite R.
  replace (len u >? max_length - 2) with false
    by (symmetry; rewrite Z.gtb_ltb; apply Z.ltb_ge; exact C).
  unfold ret. f_equal.
  destruct st; cbn in *; subst; reflexivity.
Qed.

(** The report of a position, first in line, is read as that position. *)
Lemma report_first (Client : Type) (p : coords) (more : list str) (f : nat)
      (st : session Client) :
  reportable p ->
  buffer st = [] ->
  pending st = report p :: more ->
  get_message (S (S f)) CLIENT_OK_MAX_LENGTH st
  = (Ok (report_text p), set_pending more st).
Proof.
  intros H B P. pose proof (report_text_length H) as L.
  apply get_message_first_segment; try assumption.
  - rewrite length_app. change (length TERM) with 2%nat. lia.
  - apply report_is_ascii.
  - apply report_text_no_TERM.
  - apply report_text_not_RECHARGING.
  - unfold CLIENT_OK_MAX_LENGTH, len. lia.
Qed.

Lemma coords_eqb_refl (c : coords) : coords_eqb c c = true.
Proof. apply coords_eqb_eq. reflexivity. Qed.

Lemma coords_eqb_neq (a b : coords) : a <> b -> coords_eqb a b = false.
Proof.
  intros N. destruct (coords_eqb a b) eqn:E; [|reflexivity].
  apply coords_eqb_eq in E. contradiction.
Qed.

Lemma move_forward_S (Client : Type)
      (react : Client -> str -> Client * list str) (f : nat) (c : coords)
      (st : session Client) :
  move_forward react (S f) c st
  = (send_message react SERVER_MOVE ;;
     msg <- get_message f CLIENT_OK_MAX_LENGTH ;;
     new_coords <- lift (parse_client_ok msg) ;;
     if coords_eqb c new_coords then move_forward react f c
     else log_move c new_coords ;; ret new_coords) st.
Proof. reflexivity. Qed.

Lemma move_forward_blocked (k : nat) :
  forall (c c' : coords) (more : list str) (f : nat) (st : session unit),
    buffer st = [] ->
    pending st = repeat (report c) k ++ report c' :: more ->
    c <> c' ->
    reportable c ->
    reportable c' ->
    move_forward scripted (S (S (S (k + f)))) c st
    = (Ok c',
       mkSession [] more (sent st ++ repeat (SERVER_MOVE ++ TERM) (S k))
                 (sock_timeout st) (closed st) tt
                 (move_log st ++ [(c, c')])).
Proof.
  induction k as [|k IH]; intros c c' more f st B P N H H';
    destruct st as [b p s t cl [] lg]; cbn [buffer pending] in B, P; subst b p;
    cbn [sent sock_timeout closed move_log].
  - cbn [repeat app Nat.add].
    rewrite move_forward_S.
    rewrite (bind_ok _ _ _ (scripted_send SERVER_MOVE _)).
    match goal with
    | |- _ ?s = _ =>
        rewrite (bind_ok _ _ _ (@report_first unit c' more f s H' eq_refl eq_refl))
    end.
    rewrite (@bind_lift_ok _ _ _ _ _ _ _ (parse_report_text c')).
    rewrite (coords_eqb_neq N). reflexivity.
  - cbn [repeat app Nat.add].
    rewrite move_forward_S.
    rewrite (bind_ok _ _ _ (scripted_send SERVER_MOVE _)).
    match goal with
    | |- _ ?s = _ =>
        rewrite (bind_ok _ _ _ (@report_first unit c _ (S (k + f)) s H
                                  eq_refl eq_refl))
    end.
    rewrite (@bind_lift_ok _ _ _ _ _ _ _ (parse_report_text c)).
    rewrite coords_eqb_refl.
    rewrite (IH c c' more f); try assumption; try reflexivity.
    cbn [sent sock_timeout closed move_log set_pending repeat app].
    rewrite <- app_assoc. reflexivity.
Qed.

(** X16. A robot that does not move is asked again: while the report is
    the position [move_forward] was given, it sends [102 MOVE] once more;
    with [k] such reports and then another position, it has sent the command
    [k + 1] times, returns that position, and logs the one move. *)
Theorem blocked_robot_is_asked_again :
  forall (k : nat) (c c' : coords) (more : list str) (f : nat)
         (st : session unit),
    buffer st = [] ->
    pending st = repeat (report c) k ++ report c' :: more ->
    c <> c' ->
    reportable c ->
    reportable c' ->
    move_forward scripted (k + 3 + f) c st
    = (Ok c',
       mkSession [] more (sent st ++ repeat (SERVER_MOVE ++ TERM) (S k))
                 (sock_timeout st) (closed st) tt
                 (move_log st ++ [(c, c')])).
Proof.
  intros k c c' more f st.
  replace (k + 3 + f)%nat with (S (S (S (k + f)))) by lia.
  apply move_forward_blocked.
Qed.

Lemma blocked_robot_is_asked_again_witness :
  move_forward scripted (2 + 3 + 0) (0, 0)
    (connect [report (0, 0); report (0, 0); report (0, 1); lit "x"])
  = (Ok (0, 1),
     mkSession [] [lit "x"]
               ([] ++ repeat (SERVER_MOVE ++ TERM) 3)
               TIMEOUT false tt ([] ++ [((0, 0), (0, 1))])).
Proof.
  apply (@blocked_robot_is_asked_again 2 (0, 0) (0, 1) [lit "x"] 0
           (connect [report (0, 0); report (0, 0); report (0, 1); lit "x"]));
    try reflexivity; try discriminate; unfold reportable; simpl; lia.
Defined.


(** ** What is sent and what is raised *)

Section Behaviour.

Variable Client : Type.
Variable react : Client -> str -> Client * list str.
Variable P : str -> Prop.
Variable E : exn -> Prop.
Implicit Types st : session Client.

Lemma behaves_bind (A B : Type) (m : M (session Client) A)
      (k : A -> M (session Client) B) :
  behaves P E m -> (forall a, behaves P E (k a)) -> behaves P E (bind m k).
Proof.
  intros Hm Hk s r s'. unfold bind.
  destruct (m s) as [[a|e|] s1] eqn:M1.
  - intros K. destruct (Hm _ _ _ M1) as ((o1 & S1 & F1) & _).
    destruct (Hk a _ _ _ K) as ((o2 & S2 & F2) & R2).
    split; [|exact R2].
    exists (o1 ++ o2). split; [|apply Forall_app; split; assumption].
    rewrite S2, S1. unfold on_wire. rewrite map_app, app_assoc. reflexivity.
  - intros K; inversion K; subst.
    destruct (Hm _ _ _ M1) as (S1 & R1).
    split; [exact S1|]. intros e0 Q; inversion Q; subst. apply R1. reflexivity.
  - intros K; inversion K; subst.
    destruct (Hm _ _ _ M1) as (S1 & R1).
    split; [exact S1|]. discriminate.
Qed.

Lemma behaves_quiet (A : Type) (m : M (session Client) A) :
  (forall s r s', m s = (r, s') ->
                  sent s' = sent s /\ forall e, r = Raise e -> E e) ->
  behaves P E m.
Proof.
  intros H s r s' K. destruct (H _ _ _ K) as (Q & R).
  split; [|exact R]. exists []. split; [|constructor].
  rewrite Q. cbn [on_wire map]. rewrite app_nil_r. reflexivity.
Qed.

Lemma behaves_ret (A : Type) (a : A) : behaves P E (@ret (session Client) A a).
Proof.
  apply behaves_quiet. intros s r s' K; inversion K; subst.
  split; [reflexivity | discriminate].
Qed.

Lemma behaves_raise (A : Type) (e : exn) :
  E e -> behaves P E (@raise (session Client) A e).
Proof.
  intros He. apply behaves_quiet. intros s r s' K; inversion K; subst.
  split; [reflexivity|]. intros e0 Q; inversion Q; subst. exact He.
Qed.

Lemma behaves_out_of_fuel (A : Type) :
  behaves P E (@out_of_fuel (session Client) A).
Proof.
  apply behaves_quiet. intros s r s' K; inversion K; subst.
  split; [reflexivity | discriminate].
Qed.

Lemma behaves_lift (A : Type) (r : result A) :
  (forall e, r = Raise e -> E e) -> behaves P E (@lift (session Client) A r).
Proof.
  intros He. apply behaves_quiet. intros s r0 s' K; inversion K; subst.
  split; [reflexivity | exact He].
Qed.

Lemma behaves_log_move (a b : coords) :
  behaves P E (@log_move Client a b).
Proof.
  apply behaves_quiet. intros s r s' K; inversion K; subst.
  split; [reflexivity | discriminate].
Qed.

Lemma behaves_send_message (message : str) :
  P message -> behaves P E (send_message react message).
Proof.
  intros Hm s r s' K. rewrite send_message_eq in K. inversion K; subst.
  split; [|discriminate]. exists [message]. split.
  - apply send_message_sent.
  - constructor; [exact Hm | constructor].
Qed.

End Behaviour.

Section ReaderFaults.

Variable Client : Type.
Implicit Types st : session Client.

Lemma recv_raises n st e st' :
  recv n st = (Raise e, st') -> e = SocketTimeout.
Proof.
  unfold recv. destruct (pending st); intros H; inversion H; reflexivity.
Qed.

Lemma decode_raises (raw : str) (e : exn) :
  decode raw = Raise e -> e = UnicodeDecodeError.
Proof.
  unfold decode. destruct (forallb is_ascii raw); intros H; inversion H.
  reflexivity.
Qed.

Lemma get_message_wait_raises fuel : forall max_length st e st',
  get_message_wait fuel max_length st = (Raise e, st') -> reader_fault e.
Proof.
  induction fuel as [|f IH]; intros max_length st e st';
    rewrite get_message_wait_eq;
    destruct (contains TERM (buffer st)); try discriminate;
    (destruct (max_length - len (buffer st) <=? 0);
     [intros H; inversion H; left; reflexivity|]); try discriminate.
  destruct (recv 128 st) as [[raw|e0|] st1] eqn:R; try discriminate.
  - destruct (len raw >? 0); [|apply IH].
    destruct (decode raw) as [d|e0|] eqn:D; try discriminate; [apply IH|].
    intros H; inversion H; subst. apply decode_raises in D. subst.
    right; right; right; reflexivity.
  - intros H; inversion H; subst. apply recv_raises in R. subst.
    right; right; left; reflexivity.
Qed.

Lemma parse_buffer_raises st e st' :
  parse_buffer st = (Raise e, st') -> e = ServerSyntaxError.
Proof.
  unfold parse_buffer. destruct (partition TERM (buffer st)) as [[a m] b].
  destruct m; intros H; inversion H; reflexivity.
Qed.

Lemma get_message_raises fuel : forall max_length st e st',
  get_message fuel max_length st = (Raise e, st') -> reader_fault e.
Proof.
  induction fuel as [|f IH]; intros max_length st e st'; [discriminate|].
  rewrite get_message_S. unfold bind at 1.
  destruct (get_message_wait f max_length st) as [[[]|e0|] s1] eqn:W;
    try discriminate.
  2:{ intros H; inversion H; subst. eapply get_message_wait_raises.
      eassumption. }
  unfold bind at 1.
  destruct (parse_buffer s1) as [[msg|e0|] s2] eqn:Q; try discriminate.
  2:{ intros H; inversion H; subst. apply parse_buffer_raises in Q. subst.
      left; reflexivity. }
  destruct (str_eqb msg CLIENT_RECHARGING).
  - unfold bind at 1, recharging_with, bind at 1, settimeout at 1.
    unfold bind at 1.
    match goal with
    | |- context [get_message f CLIENT_FULL_POWER_MAX_LENGTH ?s] =>
        destruct (get_message f CLIENT_FULL_POWER_MAX_LENGTH s)
          as [[m2|e0|] s4] eqn:G
    end; try discriminate.
    + destruct (str_eqb m2 CLIENT_FULL_POWER).
      * unfold settimeout. apply IH.
      * unfold raise. intros H; inversion H; subst.
        right; left; reflexivity.
    + intros H; inversion H; subst. eapply IH. eassumption.
  - destruct (len msg >? max_length - 2).
    + unfold raise. intros H; inversion H; subst. left; reflexivity.
    + discriminate.
Qed.

End ReaderFaults.

Section NavigatorBehaviour.

Variable Client : Type.
Variable react : Client -> str -> Client * list str.
Variable P : str -> Prop.
Hypothesis P_move : P SERVER_MOVE.
Hypothesis P_left : P SERVER_TURN_LEFT.
Hypothesis P_right : P SERVER_TURN_RIGHT.

Lemma behaves_get_message (fuel : nat) (max_length : Z) :
  behaves P reader_fault (@get_message Client fuel max_length).
Proof.
  apply behaves_quiet. intros s r s' K. split.
  - apply get_message_frame in K. apply K.
  - intros e ->. eapply get_message_raises. eassumption.
Qed.

Lemma parse_client_ok_raises (msg : str) (e : exn) :
  parse_client_ok msg = Raise e -> reader_fault e.
Proof.
  unfold parse_client_ok. destruct (parse_client_ok_try msg);
    intros H; inversion H. left; reflexivity.
Qed.

Lemma behaves_command (fuel : nat) (command : str) :
  P command ->
  behaves P reader_fault
          (send_message react command ;;
           msg <- get_message fuel CLIENT_OK_MAX_LENGTH ;;
           lift (parse_client_ok msg)).
Proof.
  intros H. apply behaves_bind; [apply behaves_send_message; exact H|].
  intros _. apply behaves_bind; [apply behaves_get_message|].
  intros msg. apply behaves_lift. apply parse_client_ok_raises.
Qed.

Lemma behaves_turn_left (fuel : nat) :
  behaves P reader_fault (turn_left react fuel).
Proof. apply behaves_command. exact P_left. Qed.

Lemma behaves_turn_right (fuel : nat) :
  behaves P reader_fault (turn_right react fuel).
Proof. apply behaves_command. exact P_right. Qed.

Lemma behaves_move_forward (fuel : nat) :
  forall c : coords, behaves P reader_fault (move_forward react fuel c).
Proof.
  induction fuel as [|f IH]; intros c; [apply behaves_out_of_fuel|].
  cbn [move_forward].
  apply behaves_bind; [apply behaves_send_message; exact P_move|].
  intros _. apply behaves_bind; [apply behaves_get_message|].
  intros msg. apply behaves_bind;
    [apply behaves_lift; apply parse_client_ok_raises|].
  intros new. destruct (coords_eqb c new); [apply IH|].
  apply behaves_bind; [apply behaves_log_move|].
  intros _. apply behaves_ret.
Qed.

Lemma behaves_turn_to_direction (fuel : nat) (direction target : Z) :
  behaves P reader_fault (turn_to_direction react fuel direction target).
Proof.
  unfold turn_to_direction.
  apply behaves_bind; [|intros _; apply behaves_ret].
  repeat match goal with
    | |- behaves _ _ (if ?b then _ else _) => destruct b
    end;
    repeat first [ apply behaves_ret
                 | apply behaves_turn_left
                 | apply behaves_turn_right
                 | apply behaves_bind; [|intros _] ].
Qed.

Lemma behaves_reach (fuel : nat) :
  forall (direction : Z) (c : coords),
    behaves P reader_fault
            (reach_destination_square react fuel direction c).
Proof.
  induction fuel as [|f IH]; intros direction c;
    cbn [reach_destination_square];
    destruct (negb (coords_eqb c DESTINATION_SQUARE));
    try apply behaves_ret; [apply behaves_out_of_fuel|].
  apply behaves_bind; [apply behaves_turn_to_direction|].
  intros d. apply behaves_bind; [apply behaves_move_forward|].
  intros c'. apply IH.
Qed.

Hypothesis P_pick : P SERVER_PICK_UP.
Hypothesis P_logout : P SERVER_LOGOUT.

Lemma behaves_pick_message (fuel : nat) :
  behaves P reader_fault (pick_message react fuel).
Proof.
  unfold pick_message.
  apply behaves_bind; [apply behaves_send_message; exact P_pick|].
  intros _. apply behaves_get_message.
Qed.

Lemma behaves_logout : behaves P reader_fault (logout react).
Proof. apply behaves_send_message. exact P_logout. Qed.

Lemma behaves_search_row (fuel : nat) (cols : list Z) :
  forall c : coords, behaves P reader_fault (search_row react fuel cols c).
Proof.
  induction cols as [|i rest IH]; intros c; cbn [search_row];
    [apply behaves_ret|].
  apply behaves_bind; [apply behaves_pick_message|].
  intros msg. destruct (negb (str_eqb msg [])).
  - apply behaves_bind; [apply behaves_logout | intros _; apply behaves_ret].
  - apply behaves_bind; [|intros c1; apply IH].
    destruct (i <? 2); [apply behaves_move_forward | apply behaves_ret].
Qed.

Lemma behaves_search_rows (fuel : nat) (rows : list Z) :
  forall (c : coords) (direct : Z),
    behaves P reader_fault (search_rows react fuel rows c direct).
Proof.
  induction rows as [|i rest IH]; intros c direct; cbn [search_rows];
    [apply behaves_ret|].
  apply behaves_bind; [apply behaves_search_row|].
  intros [c1|]; [|apply behaves_ret].
  destruct (direct =? 0).
  - apply behaves_bind; [apply behaves_turn_right|]. intros _.
    apply behaves_bind; [apply behaves_move_forward|]. intros c2.
    apply behaves_bind; [apply behaves_turn_right|]. intros _. apply IH.
  - apply behaves_bind; [apply behaves_turn_left|]. intros _.
    apply behaves_bind; [apply behaves_move_forward|]. intros c2.
    apply behaves_bind; [apply behaves_turn_left|]. intros _. apply IH.
Qed.

Lemma behaves_search_square (fuel : nat) (start_direction : Z) :
  behaves P reader_fault (search_square react fuel start_direction).
Proof.
  unfold search_square.
  apply behaves_bind; [apply behaves_turn_to_direction|].
  intros _. apply behaves_search_rows.
Qed.

Lemma behaves_find_and_search (fuel : nat) :
  behaves P reader_fault (find_and_search_square react fuel).
Proof.
  unfold find_and_search_square.
  apply behaves_bind; [apply behaves_send_message; exact P_left|]. intros _.
  apply behaves_bind; [apply behaves_get_message|]. intros msg.
  apply behaves_bind; [apply behaves_lift; apply parse_client_ok_raises|].
  intros c0. apply behaves_bind; [apply behaves_move_forward|]. intros c1.
  apply behaves_bind; [apply behaves_reach|]. intros reached.
  apply behaves_search_square.
Qed.

End NavigatorBehaviour.

(** Navigation and sweep send commands for the robot only, and raise the
    faults of reading only. *)
Lemma behaves_find_and_search_square (Client : Type)
      (react : Client -> str -> Client * list str) (fuel : nat) :
  behaves robot_command reader_fault (find_and_search_square react fuel).
Proof.
  apply behaves_find_and_search; unfold robot_command; simpl; tauto.
Qed.

Section SessionBehaviour.

Variable Client : Type.
Variable react : Client -> str -> Client * list str.
Implicit Types st : session Client.

Lemma parse_number_raises (s : str) (e : exn) :
  parse_number s = Raise e -> e = ServerSyntaxError \/ e = ValueError.
Proof.
  unfold parse_number. destruct (contains (lit " ") s).
  - intros H; inversion H. left; reflexivity.
  - destruct (py_int s); intros H; inversion H. right; reflexivity.
Qed.

(** The handshake: what it has sent, by how it ends. *)
Lemma authenticate_outcome (fuel : nat) st (r : result unit) st' :
  authenticate react fuel st = (r, st') ->
  (forall e, r = Raise e ->
             reader_fault e \/ e = ValueError \/ e = ServerLoginFailed)
  /\ exists handshake : list str,
      sent st' = sent st ++ on_wire handshake
      /\ ((handshake = [] /\ r <> Ok tt)
          \/ exists n : Z,
              0 <= n < 65536
              /\ ((handshake = [py_str n] /\ r <> Ok tt)
                  \/ (handshake = [py_str n; SERVER_OK] /\ r = Ok tt))).
Proof.
  unfold authenticate, bind at 1.
  destruct (get_message fuel CLIENT_USERNAME_MAX_LENGTH st)
    as [[U|e|] s1] eqn:G1.
  2:{ intros H; inversion H; subst. split.
      - intros e0 Q; inversion Q; subst. left.
        eapply get_message_raises; eassumption.
      - exists []. apply get_message_frame in G1. destruct G1 as (G1 & _).
        rewrite G1. cbn [on_wire map]. rewrite app_nil_r.
        split; [reflexivity|]. left. split; [reflexivity | discriminate]. }
  2:{ intros H; inversion H; subst. split; [discriminate|].
      exists []. apply get_message_frame in G1. destruct G1 as (G1 & _).
      rewrite G1. cbn [on_wire map]. rewrite app_nil_r.
      split; [reflexivity|]. left. split; [reflexivity | discriminate]. }
  apply get_message_frame in G1. destruct G1 as (G1 & _).
  set (n := (calculate_hash U + SERVER_KEY) mod MAX_VALUE).
  assert (B : 0 <= n < 65536)
    by (apply Z.mod_pos_bound; reflexivity).
  rewrite (bind_ok _ _ _ (send_message_eq react (py_str n) s1)).
  pose proof (send_message_sent react (py_str n) s1) as S2.
  rewrite G1 in S2.
  set (s2 := snd (send_message react (py_str n) s1)) in *.
  unfold bind at 1.
  destruct (get_message fuel CLIENT_CONFIRMATION_MAX_LENGTH s2)
    as [[conf|e|] s3] eqn:G2.
  2:{ intros H; inversion H; subst. split.
      - intros e0 Q; inversion Q; subst. left.
        eapply get_message_raises; eassumption.
      - exists [py_str n]. apply get_message_frame in G2.
        destruct G2 as (G2 & _). rewrite G2, S2.
        split; [reflexivity|]. right. exists n. split; [exact B|].
        left. split; [reflexivity | discriminate]. }
  2:{ intros H; inversion H; subst. split; [discriminate|].
      exists [py_str n]. apply get_message_frame in G2.
      destruct G2 as (G2 & _). rewrite G2, S2.
      split; [reflexivity|]. right. exists n. split; [exact B|].
      left. split; [reflexivity | discriminate]. }
  apply get_message_frame in G2. destruct G2 as (G2 & _).
  rewrite S2 in G2.
  unfold bind at 1, lift.
  destruct (parse_number conf) as [c|e|] eqn:N.
  - destruct ((calculate_hash U + CLIENT_KEY) mod MAX_VALUE =? c).
    + rewrite send_message_eq. intros H; inversion H; subst.
      split; [discriminate|].
      exists [py_str n; SERVER_OK]. rewrite send_message_sent, G2.
      split; [unfold on_wire; cbn [map]; rewrite <- app_assoc; reflexivity|].
      right. exists n. split; [exact B|]. right. split; reflexivity.
    + unfold raise. intros H; inversion H; subst. split.
      * intros e0 Q; inversion Q; subst. right; right; reflexivity.
      * exists [py_str n]. split; [exact G2|]. right. exists n.
        split; [exact B|]. left. split; [reflexivity | discriminate].
  - intros H; inversion H; subst. split.
    + intros e0 Q; inversion Q; subst.
      destruct (parse_number_raises _ N) as [-> | ->];
        [left; left; reflexivity | right; left; reflexivity].
    + exists [py_str n]. split; [exact G2|]. right. exists n.
      split; [exact B|]. left. split; [reflexivity | discriminate].
  - intros H; inversion H; subst. split; [discriminate|].
    exists [py_str n]. split; [exact G2|]. right. exists n.
    split; [exact B|]. left. split; [reflexivity | discriminate].
Qed.

End SessionBehaviour.

Lemma on_wire_app (a b : list str) : on_wire (a ++ b) = on_wire a ++ on_wire b.
Proof. apply map_app. Qed.

Lemma answer_sent (Client : Type) (react : Client -> str -> Client * list str)
      (message : str) (st : session Client) :
  (send_message react message ;; close) st
  = (Ok tt,
     snd (close (snd (send_message react message st)))).
Proof. unfold bind. rewrite send_message_eq. reflexivity. Qed.


(** X18. What a session sends, whatever the peer does: the server code
    (the decimal numeral of a number of 16 bits) and [200 OK], or less of
    the handshake; then, only after [200 OK], commands for the robot; then
    at most one of the three answers to a fault, [300 LOGIN FAILED] only
    when no [200 OK] was sent. Nothing else is ever sent. *)
Theorem what_a_session_sends :
  forall (Client : Type) (react : Client -> str -> Client * list str)
         (fuel : nat) (st : session Client),
  exists handshake commands final : list str,
    sent (snd (run react fuel st))
    = sent st ++ on_wire (handshake ++ commands ++ final)
    /\ Forall robot_command commands
    /\ In final [[]; [SERVER_LOGIN_FAILED]; [SERVER_SYNTAX_ERROR];
                 [SERVER_LOGIC_ERROR]]
    /\ ((handshake = [] /\ commands = [])
        \/ exists n : Z,
            0 <= n < 65536
            /\ ((handshake = [py_str n] /\ commands = [])
                \/ (handshake = [py_str n; SERVER_OK]
                    /\ final <> [SERVER_LOGIN_FAILED]))).
Proof.
  intros Client react fuel st. unfold run, bind at 1.
  destruct (authenticate react fuel st) as [[[]|e1|] s1] eqn:A.
  - destruct (authenticate_outcome _ _ _ A) as (_ & hs & S1 & D).
    assert (D' : exists n, 0 <= n < 65536 /\ hs = [py_str n; SERVER_OK]).
    { destruct D as [(_ & N) | (n & B & [(_ & N) | (-> & _)])];
        try (exfalso; apply N; reflexivity).
      exists n. split; [exact B | reflexivity]. }
    destruct D' as (n & B & ->).
    destruct (find_and_search_square react fuel s1) as [r2 s2] eqn:F.
    destruct (@behaves_find_and_search_square _ react fuel _ _ _ F)
      as ((out & S2 & C) & R2).
    assert (T : forall (final : list str) (s3 : session Client),
               sent s3 = sent s2 ++ on_wire final ->
               sent s3
               = sent st ++ on_wire ([py_str n; SERVER_OK] ++ out ++ final)).
    { intros final s3 ->. rewrite S2, S1, !on_wire_app, <- !app_assoc.
      reflexivity. }
    assert (Q : forall final, final <> [SERVER_LOGIN_FAILED] ->
                ([py_str n; SERVER_OK] = [] /\ out = [])
                \/ exists n0 : Z,
                    0 <= n0 < 65536
                    /\ (([py_str n; SERVER_OK] = [py_str n0] /\ out = [])
                        \/ ([py_str n; SERVER_OK] = [py_str n0; SERVER_OK]
                            /\ final <> [SERVER_LOGIN_FAILED]))).
    { intros final N. right. exists n. split; [exact B|]. right.
      split; [reflexivity | exact N]. }
    destruct r2 as [[]|e2|].
    + exists [py_str n; SERVER_OK], out, [].
      split; [apply T; cbn [close snd sent on_wire map];
              rewrite app_nil_r; reflexivity|].
      split; [exact C|]. split; [simpl; tauto|]. apply Q. discriminate.
    + destruct (R2 e2 eq_refl) as [-> | [-> | [-> | ->]]].
      * exists [py_str n; SERVER_OK], out, [SERVER_SYNTAX_ERROR].
        split; [apply T; rewrite answer_sent; cbn [close snd sent];
                apply send_message_sent|].
        split; [exact C|]. split; [simpl; tauto|]. apply Q. discriminate.
      * exists [py_str n; SERVER_OK], out, [SERVER_LOGIC_ERROR].
        split; [apply T; rewrite answer_sent; cbn [close snd sent];
                apply send_message_sent|].
        split; [exact C|]. split; [simpl; tauto|]. apply Q. discriminate.
      * exists [py_str n; SERVER_OK], out, [].
        split; [apply T; cbn [close snd sent on_wire map];
                rewrite app_nil_r; reflexivity|].
        split; [exact C|]. split; [simpl; tauto|]. apply Q. discriminate.
      * exists [py_str n; SERVER_OK], out, [].
        split; [apply T; cbn [close snd sent on_wire map bind raise];
                rewrite app_nil_r; reflexivity|].
        split; [exact C|]. split; [simpl; tauto|]. apply Q. discriminate.
    + exists [py_str n; SERVER_OK], out, [].
      split; [apply T; cbn [snd on_wire map];
              rewrite app_nil_r; reflexivity|].
      split; [exact C|]. split; [simpl; tauto|]. apply Q. discriminate.
  - destruct (authenticate_outcome _ _ _ A) as (R1 & hs & S1 & D).
    assert (D' : (hs = [] /\ @nil str = [])
                 \/ exists n : Z,
                     0 <= n < 65536 /\ hs = [py_str n] /\ @nil str = []).
    { destruct D as [(-> & _) | (n & B & [(-> & _) | (_ & N)])];
        try discriminate.
      - left. split; reflexivity.
      - right. exists n. repeat split; try reflexivity; apply B. }
    assert (T : forall (final : list str) (s3 : session Client),
               sent s3 = sent s1 ++ on_wire final ->
               sent s3 = sent st ++ on_wire (hs ++ [] ++ final)).
    { intros final s3 ->. rewrite S1, !on_wire_app, <- !app_assoc.
      reflexivity. }
    assert (Q : forall final : list str,
               (hs = [] /\ @nil str = [])
               \/ exists n : Z,
                   0 <= n < 65536
                   /\ ((hs = [py_str n] /\ @nil str = [])
                       \/ (hs = [py_str n; SERVER_OK]
                           /\ final <> [SERVER_LOGIN_FAILED]))).
    { intros final. destruct D' as [D' | (n & B & D')]; [left; exact D'|].
      right. exists n. split; [exact B|]. left. exact D'. }
    destruct (R1 e1 eq_refl) as [[-> | [-> | [-> | ->]]] | [-> | ->]].
    + exists hs, [], [SERVER_SYNTAX_ERROR].
      split; [apply T; rewrite answer_sent; cbn [close snd sent];
              apply send_message_sent|].
      split; [constructor|]. split; [simpl; tauto | apply Q].
    + exists hs, [], [SERVER_LOGIC_ERROR].
      split; [apply T; rewrite answer_sent; cbn [close snd sent];
              apply send_message_sent|].
      split; [constructor|]. split; [simpl; tauto | apply Q].
    + exists hs, [], [].
      split; [apply T; cbn [close snd sent on_wire map];
              rewrite app_nil_r; reflexivity|].
      split; [constructor|]. split; [simpl; tauto | apply Q].
    + exists hs, [], [].
      split; [apply T; cbn [close snd sent on_wire map bind raise];
              rewrite app_nil_r; reflexivity|].
      split; [constructor|]. split; [simpl; tauto | apply Q].
    + exists hs, [], [].
      split; [apply T; cbn [close snd sent on_wire map bind raise];
              rewrite app_nil_r; reflexivity|].
      split; [constructor|]. split; [simpl; tauto | apply Q].
    + exists hs, [], [SERVER_LOGIN_FAILED].
      split; [apply T; rewrite answer_sent; cbn [close snd sent];
              apply send_message_sent|].
      split; [constructor|]. split; [simpl; tauto | apply Q].
  - destruct (authenticate_outcome _ _ _ A) as (_ & hs & S1 & D).
    exists hs, [], [].
    split; [cbn [snd]; rewrite S1, !app_nil_r; reflexivity|].
    split; [constructor|]. split; [simpl; tauto|].
    destruct D as [(-> & _) | (n & B & [(-> & _) | (_ & N)])];
      try discriminate.
    + left. split; reflexivity.
    + right. exists n. split; [exact B|]. left. split; reflexivity.
Qed.


(** ** The sweep with an obedient robot *)

Lemma last_cons (A : Type) (l : list A) : forall a d : A,
  last (a :: l) d = last l a.
Proof.
  induction l as [|b l IH]; intros a d; [reflexivity|].
  change (last (a :: b :: l) d) with (last (b :: l) d).
  rewrite (IH b d), (IH b a). reflexivity.
Qed.

Lemma last_app_cons (A : Type) (l l' : list A) (a d : A) :
  last (l ++ a :: l') d = last l' a.
Proof.
  induction l as [|b l IH]; [apply last_cons|].
  cbn [app]. rewrite last_cons. destruct l; [apply last_cons|].
  rewrite <- (IH). cbn [app]. rewrite !last_cons. reflexivity.
Qed.

Lemma legs_app (path : list coords) : forall (c p : coords) (path' : list coords),
  legs c (path ++ p :: path')
  = legs c path ++ (last path c, p) :: legs p path'.
Proof.
  induction path as [|q path IH]; intros c p path'; [reflexivity|].
  cbn [app legs]. rewrite IH, last_cons. reflexivity.
Qed.

Lemma readable_nil : readable [].
Proof.
  unfold readable. repeat split; try reflexivity; try discriminate.
Qed.

Lemma readable_hidden (c : coords) (m : str) :
  readable m -> forall x : coords, readable (hidden_at c m x).
Proof.
  intros H x. unfold hidden_at. destruct (coords_eqb x c);
    [exact H | apply readable_nil].
Qed.

Lemma after_after (st : session robot) (a b : list str) (r1 r2 : robot)
      (l1 l2 : list (coords * coords)) :
  after_commands (after_commands st a r1 l1) b r2 l2
  = after_commands st (a ++ b) r2 l2.
Proof.
  unfold after_commands, on_wire. cbn [sent sock_timeout closed].
  rewrite map_app, app_assoc. reflexivity.
Qed.

Section Sweep.

Implicit Types st : session robot.

Lemma pick_obeyed (f : nat) st :
  calm st ->
  readable (secret (client st) (position (client st))) ->
  pick_message obey (S (S f)) st
  = (Ok (secret (client st) (position (client st))),
     after_commands st [SERVER_PICK_UP] (client st) (move_log st)).
Proof.
  intros [B Q] (A & T & R & L). unfold pick_message.
  set (m := secret (client st) (position (client st))) in *.
  assert (E : send_message obey SERVER_PICK_UP st
              = (Ok tt,
                 mkSession [] [m ++ TERM] (sent st ++ on_wire [SERVER_PICK_UP])
                           (sock_timeout st) (closed st) (client st)
                           (move_log st))).
  { unfold send_message, send.
    change (obey (client st) (SERVER_PICK_UP ++ TERM))
      with (client st, [m ++ TERM]).
    rewrite B, Q. reflexivity. }
  rewrite (bind_ok _ _ _ E).
  rewrite (@get_message_one_segment robot _ m); try reflexivity;
    try assumption.
  - unfold len in L. rewrite length_app. change (length TERM) with 2%nat. lia.
  - rewrite forallb_app, A. reflexivity.
Qed.

Lemma logout_obeyed st :
  calm st ->
  logout obey st
  = (Ok tt, after_commands st [SERVER_LOGOUT] (client st) (move_log st)).
Proof.
  intros [B Q]. unfold logout, send_message, send.
  change (obey (client st) (SERVER_LOGOUT ++ TERM)) with (client st, @nil str).
  rewrite B, Q. reflexivity.
Qed.

End Sweep.

Section SweepRows.

Implicit Types st : session robot.

Lemma calm_after st (commands : list str) (r : robot)
      (log : list (coords * coords)) :
  calm (after_commands st commands r log).
Proof. split; reflexivity. Qed.

Lemma after_nothing st :
  calm st ->
  after_commands st []
    (mkRobot (position (client st)) (heading (client st)) (secret (client st)))
    (move_log st ++ [])
  = st.
Proof.
  destruct st as [b p s t cl [pos h sec] log]. intros [B Q].
  cbn in B, Q. subst. unfold after_commands, on_wire.
  cbn [sent sock_timeout closed client move_log map position heading secret].
  rewrite !app_nil_r. reflexivity.
Qed.

(** A row of the sweep goes by its plan. *)
Lemma search_row_obeyed (cols : list Z) :
  forall (f : nat) st (commands : list str) (cells : list coords)
         (found : bool),
    calm st ->
    (forall x, readable (secret (client st) x)) ->
    row_plan (secret (client st)) (heading (client st)) cols
             (position (client st))
    = (commands, cells, found) ->
    Forall reportable cells ->
    search_row obey (S (S (S f))) cols (position (client st)) st
    = (Ok (if found then Return
           else Continue (last cells (position (client st)))),
       after_commands st commands
         (mkRobot (last cells (position (client st))) (heading (client st))
                  (secret (client st)))
         (move_log st ++ legs (position (client st)) cells)).
Proof.
  induction cols as [|i rest IH]; intros f st commands cells found C R Pl F.
  - cbn in Pl. inversion Pl; subst. cbn [search_row last legs]. unfold ret.
    rewrite (after_nothing C). reflexivity.
  - destruct st as [b p s t cl [pos h sec] log]. destruct C as [B Q].
    cbn [buffer pending] in B, Q. subst b p.
    cbn [client position heading secret move_log] in *.
    set (st0 := mkSession [] [] s t cl (mkRobot pos h sec) log).
    assert (C0 : calm st0) by (split; reflexivity).
    cbn [search_row].
    rewrite (bind_ok _ _ _ (@pick_obeyed (S f) st0 C0 (R pos))).
    cbn [client position heading secret move_log st0].
    cbn [row_plan] in Pl.
    destruct (negb (str_eqb (sec pos) [])) eqn:N.
    + injection Pl as E1 E2 E3. subst commands cells found.
      rewrite (bind_ok _ _ _ (@logout_obeyed _ (calm_after _ _ _ _))).
      unfold ret. rewrite after_after. cbn [last legs app].
      rewrite app_nil_r. reflexivity.
    + destruct (i <? 2).
      * destruct (row_plan sec h rest (ahead h pos))
          as [[commands' cells'] found'] eqn:Pl'.
        injection Pl as E1 E2 E3. subst commands cells found.
        inversion F as [|x l F1 F2]; subst x l.
        match goal with
        | |- _ ?s1 = _ =>
            rewrite (bind_ok _ _ _
                       (@move_forward_obeyed f s1 (calm_after _ _ _ _) F1))
        end.
        cbn [client position heading secret move_log after_commands].
        rewrite after_after.
        match goal with
        | |- search_row obey _ rest _ ?s2 = _ =>
            pose proof (IH f s2 commands' cells' found' (calm_after _ _ _ _)
                          R Pl' F2) as E
        end.
        cbn [client position heading secret move_log after_commands] in E.
        rewrite E, after_after, last_cons. cbn [legs app].
        rewrite <- app_assoc. reflexivity.
      * destruct (row_plan sec h rest pos)
          as [[commands' cells'] found'] eqn:Pl'.
        injection Pl as E1 E2 E3. subst commands cells found.
        unfold bind at 1, ret at 1. cbv beta iota.
        match goal with
        | |- search_row obey _ rest _ ?s2 = _ =>
            pose proof (IH f s2 commands' cells' found' (calm_after _ _ _ _)
                          R Pl' F) as E
        end.
        cbn [client position heading secret move_log after_commands] in E.
        rewrite E, after_after. reflexivity.
Qed.

End SweepRows.

Lemma Forall_last (A : Type) (Q : A -> Prop) (l : list A) (d : A) :
  Forall Q l -> Q d -> Q (last l d).
Proof.
  intros F. revert d. induction F as [|x l Hx F IH]; intros d Hd;
    [exact Hd|].
  rewrite last_cons. apply IH. exact Hx.
Qed.

Section SweepSquare.

Implicit Types st : session robot.

Ltac obeyed H :=
  let E := fresh "E" in
  pose proof H as E;
  cbn [client position heading secret move_log after_commands] in E;
  rewrite (bind_ok _ _ _ E); clear E.

(** The rows of the sweep go by their plan. *)
Lemma search_rows_obeyed (rows : list Z) :
  forall (f : nat) st (direct : Z) (commands : list str)
         (cells : list coords) (found : bool),
    calm st ->
    (forall x, readable (secret (client st) x)) ->
    reportable (position (client st)) ->
    rows_plan (secret (client st)) rows (position (client st)) direct
              (heading (client st))
    = (commands, cells, found) ->
    Forall reportable cells ->
    exists o' : orientation,
      search_rows obey (S (S (S f))) rows (position (client st)) direct st
      = (Ok tt,
         after_commands st commands
           (mkRobot (last cells (position (client st))) o'
                    (secret (client st)))
           (move_log st ++ legs (position (client st)) cells)).
Proof.
  induction rows as [|i rest IH];
    intros f st direct commands cells found C R H Pl F.
  - cbn in Pl. injection Pl as E1 E2 E3. subst commands cells found.
    exists (heading (client st)). cbn [search_rows last legs]. unfold ret.
    rewrite (after_nothing C). reflexivity.
  - destruct st as [b p s t cl [pos h sec] log]. destruct C as [B Q].
    cbn [buffer pending] in B, Q. subst b p.
    cbn [client position heading secret move_log] in *.
    set (st0 := mkSession [] [] s t cl (mkRobot pos h sec) log).
    assert (C0 : calm st0) by (split; reflexivity).
    cbn [search_rows rows_plan] in *.
    destruct (row_plan sec h (range (-2) 3) pos)
      as [[commands1 cells1] found1] eqn:Pl1.
    assert (F1 : Forall reportable cells1).
    { destruct found1.
      - injection Pl as E1 E2 E3. subst. exact F.
      - destruct (direct =? 0);
          [destruct (rows_plan sec rest
                       (ahead (right_of h) (last cells1 pos)) 1
                       (right_of (right_of h)))
            as [[commands2 cells2] found2]
          |destruct (rows_plan sec rest
                       (ahead (left_of h) (last cells1 pos)) 0
                       (left_of (left_of h)))
            as [[commands2 cells2] found2]];
          injection Pl as E1 E2 E3; subst;
          apply Forall_app in F; apply F. }
    obeyed (@search_row_obeyed (range (-2) 3) f st0 commands1 cells1 found1
              C0 R Pl1 F1).
    destruct found1.
    + injection Pl as E1 E2 E3. subst commands cells found.
      exists h. reflexivity.
    + set (c1 := last cells1 pos) in *.
      assert (H1 : reportable c1) by (apply Forall_last; assumption).
      destruct (direct =? 0).
      * set (c2 := ahead (right_of h) c1) in *.
        destruct (rows_plan sec rest c2 1 (right_of (right_of h)))
          as [[commands2 cells2] found2] eqn:Pl2.
        injection Pl as E1 E2 E3. subst commands cells found.
        apply Forall_app in F. destruct F as [_ F].
        inversion F as [|x l H2 F2]; subst x l.
        match goal with
        | |- exists _, _ ?s1 = _ =>
            obeyed (@turn_right_obeyed (S f) s1 (calm_after _ _ _ _) H1)
        end.
        rewrite after_after.
        match goal with
        | |- exists _, _ ?s1 = _ =>
            obeyed (@move_forward_obeyed f s1 (calm_after _ _ _ _) H2)
        end.
        rewrite after_after.
        match goal with
        | |- exists _, _ ?s1 = _ =>
            obeyed (@turn_right_obeyed (S f) s1 (calm_after _ _ _ _) H2)
        end.
        rewrite after_after.
        match goal with
        | |- exists _, search_rows obey _ rest _ _ ?s1 = _ =>
            destruct (IH f s1 1 commands2 cells2 found2 (calm_after _ _ _ _)
                        R H2 Pl2 F2) as [o' E]
        end.
        cbn [client position heading secret move_log after_commands] in E.
        exists o'. fold c2. rewrite E, after_after, last_app_cons, legs_app.
        fold c1. rewrite <- !app_assoc. reflexivity.
      * set (c2 := ahead (left_of h) c1) in *.
        destruct (rows_plan sec rest c2 0 (left_of (left_of h)))
          as [[commands2 cells2] found2] eqn:Pl2.
        injection Pl as E1 E2 E3. subst commands cells found.
        apply Forall_app in F. destruct F as [_ F].
        inversion F as [|x l H2 F2]; subst x l.
        match goal with
        | |- exists _, _ ?s1 = _ =>
            obeyed (@turn_left_obeyed (S f) s1 (calm_after _ _ _ _) H1)
        end.
        rewrite after_after.
        match goal with
        | |- exists _, _ ?s1 = _ =>
            obeyed (@move_forward_obeyed f s1 (calm_after _ _ _ _) H2)
        end.
        rewrite after_after.
        match goal with
        | |- exists _, _ ?s1 = _ =>
            obeyed (@turn_left_obeyed (S f) s1 (calm_after _ _ _ _) H2)
        end.
        rewrite after_after.
        match goal with
        | |- exists _, search_rows obey _ rest _ _ ?s1 = _ =>
            destruct (IH f s1 0 commands2 cells2 found2 (calm_after _ _ _ _)
                        R H2 Pl2 F2) as [o' E]
        end.
        cbn [client position heading secret move_log after_commands] in E.
        exists o'. fold c2. rewrite E, after_after, last_app_cons, legs_app.
        fold c1. rewrite <- !app_assoc. reflexivity.
Qed.

End SweepSquare.

(** The sweep goes by its plan: the turn towards East, then the rows. *)
Lemma search_square_obeyed (f : nat) (st : session robot)
      (commands : list str) (cells : list coords) (found : bool) :
  calm st ->
  (forall x, readable (secret (client st) x)) ->
  position (client st) = DESTINATION_SQUARE ->
  rows_plan (secret (client st)) (range (-2) 3) DESTINATION_SQUARE 0 East
  = (commands, cells, found) ->
  Forall reportable cells ->
  exists o' : orientation,
    search_square obey (S (S (S f))) (code (heading (client st))) st
    = (Ok tt,
       after_commands st (spec_turns (heading (client st)) East ++ commands)
         (mkRobot (last cells DESTINATION_SQUARE) o' (secret (client st)))
         (move_log st ++ legs DESTINATION_SQUARE cells)).
Proof.
  destruct st as [b p s t cl [pos h sec] log]. intros [B Q] R P Pl F.
  cbn [buffer pending client position heading secret move_log] in *.
  subst b p pos.
  set (st0 := mkSession [] [] s t cl (mkRobot DESTINATION_SQUARE h sec) log).
  assert (C0 : calm st0) by (split; reflexivity).
  assert (H0 : reportable DESTINATION_SQUARE)
    by (unfold reportable, DESTINATION_SQUARE; cbn [fst snd]; lia).
  unfold search_square. change RIGHT with (code East).
  pose proof (@turn_to_direction_obeyed (S f) East st0 C0 H0) as E.
  cbn [client position heading secret move_log st0] in E.
  rewrite (bind_ok _ _ _ E). clear E.
  match goal with
  | |- exists _, search_rows obey _ _ _ _ ?s1 = _ =>
      destruct (@search_rows_obeyed (range (-2) 3) f s1 0 commands cells
                  found (calm_after _ _ _ _) R H0 Pl F) as [o' E]
  end.
  cbn [client position heading secret move_log after_commands] in E.
  exists o'. rewrite E, after_after. reflexivity.
Qed.

Ltac split_region H :=
  let b := fresh "b" in
  let Hb := fresh "Hb" in
  match type of H with
  | [] = ?before ++ _ :: _ => destruct before; discriminate H
  | _ :: _ = ?before ++ ?c :: ?after =>
      destruct before as [|b before];
      [ cbn [app] in H; injection H as Hb H; subst c after
      | cbn [app] in H; injection H as Hb H; subst b; split_region H ]
  end.

Lemma map_snd_legs (path : list coords) : forall c : coords,
  map snd (legs c path) = path.
Proof.
  induction path as [|q path IH]; intros c; [reflexivity|].
  cbn [legs map snd]. rewrite IH. reflexivity.
Qed.

(** The sweep of a region with one message, from any state between two
    exchanges with the robot on the entry corner. *)
Lemma sweep_found (f : nat) (st : session robot) (before : list coords)
      (c : coords) (after : list coords) (m : str) :
  calm st ->
  position (client st) = DESTINATION_SQUARE ->
  secret (client st) = hidden_at c m ->
  m <> [] ->
  readable m ->
  region_serpentine = before ++ c :: after ->
  exists (o' : orientation) (commands : list str) (cells : list coords),
    search_square obey (S (S (S f))) (code (heading (client st))) st
    = (Ok tt,
       after_commands st
         (spec_turns (heading (client st)) East
            ++ commands ++ [SERVER_PICK_UP; SERVER_LOGOUT])
         (mkRobot c o' (hidden_at c m))
         (move_log st ++ legs DESTINATION_SQUARE cells))
    /\ DESTINATION_SQUARE :: cells = before ++ [c]
    /\ length (filter (str_eqb (SERVER_PICK_UP ++ TERM)) (on_wire commands))
       = length before.
Proof.
  intros C P Hs Hm R Hr.
  destruct m as [|a m']; [contradiction|].
  unfold region_serpentine in Hr.
  split_region Hr;
    match type of Hs with
    | _ = hidden_at ?c0 _ =>
        let v := eval vm_compute in
                   (rows_plan (hidden_at c0 (a :: m')) (range (-2) 3)
                              DESTINATION_SQUARE 0 East) in
        assert (Pl : rows_plan (secret (client st)) (range (-2) 3)
                               DESTINATION_SQUARE 0 East = v)
          by (rewrite Hs; vm_compute; reflexivity);
        let cmds := eval vm_compute in
                      (removelast (removelast (fst (fst v)))) in
        edestruct (@search_square_obeyed f st _ _ _ C
                     (fun x => eq_ind_r (fun s => readable (s x))
                                        (readable_hidden c0 R x) Hs)
                     P Pl) as [o' E];
        [ repeat constructor; unfold reportable; cbn [fst snd]; lia
        | exists o', cmds; eexists; rewrite Hs in E; split; [exact E|];
          split; reflexivity ]
    end.
Qed.

(** X19. The sweep finds the message wherever it lies: with one message
    hidden on a cell of the region and an obedient robot on the entry
    corner, whatever its heading, [search_square] visits the cells of the
    serpentine up to that cell and no other, has asked for a pick-up on each
    of them once, and ends with [106 LOGOUT] on the cell of the message. *)
Theorem sweep_finds_the_message :
  forall (h : orientation) (before : list coords) (c : coords)
         (after : list coords) (m : str) (f : nat),
    region_serpentine = before ++ c :: after ->
    m <> [] ->
    readable m ->
    exists st' : session robot,
      search_square obey (S (S (S f))) (code h)
        (embark (mkRobot DESTINATION_SQUARE h (hidden_at c m)))
      = (Ok tt, st')
      /\ position (client st') = c
      /\ cells_visited DESTINATION_SQUARE st' = before ++ [c]
      /\ length (filter (str_eqb (SERVER_PICK_UP ++ TERM)) (sent st'))
         = S (length before)
      /\ last (sent st') [] = SERVER_LOGOUT ++ TERM.
Proof.
  intros h before c after m f Hr Hm R.
  destruct (@sweep_found f
              (embark (mkRobot DESTINATION_SQUARE h (hidden_at c m)))
              before c after m (conj eq_refl eq_refl) eq_refl eq_refl
              Hm R Hr)
    as (o' & commands & cells & E & V & N).
  cbn [client heading embark move_log] in E.
  eexists. split; [exact E|].
  unfold cells_visited, after_commands.
  cbn [client position move_log sent app].
  rewrite map_snd_legs, !on_wire_app, !filter_app, !length_app, N.
  split; [reflexivity|]. split; [exact V|]. split.
  - destruct h; cbn; lia.
  - rewrite !app_assoc.
    change (on_wire [SERVER_PICK_UP; SERVER_LOGOUT])
      with [SERVER_PICK_UP ++ TERM; SERVER_LOGOUT ++ TERM].
    rewrite last_app_cons. reflexivity.
Qed.

Lemma sweep_finds_the_message_witness :
  exists st' : session robot,
    search_square obey 3 (code North)
      (embark (mkRobot DESTINATION_SQUARE North
                       (hidden_at (0, 1) (lit "secret"))))
    = (Ok tt, st')
    /\ position (client st') = (0, 1)
    /\ cells_visited DESTINATION_SQUARE st'
       = [(-2, 2); (-1, 2); (0, 2); (1, 2); (2, 2); (2, 1); (1, 1)]
           ++ [(0, 1)]
    /\ length (filter (str_eqb (SERVER_PICK_UP ++ TERM)) (sent st')) = 8%nat
    /\ last (sent st') [] = SERVER_LOGOUT ++ TERM.
Proof.
  apply (@sweep_finds_the_message North
           [(-2, 2); (-1, 2); (0, 2); (1, 2); (2, 2); (2, 1); (1, 1)]
           (0, 1)
           [(-1, 1); (-2, 1);
            (-2, 0); (-1, 0); (0, 0); (1, 0); (2, 0);
            (2, -1); (1, -1); (0, -1); (-1, -1); (-2, -1);
            (-2, -2); (-1, -2); (0, -2); (1, -2); (2, -2)]
           (lit "secret") 0).
  - reflexivity.
  - discriminate.
  - unfold readable. repeat split; try reflexivity; try discriminate.
Defined.





(** ** The way to the entry corner, with any peer *)

Section Way.

Variable Client : Type.
Variable react : Client -> str -> Client * list str.
Implicit Types st : session Client.

Lemma keeps_log_bind (A B : Type) (m : M (session Client) A)
      (k : A -> M (session Client) B) :
  keeps_log m -> (forall a, keeps_log (k a)) -> keeps_log (bind m k).
Proof.
  intros Hm Hk s r s'. unfold bind.
  destruct (m s) as [[a|e|] s1] eqn:M1; intros K.
  - rewrite (Hk a _ _ _ K). eapply Hm. eassumption.
  - inversion K; subst. eapply Hm. eassumption.
  - inversion K; subst. eapply Hm. eassumption.
Qed.

Lemma keeps_log_ret (A : Type) (a : A) :
  keeps_log (@ret (session Client) A a).
Proof. intros s r s' K. inversion K. reflexivity. Qed.

Lemma keeps_log_command (fuel : nat) (command : str) :
  keeps_log (send_message react command ;;
             msg <- get_message fuel CLIENT_OK_MAX_LENGTH ;;
             lift (parse_client_ok msg)).
Proof.
  apply keeps_log_bind.
  - intros s r s' K. rewrite send_message_eq in K. inversion K.
    apply send_message_log.
  - intros _. apply keeps_log_bind.
    + intros s r s' K. apply get_message_frame in K. apply K.
    + intros msg s r s' K. inversion K. reflexivity.
Qed.

Lemma keeps_log_turn_to_direction (fuel : nat) (direction target : Z) :
  keeps_log (turn_to_direction react fuel direction target).
Proof.
  unfold turn_to_direction.
  apply keeps_log_bind; [|intros _; apply keeps_log_ret].
  repeat match goal with
    | |- keeps_log (if ?b then _ else _) => destruct b
    end;
    repeat first [ apply keeps_log_ret
                 | apply keeps_log_command
                 | apply keeps_log_bind; [|intros _] ].
Qed.

(** The loop to the entry corner is left on the entry corner only. *)
Lemma reach_returns (fuel : nat) :
  forall (d : Z) (c : coords) st (d' : Z) (c' : coords) st',
    reach_destination_square react fuel d c st = (Ok (d', c'), st') ->
    c' = DESTINATION_SQUARE
    /\ ((c = DESTINATION_SQUARE /\ d' = d /\ st' = st)
        \/ (c <> DESTINATION_SQUARE
            /\ exists (log : list (coords * coords)) (prev : coords),
                move_log st'
                = move_log st ++ log ++ [(prev, DESTINATION_SQUARE)])).
Proof.
  induction fuel as [|f IH]; intros d c st d' c' st';
    cbn [reach_destination_square];
    destruct (coords_eqb c DESTINATION_SQUARE) eqn:E; cbn [negb];
    try discriminate;
    try (apply coords_eqb_eq in E; unfold ret; intros K; inversion K; subst;
         split; [reflexivity|]; left; repeat split; reflexivity).
  assert (N : c <> DESTINATION_SQUARE).
  { intros ->. rewrite coords_eqb_refl in E. discriminate E. }
  unfold bind at 1.
  destruct (turn_to_direction react f d
              (get_direction_to_dest c DESTINATION_SQUARE) st)
    as [[d1|e|] s1] eqn:T; try discriminate.
  apply keeps_log_turn_to_direction in T.
  unfold bind at 1.
  destruct (move_forward react f c s1) as [[c1|e|] s2] eqn:F;
    try discriminate.
  apply move_forward_returns in F. destruct F as (_ & L & _).
  intros K. apply IH in K.
  destruct K as (-> & [(-> & _ & ->) | (_ & log & prev & L')]);
    (split; [reflexivity|]); right; (split; [exact N|]).
  - exists [], c. rewrite L, T. reflexivity.
  - exists ((c, c1) :: log), prev. rewrite L', L, T, <- app_assoc.
    reflexivity.
Qed.

End Way.

(** X21. With any peer: when the loop of [find_and_search_square] that
    leads the robot to the entry corner is left, the position is the entry
    corner [(-2, 2)]; and unless the robot stood there already, the last
    move logged is a move onto it. The sweep never starts from elsewhere. *)
Theorem way_ends_on_the_entry_corner :
  forall (Client : Type) (react : Client -> str -> Client * list str)
         (fuel : nat) (d : Z) (c : coords) (st : session Client)
         (d' : Z) (c' : coords) (st' : session Client),
    reach_destination_square react fuel d c st = (Ok (d', c'), st') ->
    c' = DESTINATION_SQUARE
    /\ (c <> DESTINATION_SQUARE ->
        exists (log : list (coords * coords)) (prev : coords),
          move_log st' = move_log st ++ log ++ [(prev, DESTINATION_SQUARE)]).
Proof.
  intros Client react fuel d c st d' c' st' K.
  apply reach_returns in K.
  destruct K as (E & [(-> & _) | (_ & L)]); split; try exact E;
    [intros N; contradiction | intros _; exact L].
Qed.

Lemma way_ends_on_the_entry_corner_witness :
  (-2, 2) = DESTINATION_SQUARE
  /\ ((-2, 1) <> DESTINATION_SQUARE ->
      exists (log : list (coords * coords)) (prev : coords),
        move_log (snd (reach_destination_square scripted 6 RIGHT (-2, 1)
                         (connect [report (-2, 1); report (-2, 2)])))
        = [] ++ log ++ [(prev, DESTINATION_SQUARE)]).
Proof.
  apply (@way_ends_on_the_entry_corner unit scripted 6 RIGHT (-2, 1)
           (connect [report (-2, 1); report (-2, 2)])
           UP (-2, 2)
           (snd (reach_destination_square scripted 6 RIGHT (-2, 1)
                   (connect [report (-2, 1); report (-2, 2)])))).
  reflexivity.
Defined.


(** ** The sweep, with any peer *)

Lemma str_eqb_app_tail (a b t : str) :
  str_eqb (a ++ t) (b ++ t) = str_eqb a b.
Proof.
  destruct (str_eqb a b) eqn:E.
  - apply str_eqb_eq in E. subst. apply str_eqb_refl.
  - apply str_eqb_neq. apply str_eqb_neq in E. intros H. apply E.
    eapply app_inv_tail. eassumption.
Qed.

Lemma times_sent_app (message : str) (a b : list str) :
  times_sent message (a ++ b)
  = (times_sent message a + times_sent message b)%nat.
Proof. unfold times_sent. rewrite filter_app, length_app. reflexivity. Qed.

Lemma times_sent_none (message : str) (out : list str) :
  Forall (fun x => x <> message) out ->
  times_sent message (on_wire out) = O.
Proof.
  induction 1 as [|x l Hx F IH]; [reflexivity|].
  unfold times_sent in *. cbn [on_wire map filter].
  rewrite str_eqb_app_tail.
  replace (str_eqb message x) with false; [exact IH|].
  symmetry. apply str_eqb_neq. congruence.
Qed.

Lemma drive_not_pick_up (out : list str) :
  Forall drive_command out -> Forall (fun x => x <> SERVER_PICK_UP) out.
Proof.
  apply Forall_impl. intros x [-> | [-> | ->]]; discriminate.
Qed.

Lemma sweeping_drive (out : list str) :
  Forall drive_command out -> sweeping 0 out.
Proof.
  intros F. split.
  - eapply Forall_impl; [|exact F]. intros x H. left. exact H.
  - rewrite times_sent_none; [lia | apply drive_not_pick_up; exact F].
Qed.

Lemma sweeping_app (n1 n2 : nat) (o1 o2 : list str) :
  sweeping n1 o1 -> sweeping n2 o2 -> sweeping (n1 + n2) (o1 ++ o2).
Proof.
  intros [F1 L1] [F2 L2]. split.
  - apply Forall_app. split; assumption.
  - rewrite on_wire_app, times_sent_app. lia.
Qed.

Lemma sweeping_more (n n' : nat) (out : list str) :
  (n <= n')%nat -> sweeping n out -> sweeping n' out.
Proof. intros L [F B]. split; [exact F | lia]. Qed.

Lemma sweeping_pick_up : sweeping 1 [SERVER_PICK_UP].
Proof.
  split; [repeat constructor; right; reflexivity | vm_compute; lia].
Qed.

Section SweepTrace.

Variable Client : Type.
Variable react : Client -> str -> Client * list str.
Implicit Types st : session Client.

(** What drives the robot sends commands that drive it. *)
Lemma driven (A : Type) (m : M (session Client) A) st (r : result A) st' :
  behaves drive_command reader_fault m ->
  m st = (r, st') ->
  exists out : list str,
    sent st' = sent st ++ on_wire out /\ sweeping 0 out.
Proof.
  intros B K. destruct (B _ _ _ K) as ((out & S1 & F) & _).
  exists out. split; [exact S1 | apply sweeping_drive; exact F].
Qed.

Lemma drives_move_forward (fuel : nat) (c : coords) :
  behaves drive_command reader_fault (move_forward react fuel c).
Proof.
  apply behaves_move_forward. left; reflexivity.
Qed.

Lemma drives_turn_left (fuel : nat) :
  behaves drive_command reader_fault (turn_left react fuel).
Proof.
  apply behaves_turn_left. right; left; reflexivity.
Qed.

Lemma drives_turn_right (fuel : nat) :
  behaves drive_command reader_fault (turn_right react fuel).
Proof.
  apply behaves_turn_right. right; right; reflexivity.
Qed.

(** [swept], put together. *)
Lemma swept_after (A : Type) (n1 n2 n : nat) (done : result A)
      (o1 : list str) st s1 (r : result A) st' :
  sweeping n1 o1 ->
  sent s1 = sent st ++ on_wire o1 ->
  (n1 + n2 <= n)%nat ->
  swept n2 done s1 r st' ->
  swept n done st r st'.
Proof.
  intros W1 S1 L (o2 & W2 & D).
  exists (o1 ++ o2). split.
  - eapply sweeping_more; [exact L | apply sweeping_app; assumption].
  - destruct D as [(E & S2) | S2]; [left; split; [exact E|] | right];
      rewrite S2, S1, !on_wire_app, <- !app_assoc; reflexivity.
Qed.

Lemma swept_here (A : Type) (n : nat) (done r : result A) st :
  swept n done st r st.
Proof.
  exists []. split.
  - split; [constructor | cbn; lia].
  - right. cbn [on_wire map]. rewrite app_nil_r. reflexivity.
Qed.

Lemma swept_row (fuel : nat) (cols : list Z) :
  forall (c : coords) st (r : result (loop_ctl coords)) st',
    search_row react fuel cols c st = (r, st') ->
    swept (length cols) (Ok Return) st r st'.
Proof.
  induction cols as [|i rest IH]; intros c st r st'; cbn [search_row].
  - unfold ret. intros K; inversion K; subst. apply swept_here.
  - unfold bind at 1, pick_message, bind at 1.
    rewrite send_message_eq.
    pose proof (send_message_sent react SERVER_PICK_UP st) as S0.
    set (s0 := snd (send_message react SERVER_PICK_UP st)) in *.
    destruct (get_message fuel CLIENT_MESSAGE_MAX_LENGTH s0)
      as [[msg|e|] s1] eqn:G;
      apply get_message_frame in G; destruct G as (G & _);
      rewrite S0 in G.
    2,3: intros K; inversion K; subst;
      exists [SERVER_PICK_UP];
      (split; [eapply sweeping_more; [|apply sweeping_pick_up];
               cbn [length]; lia|]);
      right; exact G.
    destruct (negb (str_eqb msg [])).
    + unfold bind, logout, ret. rewrite send_message_eq.
      intros K; inversion K; subst.
      exists [SERVER_PICK_UP]. split.
      * eapply sweeping_more; [|apply sweeping_pick_up]. cbn [length]. lia.
      * left. split; [reflexivity|].
        rewrite send_message_sent, G, on_wire_app, <- app_assoc.
        reflexivity.
    + unfold bind at 1.
      destruct (i <? 2).
      * destruct (move_forward react fuel c s1) as [[c1|e|] s2] eqn:F;
          destruct (@driven _ _ _ _ _ (drives_move_forward fuel c) F)
            as (o2 & S2 & W2).
        -- intros K. apply IH in K.
           eapply (@swept_after _ 1 (length rest) _ _
                     ([SERVER_PICK_UP] ++ o2));
             [apply (sweeping_app sweeping_pick_up W2)
             | rewrite S2, G, on_wire_app, <- app_assoc; reflexivity
             | cbn [length]; lia
             | exact K].
        -- intros K; inversion K; subst.
           exists ([SERVER_PICK_UP] ++ o2). split.
           ++ eapply sweeping_more;
                [|apply (sweeping_app sweeping_pick_up W2)].
              cbn [length]. lia.
           ++ right. rewrite S2, G, on_wire_app, <- app_assoc. reflexivity.
        -- intros K; inversion K; subst.
           exists ([SERVER_PICK_UP] ++ o2). split.
           ++ eapply sweeping_more;
                [|apply (sweeping_app sweeping_pick_up W2)].
              cbn [length]. lia.
           ++ right. rewrite S2, G, on_wire_app, <- app_assoc. reflexivity.
      * unfold ret at 1. intros K. apply IH in K.
        eapply (@swept_after _ 1 (length rest) _ _ [SERVER_PICK_UP]);
          [apply sweeping_pick_up | exact G | cbn [length]; lia | exact K].
Qed.

End SweepTrace.

Section SweepTraceRows.

Variable Client : Type.
Variable react : Client -> str -> Client * list str.
Implicit Types st : session Client.

(** A step that drives the robot, then a part of the sweep. *)
Lemma swept_driven_then (A B : Type) (m : M (session Client) A)
      (k : A -> M (session Client) B) (n : nat) (done : result B)
      st (r : result B) st' :
  behaves drive_command reader_fault m ->
  (forall a s1 r1 s2, k a s1 = (r1, s2) -> swept n done s1 r1 s2) ->
  bind m k st = (r, st') ->
  swept n done st r st'.
Proof.
  intros Hm Hk. unfold bind.
  destruct (m st) as [[a|e|] s1] eqn:M1;
    destruct (@driven _ _ _ _ _ _ Hm M1) as (o1 & S1 & W1); intros K.
  - apply Hk in K.
    eapply (@swept_after _ _ 0 n n); [exact W1 | exact S1 | lia | exact K].
  - inversion K; subst. exists o1. split.
    + eapply sweeping_more; [|exact W1]. lia.
    + right. exact S1.
  - inversion K; subst. exists o1. split.
    + eapply sweeping_more; [|exact W1]. lia.
    + right. exact S1.
Qed.

Lemma swept_rows (fuel : nat) (rows : list Z) :
  forall (c : coords) (direct : Z) st (r : result unit) st',
    search_rows react fuel rows c direct st = (r, st') ->
    swept (5 * length rows) (Ok tt) st r st'.
Proof.
  induction rows as [|i rest IH]; intros c direct st r st';
    cbn [search_rows].
  - unfold ret. intros K; inversion K; subst. apply swept_here.
  - unfold bind at 1.
    destruct (search_row react fuel (range (-2) 3) c st)
      as [r1 s1] eqn:Row.
    apply swept_row in Row. change (length (range (-2) 3)) with 5%nat in Row.
    destruct Row as (o1 & W1 & D).
    assert (L : (5 <= 5 * length (i :: rest))%nat) by (cbn [length]; lia).
    destruct r1 as [[c1|]|e|].
    + destruct D as [(Q & _) | S1]; [discriminate Q|].
      intros K.
      eapply (@swept_after _ _ 5 (5 * length rest));
        [exact W1 | exact S1 | cbn [length]; lia |].
      revert K. destruct (direct =? 0); intros K.
      * eapply swept_driven_then; [apply drives_turn_right| |exact K].
        intros u1 sa ra sb Ka.
        eapply swept_driven_then; [apply drives_move_forward| |exact Ka].
        intros c2 sc rc sd Kc.
        eapply swept_driven_then; [apply drives_turn_right| |exact Kc].
        intros u2 se re sf Ke. eapply IH. exact Ke.
      * eapply swept_driven_then; [apply drives_turn_left| |exact K].
        intros u3 sa ra sb Ka.
        eapply swept_driven_then; [apply drives_move_forward| |exact Ka].
        intros c2 sc rc sd Kc.
        eapply swept_driven_then; [apply drives_turn_left| |exact Kc].
        intros u4 se re sf Ke. eapply IH. exact Ke.
    + unfold ret. intros K; inversion K; subst.
      exists o1. split; [eapply sweeping_more; [exact L | exact W1]|].
      destruct D as [(_ & S1) | S1];
        [left; split; [reflexivity | exact S1] | right; exact S1].
    + intros K; inversion K; subst.
      exists o1. split; [eapply sweeping_more; [exact L | exact W1]|].
      destruct D as [(Q & _) | S1]; [discriminate Q | right; exact S1].
    + intros K; inversion K; subst.
      exists o1. split; [eapply sweeping_more; [exact L | exact W1]|].
      destruct D as [(Q & _) | S1]; [discriminate Q | right; exact S1].
Qed.

Lemma drives_turn_to_direction (fuel : nat) (direction target : Z) :
  behaves drive_command reader_fault
          (turn_to_direction react fuel direction target).
Proof.
  apply behaves_turn_to_direction;
    [right; left; reflexivity | right; right; reflexivity].
Qed.

Lemma drives_reach (fuel : nat) (direction : Z) (c : coords) :
  behaves drive_command reader_fault
          (reach_destination_square react fuel direction c).
Proof.
  apply behaves_reach;
    [left; reflexivity | right; left; reflexivity
     | right; right; reflexivity].
Qed.

Lemma swept_find_and_search_square (fuel : nat) st (r : result unit) st' :
  find_and_search_square react fuel st = (r, st') ->
  swept 25 (Ok tt) st r st'.
Proof.
  unfold find_and_search_square. intros K.
  eapply swept_driven_then;
    [apply behaves_send_message; right; left; reflexivity| |exact K].
  intros u5 s1 r1 s2 K1.
  eapply swept_driven_then; [apply behaves_get_message| |exact K1].
  intros msg s3 r3 s4 K3.
  eapply swept_driven_then;
    [apply behaves_lift; apply parse_client_ok_raises| |exact K3].
  intros c0 s5 r5 s6 K5.
  eapply swept_driven_then; [apply drives_move_forward| |exact K5].
  intros c1 s7 r7 s8 K7.
  eapply swept_driven_then; [apply drives_reach| |exact K7].
  intros reached s9 r9 s10 K9. unfold search_square in K9.
  eapply swept_driven_then; [apply drives_turn_to_direction| |exact K9].
  intros u6 sa ra sb Ka. apply swept_rows in Ka. exact Ka.
Qed.

End SweepTraceRows.


Lemma py_str_not_of_the_sweep (n : Z) : not_of_the_sweep (py_str n).
Proof.
  split; intros E; pose proof (py_str_plain n) as H; rewrite E in H;
    discriminate H.
Qed.

Lemma sweeping_no_logout (n : nat) (out : list str) :
  sweeping n out -> Forall (fun message => message <> SERVER_LOGOUT) out.
Proof.
  intros [F _]. eapply Forall_impl; [|exact F].
  intros x [[-> | [-> | ->]] | ->]; discriminate.
Qed.

(** A whole session: the handshake, a stretch of the sweep, and either
    [106 LOGOUT] on a normal end or what answers a fault. *)
Lemma run_swept (Client : Type) (react : Client -> str -> Client * list str)
      (fuel : nat) (st : session Client) :
  exists handshake out final : list str,
    Forall not_of_the_sweep handshake
    /\ sweeping 25 out
    /\ Forall not_of_the_sweep final
    /\ ((fst (run react fuel st) = Ok tt
         /\ sent (snd (run react fuel st))
            = sent st ++ on_wire (handshake ++ out ++ [SERVER_LOGOUT]))
        \/ sent (snd (run react fuel st))
           = sent st ++ on_wire (handshake ++ out ++ final)).
Proof.
  assert (N : sweeping 25 []) by (split; [constructor | cbn; lia]).
  assert (Q : forall m : str,
             In m [SERVER_LOGIN_FAILED; SERVER_SYNTAX_ERROR;
                   SERVER_LOGIC_ERROR] ->
             Forall not_of_the_sweep [m]).
  { intros m [<- | [<- | [<- | []]]]; repeat constructor; discriminate. }
  unfold run.
  destruct ((authenticate react fuel ;; find_and_search_square react fuel) st)
    as [r st1] eqn:Body.
  unfold bind in Body.
  destruct (authenticate react fuel st) as [r1 s1] eqn:A.
  destruct (authenticate_outcome _ _ _ A) as (_ & hs & S1 & D).
  assert (Hh : Forall not_of_the_sweep hs).
  { destruct D as [(-> & _) | (n & _ & [(-> & _) | (-> & _)])];
      repeat constructor; try apply py_str_not_of_the_sweep;
      discriminate. }
  clear D A.
  assert (B : exists out : list str,
             sweeping 25 out
             /\ ((r = Ok tt
                  /\ sent st1
                     = sent st ++ on_wire (hs ++ out ++ [SERVER_LOGOUT]))
                 \/ sent st1 = sent st ++ on_wire (hs ++ out))).
  { destruct r1 as [[]|e1|].
    - apply swept_find_and_search_square in Body.
      destruct Body as (out & W & [(-> & S2) | S2]); exists out;
        (split; [exact W|]); [left; split; [reflexivity|] | right];
        rewrite S2, S1, !on_wire_app, <- !app_assoc; reflexivity.
    - inversion Body; subst. exists []. split; [exact N|]. right.
      rewrite app_nil_r. exact S1.
    - inversion Body; subst. exists []. split; [exact N|]. right.
      rewrite app_nil_r. exact S1. }
  clear Body S1.
  destruct B as (out & W & [(-> & S2) | S2]).
  - exists hs, out, []. split; [exact Hh|]. split; [exact W|].
    split; [constructor|]. left. split; [reflexivity | exact S2].
  - assert (T : forall (final : list str) (s3 : session Client),
               sent s3 = sent st1 ++ on_wire final ->
               sent s3 = sent st ++ on_wire (hs ++ out ++ final)).
    { intros final s3 ->.
      rewrite S2, !on_wire_app, <- !app_assoc. reflexivity. }
    assert (T0 : sent st1 = sent st1 ++ on_wire []).
    { cbn [on_wire map]. rewrite app_nil_r. reflexivity. }
    destruct r as [[]|e|];
      [exists hs, out, [] | destruct e | exists hs, out, []];
      [ | exists hs, out, [SERVER_LOGIN_FAILED]
        | exists hs, out, [SERVER_SYNTAX_ERROR]
        | exists hs, out, [SERVER_LOGIC_ERROR]
        | exists hs, out, [] | exists hs, out, []
        | exists hs, out, [] | exists hs, out, [] | ];
      (split; [exact Hh|]); (split; [exact W|]);
      (split; [first [apply Forall_nil | apply Q; simpl; tauto]|]);
      right; apply T;
      first [ exact T0
            | rewrite answer_sent; cbn [close snd sent];
              apply send_message_sent ].
Qed.

(** X22. Whatever the peer does, a session asks for 25 pick-ups at most:
    [105 GET MESSAGE] is sent once per cell of the region, and never by the
    handshake, by the way to the entry corner or in answer to a fault; a
    robot that does not move makes the server repeat [102 MOVE], not the
    pick-up. *)
Theorem at_most_25_pick_ups :
  forall (Client : Type) (react : Client -> str -> Client * list str)
         (fuel : nat) (st : session Client),
    (times_sent SERVER_PICK_UP (sent (snd (run react fuel st)))
     <= times_sent SERVER_PICK_UP (sent st) + 25)%nat.
Proof.
  intros Client react fuel st.
  assert (Z0 : forall l, Forall not_of_the_sweep l ->
                         times_sent SERVER_PICK_UP (on_wire l) = O).
  { intros l F. apply times_sent_none. eapply Forall_impl; [|exact F].
    intros x [H _]. exact H. }
  destruct (run_swept react fuel st)
    as (hs & out & final & Hh & [_ W] & Hf & [(_ & S) | S]);
    rewrite S, !times_sent_app, !on_wire_app, !times_sent_app,
      (Z0 _ Hh).
  - change (times_sent SERVER_PICK_UP (on_wire [SERVER_LOGOUT])) with O.
    lia.
  - rewrite (Z0 _ Hf). lia.
Qed.

(** X23. Whatever the peer does, [106 LOGOUT] is the end: it is sent once
    at most, nothing is sent after it, and a session that has sent it ends
    normally. *)
Theorem nothing_after_logout :
  forall (Client : Type) (react : Client -> str -> Client * list str)
         (fuel : nat) (st : session Client),
  exists out : list str,
    Forall (fun message => message <> SERVER_LOGOUT) out
    /\ ((fst (run react fuel st) = Ok tt
         /\ sent (snd (run react fuel st))
            = sent st ++ on_wire (out ++ [SERVER_LOGOUT]))
        \/ sent (snd (run react fuel st)) = sent st ++ on_wire out).
Proof.
  intros Client react fuel st.
  assert (Z0 : forall l, Forall not_of_the_sweep l ->
                         Forall (fun message => message <> SERVER_LOGOUT) l).
  { intros l F. eapply Forall_impl; [|exact F]. intros x [_ H]. exact H. }
  destruct (run_swept react fuel st)
    as (hs & out & final & Hh & W & Hf & [(R & S) | S]).
  - exists (hs ++ out). split.
    + apply Forall_app. split; [apply Z0; exact Hh|].
      eapply sweeping_no_logout. exact W.
    + left. split; [exact R|]. rewrite S, <- app_assoc. reflexivity.
  - exists (hs ++ out ++ final). split.
    + rewrite !Forall_app. repeat split;
        [apply Z0; exact Hh | eapply sweeping_no_logout; exact W
         | apply Z0; exact Hf].
    + right. exact S.
Qed.
